(** * A blackjack rules engine: shoe, hand valuation, round play, settlement
      and the batch simulation harness of [blackjack.hpp].

    The C++ code is embedded shallowly.

    - Card totals and counters ([int]) are integers of [Z].  A hand in
      play holds few cards ([min_total_add], [player_turn_total]) and the
      counters of the harness stay below its [int] round count, so none of
      them leaves the range of [int].
    - Money ([int64_t]) is [Z] with every arithmetic step checked against
      the 64-bit range; a step that leaves the range, a division by zero
      and an index past the end of a vector are undefined behaviour of the
      program and end the run with the fault [Undefined].
    - The two [while (true)] loops of [Round::play] are bounded by fuel;
      [play_never_out_of_fuel] shows the bound is never what ends a round.
    - The random engine and [std::shuffle] are an interface
      ([ShuffleEngine]), the strategy is an interface ([Strategy]). *)

From Stdlib Require Import ZArith List Bool Lia Permutation Arith.
From Stdlib Require String.
Import ListNotations.
Import String.StringSyntax.
Delimit Scope string_scope with string.
Local Open Scope Z_scope.

(** ** Cards *)

Inductive Suit : Type := Clubs | Diamonds | Hearts | Spades.

Inductive Rank : Type :=
  | Two | Three | Four | Five | Six | Seven | Eight | Nine | Ten
  | Jack | Queen | King | Ace.

Record Card : Type := mkCard { rank : Rank; suit : Suit }.

Definition Rank_eqb (a b : Rank) : bool :=
  match a, b with
  | Two, Two | Three, Three | Four, Four | Five, Five | Six, Six
  | Seven, Seven | Eight, Eight | Nine, Nine | Ten, Ten | Jack, Jack
  | Queen, Queen | King, King | Ace, Ace => true
  | _, _ => false
  end.

(** The enumerator values of [enum class Rank : uint8_t { Two=2, ... }]. *)
Definition rank_code (r : Rank) : Z :=
  match r with
  | Two => 2 | Three => 3 | Four => 4 | Five => 5 | Six => 6 | Seven => 7
  | Eight => 8 | Nine => 9 | Ten => 10 | Jack => 11 | Queen => 12
  | King => 13 | Ace => 14
  end.

Definition card_value (r : Rank) : Z :=
  match r with
  | Two | Three | Four | Five | Six | Seven | Eight | Nine => rank_code r
  | Ten | Jack | Queen | King => 10
  | Ace => 11
  end.

Definition is_ace (c : Card) : bool := Rank_eqb (rank c) Ace.

(** ** Rules *)

Record Rules : Type := mkRules {
  num_decks : Z;
  dealer_hits_soft17 : bool;
  double_allowed : bool;
  double_after_split : bool;
  surrender : bool;
  peek_for_blackjack : bool;
  blackjack_pays_num : Z;
  blackjack_pays_den : Z
}.

Definition default_rules : Rules :=
  mkRules 6 true true true false true 3 2.

(** ** Hand *)

Record Hand : Type := mkHand {
  cards : list Card;
  doubled : bool;
  surrendered : bool
}.

Definition empty_hand : Hand := mkHand [] false false.

Definition add (h : Hand) (c : Card) : Hand :=
  mkHand (cards h ++ [c]) (doubled h) (surrendered h).

Definition set_doubled (h : Hand) : Hand :=
  mkHand (cards h) true (surrendered h).

Definition set_surrendered (h : Hand) : Hand :=
  mkHand (cards h) (doubled h) true.

(** [for (auto &c : cards) total += card_value(c.rank);] *)
Definition sum_values (cs : list Card) : Z :=
  fold_left (fun total c => total + card_value (rank c)) cs 0.

(** [for (auto &c : cards) if (c.rank == Rank::Ace) ++aces;] *)
Definition count_aces (cs : list Card) : nat :=
  fold_left (fun aces c => if is_ace c then S aces else aces) cs O.

(** [while (total > 21 && aces > 0) { total -= 10; --aces; }], returning the
    pair of both variables when the loop is left.  The counter only goes
    down, so it is the structural argument. *)
Fixpoint reduce_aces (aces : nat) (total : Z) : Z * nat :=
  match aces with
  | O => (total, O)
  | S aces' => if 21 <? total then reduce_aces aces' (total - 10)
               else (total, aces)
  end.

Definition hard_total (h : Hand) : Z :=
  fst (reduce_aces (count_aces (cards h)) (sum_values (cards h))).

(** [Hand::is_soft].  The first two lines compute [total] and [aces] and
    are not read afterwards; the predicate of [std::any_of] recomputes
    [base] for each card and compares it with [hard_total()]. *)
Definition is_soft (h : Hand) : bool :=
  let total := sum_values (cards h) in
  let aces := count_aces (cards h) in
  let '(_, _) := reduce_aces aces total in
  existsb (fun c =>
    if negb (is_ace c) then false
    else
      let base := sum_values (cards h) in
      let a := count_aces (cards h) in
      let '(base, _) := reduce_aces a base in
      (base <=? 21)
      && (0 <? Z.of_nat (length (filter is_ace (cards h))))
      && negb (base =? hard_total h))
    (cards h).

Definition is_blackjack (h : Hand) : bool :=
  (length (cards h) =? 2)%nat && (hard_total h =? 21).

Definition is_bust (h : Hand) : bool := 21 <? hard_total h.

(** The contract of [is_soft] in the words of the specification: in the
    total that [hard_total] settles on, at least one Ace is still valued
    at 11, that is, the reduction loop stopped with Aces left over. *)
Definition is_soft_intended (h : Hand) : bool :=
  (0 <? snd (reduce_aces (count_aces (cards h)) (sum_values (cards h))))%nat.

(** A total is achievable when it values every Ace at 1 or at 11: it is
    the all-eleven sum lowered by ten for some of the Aces. *)
Definition achievable (h : Hand) (t : Z) : Prop :=
  exists k : nat, (k <= count_aces (cards h))%nat /\
                  t = sum_values (cards h) - 10 * Z.of_nat k.

Definition hand_of (cs : list Card) : Hand := mkHand cs false false.

(** ** Results of running the code *)

Inductive fault : Type :=
  | Undefined    (* undefined behaviour: signed overflow, division by zero,
                    an index past the end of a vector *)
  | LengthError  (* [std::length_error] thrown by [vector::reserve] *)
  | OutOfFuel.   (* the bound of a modelled loop was reached *)

Inductive res (A : Type) : Type :=
  | Ok (a : A)
  | Err (e : fault).

Arguments Ok {A} a.
Arguments Err {A} e.

Definition bind {A B : Type} (m : res A) (k : A -> res B) : res B :=
  match m with
  | Ok a => k a
  | Err e => Err e
  end.

Notation "x <- m ;; k" := (bind m (fun x => k))
  (at level 61, m at next level, right associativity).
Notation "' pat <- m ;; k" := (bind m (fun x => match x with pat => k end))
  (at level 61, pat pattern, m at next level, right associativity).

(** ** Machine integers *)

Definition INT_MAX : Z := 2147483647.
Definition INT_MIN : Z := -2147483648.
Definition INT64_MAX : Z := 9223372036854775807.
Definition INT64_MIN : Z := -9223372036854775808.
Definition SIZE_MOD : Z := 18446744073709551616.

Definition in_int (z : Z) : bool := (INT_MIN <=? z) && (z <=? INT_MAX).
Definition in_int64 (z : Z) : bool := (INT64_MIN <=? z) && (z <=? INT64_MAX).

(** The value of an [int64_t] expression: defined when representable. *)
Definition i64 (z : Z) : res Z := if in_int64 z then Ok z else Err Undefined.

Definition add64 (a b : Z) : res Z := i64 (a + b).
Definition sub64 (a b : Z) : res Z := i64 (a - b).
Definition mul64 (a b : Z) : res Z := i64 (a * b).
(** [a / b] truncates toward zero; [b = 0] and [INT64_MIN / -1] are
    undefined. *)
Definition div64 (a b : Z) : res Z :=
  if b =? 0 then Err Undefined else i64 (Z.quot a b).

(** ** Shoe *)

(** The random source of the shoe.  [std::mt19937_64] and the algorithm of
    [std::shuffle] belong to the C++ library, not to this repository; they
    are taken as an interface: an engine is built from a seed, and a shuffle
    rearranges the sequence and advances the engine. *)
Class ShuffleEngine (G : Type) : Type := {
  seed_engine : Z -> G;
  std_shuffle : list Card -> G -> list Card * G;
  std_shuffle_perm : forall cs g, Permutation cs (fst (std_shuffle cs g))
}.

Record Shoe (G : Type) : Type := mkShoe {
  cards_ : list Card;
  next_ : nat;
  rng_ : G
}.

Arguments mkShoe {G} _ _ _.
Arguments cards_ {G} _.
Arguments next_ {G} _.
Arguments rng_ {G} _.

Definition all_suits : list Suit := [Clubs; Diamonds; Hearts; Spades].

Definition all_ranks : list Rank :=
  [Two; Three; Four; Five; Six; Seven; Eight; Nine; Ten;
   Jack; Queen; King; Ace].

(** The two inner loops of [reset]: suits 0..3, ranks 2..14. *)
Definition one_deck : list Card :=
  flat_map (fun s => map (fun r => mkCard r s) all_ranks) all_suits.

(** The outer loop [for (int d = 0; d < decks; ++d)]. *)
Fixpoint build_decks (decks : nat) : list Card :=
  match decks with
  | O => []
  | S d => one_deck ++ build_decks d
  end.

Section ShoeOps.
Context {G : Type} `{ShuffleEngine G}.

Definition shuffle (sh : Shoe G) : Shoe G :=
  let '(cs, g) := std_shuffle (cards_ sh) (rng_ sh) in
  mkShoe cs (next_ sh) g.

(** [reset]: [decks * 52] is an [int] product, converted to [size_t] for
    [reserve]; a negative value becomes a size above [max_size()]. *)
Definition reset (sh : Shoe G) (decks : Z) : res (Shoe G) :=
  if negb (in_int (decks * 52)) then Err Undefined
  else if decks * 52 <? 0 then Err LengthError
  else
    let sh1 := mkShoe (build_decks (Z.to_nat decks)) (next_ sh) (rng_ sh) in
    let sh2 := shuffle sh1 in
    Ok (mkShoe (cards_ sh2) O (rng_ sh2)).

(** [explicit Shoe(int decks, uint64_t seed) : rng_(seed) { reset(decks); }] *)
Definition new_Shoe (decks : Z) (seed : Z) : res (Shoe G) :=
  reset (mkShoe [] O (seed_engine seed)) decks.

Definition draw (sh : Shoe G) : res (Card * Shoe G) :=
  let sh1 :=
    if (length (cards_ sh) <=? next_ sh)%nat
    then let sh' := shuffle sh in mkShoe (cards_ sh') O (rng_ sh')
    else sh in
  match nth_error (cards_ sh1) (next_ sh1) with
  | Some c => Ok (c, mkShoe (cards_ sh1) (S (next_ sh1)) (rng_ sh1))
  | None => Err Undefined
  end.

(** [cards_.size() - next_] in [size_t] arithmetic. *)
Definition remaining (sh : Shoe G) : Z :=
  (Z.of_nat (length (cards_ sh)) - Z.of_nat (next_ sh)) mod SIZE_MOD.

(** The first [k] cards that successive calls of [draw] return. *)
Fixpoint draw_many (k : nat) (sh : Shoe G) : res (list Card * Shoe G) :=
  match k with
  | O => Ok ([], sh)
  | S k' =>
      '(c, sh1) <- draw sh ;;
      '(cs, sh2) <- draw_many k' sh1 ;;
      Ok (c :: cs, sh2)
  end.
End ShoeOps.

(** ** Decisions and strategies *)

Inductive Decision : Type := Hit | Stand | Double | Surrender.

Definition Decision_eqb (a b : Decision) : bool :=
  match a, b with
  | Hit, Hit | Stand, Stand | Double, Double | Surrender, Surrender => true
  | _, _ => false
  end.

Record Situation : Type := mkSituation {
  player : Hand;
  dealer : Hand;
  rules : Rules;
  can_double : bool
}.

(** [struct Strategy { virtual Decision decide(const Situation&) = 0; }].
    [decide] is not a [const] member: an implementation may keep state of
    its own, which the call returns updated. *)
Class Strategy (St : Type) : Type := {
  decide : St -> Situation -> Decision * St
}.

Definition AlwaysHitUnder17_decide (s : Situation) : Decision :=
  if double_allowed (rules s) && can_double s
     && (length (cards (player s)) =? 2)%nat
     && (9 <=? hard_total (player s)) && (hard_total (player s) <=? 11)
  then Double
  else if hard_total (player s) <? 17 then Hit
  else Stand.

#[export] Instance AlwaysHitUnder17 : Strategy unit := {
  decide := fun st s => (AlwaysHitUnder17_decide s, st)
}.

(** ** Round and outcomes *)

Inductive Outcome : Type :=
  | PlayerBJ | DealerBJ | PlayerBust | DealerBust
  | PlayerWin | DealerWin | Push | PlayerSurrender.

Record RoundResult : Type := mkRoundResult {
  outcome : Outcome;
  player_total : Z;
  dealer_total : Z;
  payout_cents : Z
}.

(** Instrumentation: every call of [decide] that a round makes is recorded
    with the situation passed and the decision returned.  The first call of
    an iteration that offers surrender is only compared with [Surrender];
    the call whose answer selects the action is the second kind. *)
Inductive QueryKind : Type := SurrenderOffer | Action.

Record Query : Type := mkQuery {
  q_kind : QueryKind;
  q_situation : Situation;
  q_answer : Decision
}.

(** How the player loop is left: [break] (on to the dealer) or
    [return settle(oc)]. *)
Inductive LoopExit : Type :=
  | Break
  | Return (oc : Outcome).

(** The bound on the iterations of each of the two [while (true)] loops
    of [play]; [play_never_out_of_fuel] shows that it is never reached. *)
Definition loop_fuel : nat := 32.
(** ** Statistics of the simulation harness *)

Record SimStats : Type := mkSimStats {
  rounds : Z;
  player_wins : Z;
  dealer_wins : Z;
  pushes : Z;
  player_bj : Z;
  dealer_bj : Z;
  busts : Z;
  surrenders : Z;
  bankroll_cents : Z
}.

Definition no_stats : SimStats := mkSimStats 0 0 0 0 0 0 0 0 0.

(** The body of the loop of [simulate] after [r.play()]. *)
Definition tally (stats : SimStats) (rr : RoundResult) (was_doubled : bool)
                 (bet_cents : Z) : res SimStats :=
  stake <- (if was_doubled then mul64 bet_cents 2 else Ok bet_cents) ;;
  net <- sub64 (payout_cents rr) stake ;;
  bank <- add64 (bankroll_cents stats) net ;;
  let s := mkSimStats (rounds stats + 1) (player_wins stats)
             (dealer_wins stats) (pushes stats) (player_bj stats)
             (dealer_bj stats) (busts stats) (surrenders stats) bank in
  Ok match outcome rr with
     | PlayerBJ =>
         mkSimStats (rounds s) (player_wins s + 1) (dealer_wins s)
           (pushes s) (player_bj s + 1) (dealer_bj s) (busts s)
           (surrenders s) (bankroll_cents s)
     | DealerBJ =>
         mkSimStats (rounds s) (player_wins s) (dealer_wins s + 1)
           (pushes s) (player_bj s) (dealer_bj s + 1) (busts s)
           (surrenders s) (bankroll_cents s)
     | DealerBust =>
         mkSimStats (rounds s) (player_wins s + 1) (dealer_wins s)
           (pushes s) (player_bj s) (dealer_bj s) (busts s + 1)
           (surrenders s) (bankroll_cents s)
     | PlayerBust =>
         mkSimStats (rounds s) (player_wins s) (dealer_wins s + 1)
           (pushes s) (player_bj s) (dealer_bj s) (busts s + 1)
           (surrenders s) (bankroll_cents s)
     | PlayerWin =>
         mkSimStats (rounds s) (player_wins s + 1) (dealer_wins s)
           (pushes s) (player_bj s) (dealer_bj s) (busts s)
           (surrenders s) (bankroll_cents s)
     | DealerWin =>
         mkSimStats (rounds s) (player_wins s) (dealer_wins s + 1)
           (pushes s) (player_bj s) (dealer_bj s) (busts s)
           (surrenders s) (bankroll_cents s)
     | Push =>
         mkSimStats (rounds s) (player_wins s) (dealer_wins s)
           (pushes s + 1) (player_bj s) (dealer_bj s) (busts s)
           (surrenders s) (bankroll_cents s)
     | PlayerSurrender =>
         mkSimStats (rounds s) (player_wins s) (dealer_wins s)
           (pushes s) (player_bj s) (dealer_bj s) (busts s)
           (surrenders s + 1) (bankroll_cents s)
     end.

Section Engine.
Context {G : Type} `{ShuffleEngine G}.
Context {St : Type} `{Strategy St}.

(** The members of [class Round]; [shoe_] and [strat_] stand for the
    objects behind the two references, and [asked_] is the record of the
    queries made so far. *)
Record Round : Type := mkRound {
  rules_ : Rules;
  shoe_ : Shoe G;
  strat_ : St;
  bet_ : Z;
  player_ : Hand;
  dealer_ : Hand;
  asked_ : list Query
}.

(** [Round(const Rules&, Shoe&, Strategy&, int64_t bet_cents)] *)
Definition new_Round (rl : Rules) (sh : Shoe G) (st : St) (bet : Z) : Round :=
  mkRound rl sh st bet empty_hand empty_hand [].

Definition with_hands (r : Round) (p d : Hand) : Round :=
  mkRound (rules_ r) (shoe_ r) (strat_ r) (bet_ r) p d (asked_ r).

(** [player_.add(shoe_.draw())] *)
Definition deal_player (r : Round) : res Round :=
  '(c, sh) <- draw (shoe_ r) ;;
  Ok (mkRound (rules_ r) sh (strat_ r) (bet_ r)
              (add (player_ r) c) (dealer_ r) (asked_ r)).

(** [dealer_.add(shoe_.draw())] *)
Definition deal_dealer (r : Round) : res Round :=
  '(c, sh) <- draw (shoe_ r) ;;
  Ok (mkRound (rules_ r) sh (strat_ r) (bet_ r)
              (player_ r) (add (dealer_ r) c) (asked_ r)).

(** [strat_.decide(Situation{player_, dealer_, rules_, can_double})] *)
Definition ask (k : QueryKind) (r : Round) (cd : bool) : Decision * Round :=
  let s := mkSituation (player_ r) (dealer_ r) (rules_ r) cd in
  let '(d, st) := decide (strat_ r) s in
  (d, mkRound (rules_ r) (shoe_ r) st (bet_ r) (player_ r) (dealer_ r)
              (asked_ r ++ [mkQuery k s d])).

Definition settle (r : Round) (oc : Outcome) : res RoundResult :=
  payout <-
    match oc with
    | PlayerBJ =>
        m <- mul64 (bet_ r) (blackjack_pays_num (rules_ r)) ;;
        q <- div64 m (blackjack_pays_den (rules_ r)) ;;
        add64 (bet_ r) q
    | DealerBJ | PlayerBust => Ok 0
    | DealerBust | PlayerWin =>
        payout <- mul64 (bet_ r) 2 ;;
        if doubled (player_ r) then mul64 (bet_ r) 4 else Ok payout
    | DealerWin =>
        if doubled (player_ r) then Ok 0 else Ok 0
    | Push =>
        if doubled (player_ r) then mul64 (bet_ r) 2 else Ok (bet_ r)
    | PlayerSurrender => div64 (bet_ r) 2
    end ;;
  Ok (mkRoundResult oc (hard_total (player_ r)) (hard_total (dealer_ r))
                    payout).

(** The player loop.  One unit of fuel is one iteration. *)
Fixpoint player_turn (fuel : nat) (r : Round) (cd : bool)
  : res (LoopExit * Round) :=
  match fuel with
  | O => Err OutOfFuel
  | S fuel' =>
      let offer :=
        if surrender (rules_ r) && (length (cards (player_ r)) =? 2)%nat
        then
          let '(d0, r0) := ask SurrenderOffer r cd in
          (Decision_eqb d0 Surrender, r0)
        else (false, r) in
      let '(gave_up, r) := offer in
      if gave_up then
        Ok (Return PlayerSurrender,
            with_hands r (set_surrendered (player_ r)) (dealer_ r))
      else
        let '(d, r) := ask Action r cd in
        if Decision_eqb d Double && cd then
          r <- deal_player (with_hands r (set_doubled (player_ r))
                                       (dealer_ r)) ;;
          Ok (Break, r)
        else if Decision_eqb d Hit then
          r <- deal_player r ;;
          if is_bust (player_ r) then Ok (Return PlayerBust, r)
          else player_turn fuel' r false
        else Ok (Break, r)
  end.

(** The dealer loop. *)
Fixpoint dealer_turn (fuel : nat) (r : Round) : res Round :=
  match fuel with
  | O => Err OutOfFuel
  | S fuel' =>
      let total := hard_total (dealer_ r) in
      let soft := is_soft (dealer_ r) in
      if total <? 17 then
        r <- deal_dealer r ;; dealer_turn fuel' r
      else if (total =? 17) && dealer_hits_soft17 (rules_ r) && soft then
        r <- deal_dealer r ;; dealer_turn fuel' r
      else Ok r
  end.

Definition finish (r : Round) (oc : Outcome) : res (RoundResult * Round) :=
  rr <- settle r oc ;; Ok (rr, r).

(** [player_ = Hand{}; dealer_ = Hand{};] and the four initial draws. *)
Definition initial_deal (r : Round) : res Round :=
  let r := with_hands r empty_hand empty_hand in
  r <- deal_player r ;;
  r <- deal_dealer r ;;
  r <- deal_player r ;;
  deal_dealer r.

Definition play_within (fuel : nat) (r : Round)
  : res (RoundResult * Round) :=
  r <- initial_deal r ;;
  if peek_for_blackjack (rules_ r) && is_blackjack (dealer_ r) then
    if is_blackjack (player_ r) then finish r Push
    else finish r DealerBJ
  else if is_blackjack (player_ r) then finish r PlayerBJ
  else
    '(exit, r) <- player_turn fuel r (double_allowed (rules_ r)) ;;
    match exit with
    | Return oc => finish r oc
    | Break =>
        r <- dealer_turn fuel r ;;
        if is_bust (dealer_ r) then finish r DealerBust
        else
          let pt := hard_total (player_ r) in
          let dt := hard_total (dealer_ r) in
          if dt <? pt then finish r PlayerWin
          else if pt <? dt then finish r DealerWin
          else finish r Push
    end.

Definition play (r : Round) : res (RoundResult * Round) :=
  play_within loop_fuel r.

(** ** Simulation harness *)

(** [for (int i=0;i<n;++i) { Round r{rules, shoe, strat, bet_cents}; ... }]
    with the shoe and the strategy object carried from round to round. *)
Fixpoint sim_loop (k : nat) (rl : Rules) (bet_cents : Z)
                  (sh : Shoe G) (st : St) (stats : SimStats)
  : res (SimStats * Shoe G * St) :=
  match k with
  | O => Ok (stats, sh, st)
  | S k' =>
      let r := new_Round rl sh st bet_cents in
      '(rr, r) <- play r ;;
      stats <- tally stats rr (doubled (player_ r)) bet_cents ;;
      sim_loop k' rl bet_cents (shoe_ r) (strat_ r) stats
  end.

(** [simulate] with the strategy object that the caller passes; the state
    the object is left in is returned next to the statistics. *)
Definition simulate_with (n : Z) (rl : Rules) (seed : Z) (bet_cents : Z)
                         (st : St) : res (SimStats * St) :=
  shoe <- new_Shoe (num_decks rl) seed ;;
  '(stats, _, st) <- sim_loop (Z.to_nat n) rl bet_cents shoe st no_stats ;;
  Ok (stats, st).

(** The rounds that the loop of [simulate] plays, in order: each result
    with the [doubled] flag of the player hand it ended with. *)
Fixpoint rounds_played (k : nat) (rl : Rules) (bet_cents : Z)
                       (sh : Shoe G) (st : St)
  : res (list (RoundResult * bool)) :=
  match k with
  | O => Ok []
  | S k' =>
      '(rr, r) <- play (new_Round rl sh st bet_cents) ;;
      rest <- rounds_played k' rl bet_cents (shoe_ r) (strat_ r) ;;
      Ok ((rr, doubled (player_ r)) :: rest)
  end.
End Engine.

Arguments Round G St : clear implicits.
Arguments mkRound {G St} _ _ _ _ _ _ _.

(** The object behind a [Strategy*]: an implementation of the interface
    together with the state the object is in. *)
Record StrategyObj : Type := mkStrategyObj {
  obj_state : Type;
  obj_class : Strategy obj_state;
  obj_value : obj_state
}.

(** [AlwaysHitUnder17 default_strat;] *)
Definition default_strat : StrategyObj :=
  mkStrategyObj unit AlwaysHitUnder17 tt.

(** [simulate(n, rules, seed, bet_cents, strategy)], with
    [Strategy& strat = strategy ? *strategy : default_strat;]. *)
Definition simulate {G : Type} `{ShuffleEngine G}
    (n : Z) (rl : Rules) (seed : Z) (bet_cents : Z)
    (strategy : option StrategyObj) : res SimStats :=
  let strat := match strategy with Some o => o | None => default_strat end in
  '(stats, _) <- simulate_with (H0 := obj_class strat) n rl seed bet_cents
                               (obj_value strat) ;;
  Ok stats.

(** ** Properties the specification states, in its words *)

(** The settlement table of the specification. *)
Definition payout_table (oc : Outcome) (was_doubled : bool)
                        (bet num den : Z) : Z :=
  match oc with
  | PlayerBJ => bet + Z.quot (bet * num) den
  | DealerBJ | PlayerBust | DealerWin => 0
  | DealerBust | PlayerWin => if was_doubled then bet * 4 else bet * 2
  | Push => if was_doubled then bet * 2 else bet
  | PlayerSurrender => Z.quot bet 2
  end.

(** The result the specification prescribes for a settlement. *)
Definition settled {G St : Type} (r : Round G St) (oc : Outcome)
  : RoundResult :=
  mkRoundResult oc (hard_total (player_ r)) (hard_total (dealer_ r))
    (payout_table oc (doubled (player_ r)) (bet_ r)
       (blackjack_pays_num (rules_ r)) (blackjack_pays_den (rules_ r))).

(** The stake and payout ratio for which every step of [settle] stays
    within [int64_t] and divides by a non-zero denominator. *)
Definition settle_in_contract (bet num den : Z) : Prop :=
  den <> 0
  /\ in_int64 (bet * 4) = true
  /\ in_int64 (bet * num) = true
  /\ in_int64 (Z.quot (bet * num) den) = true
  /\ in_int64 (bet + Z.quot (bet * num) den) = true.

(** The least of the achievable totals that do not bust. *)
Definition minimal_nonbust_total (h : Hand) (t : Z) : Prop :=
  achievable h t /\ t <= 21
  /\ forall t', achievable h t' -> t' <= 21 -> t <= t'.

(** The greatest of the achievable totals that do not bust. *)
Definition best_nonbust_total (h : Hand) (t : Z) : Prop :=
  achievable h t /\ t <= 21
  /\ forall t', achievable h t' -> t' <= 21 -> t' <= t.

(** The invariant of the shoe: the cursor is within the sequence. *)
Definition shoe_inv {G : Type} (sh : Shoe G) : Prop :=
  (next_ sh <= length (cards_ sh))%nat.

(** The queries of a record whose answer selects the action. *)
Definition actions (log : list Query) : list Query :=
  filter (fun q => match q_kind q with Action => true | _ => false end) log.

(** Every Ace at 1: the least total a hand can be valued at. *)
Definition min_total (h : Hand) : Z :=
  sum_values (cards h) - 10 * Z.of_nat (count_aces (cards h)).

Definition Outcome_eqb (a b : Outcome) : bool :=
  match a, b with
  | PlayerBJ, PlayerBJ | DealerBJ, DealerBJ | PlayerBust, PlayerBust
  | DealerBust, DealerBust | PlayerWin, PlayerWin | DealerWin, DealerWin
  | Push, Push | PlayerSurrender, PlayerSurrender => true
  | _, _ => false
  end.

(** How often an outcome occurs among the rounds played. *)
Definition count_outcome (oc : Outcome) (hist : list (RoundResult * bool))
  : Z :=
  Z.of_nat (length (filter (fun x => Outcome_eqb (outcome (fst x)) oc) hist)).

(** The net result of the rounds played: each payout less the amount
    staked, twice the bet for a doubled hand. *)
Definition net_total (bet : Z) (hist : list (RoundResult * bool)) : Z :=
  fold_right (fun (x : RoundResult * bool) (acc : Z) =>
                payout_cents (fst x) - (if snd x then 2 * bet else bet) + acc)
             0 hist.

(** A strategy is stateless when its decision is a function of the
    situation alone. *)
Definition stateless (St : Type) `{Strategy St} : Prop :=
  forall (st st' : St) (s : Situation),
    fst (decide st s) = fst (decide st' s).

(** ** Definitions used in stating and proving the properties *)

(** The record of the action queries of one player turn, as a relation
    between the legality flag and the player hand the turn starts with,
    the way the loop is left and the hand it leaves. *)
Inductive turn_log : bool -> Hand -> list Query -> LoopExit -> Hand -> Prop :=
  | TL_surrender (cd : bool) (p : Hand) :
      turn_log cd p [] (Return PlayerSurrender) (set_surrendered p)
  | TL_double (p : Hand) (s : Situation) (c : Card) :
      player s = p -> can_double s = true ->
      turn_log true p [mkQuery Action s Double] Break (add (set_doubled p) c)
  | TL_stand (cd : bool) (p : Hand) (s : Situation) (d : Decision) :
      player s = p -> can_double s = cd ->
      d <> Hit -> (d = Double -> cd = false) ->
      turn_log cd p [mkQuery Action s d] Break p
  | TL_bust (cd : bool) (p : Hand) (s : Situation) (c : Card) :
      player s = p -> can_double s = cd ->
      is_bust (add p c) = true ->
      turn_log cd p [mkQuery Action s Hit] (Return PlayerBust) (add p c)
  | TL_hit (cd : bool) (p : Hand) (s : Situation) (c : Card)
           (rest : list Query) (exit : LoopExit) (p' : Hand) :
      player s = p -> can_double s = cd ->
      is_bust (add p c) = false ->
      turn_log false (add p c) rest exit p' ->
      turn_log cd p (mkQuery Action s Hit :: rest) exit p'.

(** The outcome of a round in which both turns were played out. *)
Definition compare_totals (p d : Hand) : Outcome :=
  if is_bust d then DealerBust
  else if hard_total d <? hard_total p then PlayerWin
  else if hard_total p <? hard_total d then DealerWin
  else Push.

(** The most a round pays or stakes, for a non-negative stake. *)
Definition round_bound (bet num : Z) : Z := bet * Z.max 4 (num + 1).

(** Two results agree up to a relation on their values. *)
Definition res_rel {A B : Type} (R : A -> B -> Prop)
           (m1 : res A) (m2 : res B) : Prop :=
  match m1, m2 with
  | Ok a, Ok b => R a b
  | Err e1, Err e2 => e1 = e2
  | _, _ => False
  end.

(** The statistics of a run, without the state the strategy is left in. *)
Definition stats_of {St : Type} (m : res (SimStats * St)) : res SimStats :=
  '(stats, _) <- m ;; Ok stats.

(** Two rounds that differ in the state of the strategy object only. *)
Definition same_table {G St : Type} (r1 r2 : Round G St) : Prop :=
  rules_ r1 = rules_ r2 /\ shoe_ r1 = shoe_ r2 /\ bet_ r1 = bet_ r2
  /\ player_ r1 = player_ r2 /\ dealer_ r1 = dealer_ r2
  /\ asked_ r1 = asked_ r2.

(** Two calls of [simulate] with the same arguments, one after the other.
    [strategy] is a [Strategy*]: when it is not null both calls work on the
    one object it points to, the second from the state in which the first
    leaves it; when it is null each call has a [default_strat] of its own.
    The shoe is built anew from the seed by each call. *)
Definition simulate_twice {G : Type} `{ShuffleEngine G}
    (n : Z) (rl : Rules) (seed : Z) (bet_cents : Z)
    (strategy : option StrategyObj) : res (SimStats * SimStats) :=
  match strategy with
  | None =>
      a <- simulate n rl seed bet_cents None ;;
      b <- simulate n rl seed bet_cents None ;;
      Ok (a, b)
  | Some o =>
      '(a, st) <- simulate_with (H0 := obj_class o) n rl seed bet_cents
                                (obj_value o) ;;
      '(b, _) <- simulate_with (H0 := obj_class o) n rl seed bet_cents st ;;
      Ok (a, b)
  end.

(** The strategy passed keeps to the contract of a strategy: its decisions
    are a function of the situation.  The built-in strategy does. *)
Definition obj_stateless (strategy : option StrategyObj) : Prop :=
  match strategy with
  | None => True
  | Some o => stateless (H := obj_class o) (obj_state o)
  end.

(** ** Test doubles and example inputs *)

Definition spade (r : Rank) : Card := mkCard r Spades.

Definition two_aces_nine : Hand := hand_of [spade Ace; spade Ace; spade Nine].
Definition ace_six : Hand := hand_of [spade Ace; spade Six].
Definition ace_six_ten : Hand := hand_of [spade Ace; spade Six; spade Ten].

(** A round of the given stake, ratio and player flag, for the examples of
    the settlement table. *)
Definition settling (bet num den : Z) (was_doubled : bool) : Round unit unit :=
  mkRound (mkRules 6 true true true false true num den) (mkShoe [] O tt) tt
          bet (mkHand [] was_doubled false) empty_hand [].

(** A stand-in for the random source in the examples: a shuffle cuts the
    sequence at a point the state selects and steps the state. *)
Definition cut_perm (cs : list Card) (k : nat)
  : Permutation cs (skipn k cs ++ firstn k cs) :=
  eq_ind (firstn k cs ++ skipn k cs)
         (fun l => Permutation l (skipn k cs ++ firstn k cs))
         (Permutation_app_comm (firstn k cs) (skipn k cs))
         cs (firstn_skipn k cs).

#[export] Instance CutEngine : ShuffleEngine nat := {
  seed_engine := fun seed => Z.to_nat (seed mod 52);
  std_shuffle := fun cs g => (skipn (g mod 52) cs ++ firstn (g mod 52) cs,
                              S g);
  std_shuffle_perm := fun cs g => cut_perm cs (g mod 52)
}.

(** A one-deck shoe with every card drawn. *)
Definition spent_shoe : Shoe nat := mkShoe one_deck 52 1%nat.

(** Decks in a chosen order. *)

Definition Suit_eqb (a b : Suit) : bool :=
  match a, b with
  | Clubs, Clubs | Diamonds, Diamonds | Hearts, Hearts | Spades, Spades =>
      true
  | _, _ => false
  end.

Definition Card_eqb (a b : Card) : bool :=
  Rank_eqb (rank a) (rank b) && Suit_eqb (suit a) (suit b).

(** The deck with the cards of [top] moved to the front, in their order. *)
Definition stack_deck (top : list Card) : list Card :=
  top ++ filter (fun c => negb (existsb (Card_eqb c) top)) one_deck.

Fixpoint remove_one (c : Card) (l : list Card) : option (list Card) :=
  match l with
  | [] => None
  | x :: xs =>
      if Card_eqb c x then Some xs
      else match remove_one c xs with
           | Some xs' => Some (x :: xs')
           | None => None
           end
  end.

Fixpoint same_cards (l1 l2 : list Card) : bool :=
  match l1 with
  | [] => match l2 with [] => true | _ => false end
  | c :: l1' =>
      match remove_one c l2 with
      | Some l2' => same_cards l1' l2'
      | None => false
      end
  end.

Definition heart (r : Rank) : Card := mkCard r Hearts.
Definition club (r : Rank) : Card := mkCard r Clubs.
Definition diamond (r : Rank) : Card := mkCard r Diamonds.

(** A one-deck shoe, just shuffled into the order that starts with [top]. *)
Definition stacked_shoe (top : list Card) : Shoe nat :=
  mkShoe (stack_deck top) O 1%nat.

(** Two decision policies for the examples. *)
Definition AlwaysDouble : Strategy unit :=
  {| decide := fun st _ => (Double, st) |}.

Definition HitThenDouble : Strategy unit :=
  {| decide := fun st s =>
       (if (length (cards (player s)) =? 2)%nat then Hit else Double, st) |}.

Definition one_deck_rules : Rules := mkRules 1 true true true false true 3 2.

(** Both sides are dealt an Ace and a King. *)
Definition both_naturals : Round nat unit :=
  new_Round one_deck_rules
    (stacked_shoe [spade Ace; heart King; spade King; heart Ace]) tt 100.

(** The player hits a Two and a Five, then asks to double. *)
Definition late_double : Round nat unit :=
  new_Round one_deck_rules
    (stacked_shoe [spade Two; heart Ten; spade Five; spade Eight;
                   diamond Three; diamond Ten]) tt 100.

(** The player doubles on a Ten and a Five and is dealt a Ten; the dealer
    stands on 18. *)
Definition doubled_bust_win : Round nat unit :=
  new_Round one_deck_rules
    (stacked_shoe [spade Ten; heart Ten; spade Five; spade Eight;
                   diamond Ten]) tt 100.

(** The same, with the dealer drawing to 26 from 16. *)
Definition doubled_bust_both : Round nat unit :=
  new_Round one_deck_rules
    (stacked_shoe [spade Ten; heart Ten; spade Five; spade Six;
                   diamond Ten; club Ten]) tt 100.

(** The player stands on twenty; the dealer holds an Ace and a Six. *)
Definition dealer_soft17 : Round nat unit :=
  new_Round one_deck_rules
    (stacked_shoe [spade Ten; spade Ace; heart Ten; spade Six]) tt 100.

(** A strategy whose decision depends on its own state, which every
    decision flips. *)
Definition Moody : Strategy bool :=
  {| decide := fun (mood : bool) (_ : Situation) =>
       (if mood then Stand else Hit, negb mood) |}.

(** A strategy object with state of its own, the number of decisions it
    has made, that decides as [AlwaysHitUnder17] does. *)
Definition CountingStrategy : Strategy nat :=
  {| decide := fun count s => (AlwaysHitUnder17_decide s, S count) |}.

(** ** The remaining operations of the engine *)

(** The two tables of [Card::short_str]. *)
Definition rank_labels : list String.string :=
  ["2"; "3"; "4"; "5"; "6"; "7"; "8"; "9"; "T"; "J"; "Q"; "K"; "A"]%string.

Definition suit_labels : list String.string :=
  ["C"; "D"; "H"; "S"]%string.

(** The enumerator values of [enum class Suit : uint8_t]. *)
Definition suit_code (s : Suit) : Z :=
  match s with Clubs => 0 | Diamonds => 1 | Hearts => 2 | Spades => 3 end.

(** [Card::short_str]: both tables are indexed by the enumerator value;
    [std::array::operator[]] past the end is undefined. *)
Definition short_str (c : Card) : res String.string :=
  match nth_error rank_labels (Z.to_nat (rank_code (rank c))),
        nth_error suit_labels (Z.to_nat (suit_code (suit c))) with
  | Some r, Some s => Ok (String.append r s)
  | _, _ => Err Undefined
  end.

(** The label the tables hold for a card: ranks are listed from Two, the
    enumerator 2, and suits from Clubs, the enumerator 0. *)
Definition card_label (c : Card) : String.string :=
  String.append
    (nth (Z.to_nat (rank_code (rank c) - 2)) rank_labels String.EmptyString)
    (nth (Z.to_nat (suit_code (suit c))) suit_labels String.EmptyString).

(** How many times a card occurs in a sequence. *)
Definition count_card (c : Card) (l : list Card) : nat :=
  length (filter (Card_eqb c) l).

(** The action queries answered Hit. *)
Definition count_hits (acts : list Query) : nat :=
  length (filter (fun q => Decision_eqb (q_answer q) Hit) acts).

(** The relations that the counters of [simulate] keep among themselves. *)
Definition stats_consistent (s : SimStats) : Prop :=
  player_wins s + dealer_wins s + pushes s + surrenders s = rounds s
  /\ 0 <= player_bj s <= player_wins s
  /\ 0 <= dealer_bj s <= dealer_wins s
  /\ 0 <= busts s <= player_wins s + dealer_wins s
  /\ player_bj s + dealer_bj s + busts s <= player_wins s + dealer_wins s
  /\ 0 <= pushes s /\ 0 <= surrenders s.

(** A strategy that declines the first time it is asked and answers
    Surrender from then on. *)
Definition LateSurrender : Strategy bool :=
  {| decide := fun (asked_before : bool) (_ : Situation) =>
       (if asked_before then Surrender else Stand, true) |}.

(** A round under rules that offer surrender. *)
Definition surrender_round : Round nat bool :=
  new_Round (mkRules 1 true true true true true 3 2)
    (stacked_shoe [spade Ten; heart Ten; spade Five; spade Eight]) false 100.

(** The built-in strategy doubles on a Six and a Five. *)
Definition default_double : Round nat unit :=
  new_Round one_deck_rules
    (stacked_shoe [spade Six; heart Ten; spade Five; spade Eight;
                   diamond Ace]) tt 100.

(** One deck, surrender offered, no peek at the hole card. *)
Definition no_peek_rules : Rules := mkRules 1 true true true true false 3 2.

(** No decks at all. *)
Definition no_deck_rules : Rules := mkRules 0 true true true false true 3 2.

Section Runs.
Context {G : Type} `{ShuffleEngine G}.
Context {St : Type} `{Strategy St}.

(** The first statement of an iteration of the player loop: the offer of
    surrender, with whether it was taken. *)
Definition offer_step (r : Round G St) (cd : bool) : bool * Round G St :=
  if surrender (rules_ r) && (length (cards (player_ r)) =? 2)%nat
  then let '(d0, r0) := ask SurrenderOffer r cd in
       (Decision_eqb d0 Surrender, r0)
  else (false, r).

(** The runs of the player loop, one constructor for each way an
    iteration goes on. *)
Inductive turn_run : Round G St -> bool -> LoopExit -> Round G St -> Prop :=
  | TR_surrender (r r0 : Round G St) (cd : bool) :
      offer_step r cd = (true, r0) ->
      turn_run r cd (Return PlayerSurrender)
               (with_hands r0 (set_surrendered (player_ r0)) (dealer_ r0))
  | TR_double (r r0 r1 r2 : Round G St) :
      offer_step r true = (false, r0) ->
      ask Action r0 true = (Double, r1) ->
      deal_player (with_hands r1 (set_doubled (player_ r1)) (dealer_ r1))
      = Ok r2 ->
      turn_run r true Break r2
  | TR_stand (r r0 r1 : Round G St) (cd : bool) (d : Decision) :
      offer_step r cd = (false, r0) ->
      ask Action r0 cd = (d, r1) ->
      d <> Hit -> (d = Double -> cd = false) ->
      turn_run r cd Break r1
  | TR_bust (r r0 r1 r2 : Round G St) (cd : bool) :
      offer_step r cd = (false, r0) ->
      ask Action r0 cd = (Hit, r1) ->
      deal_player r1 = Ok r2 ->
      is_bust (player_ r2) = true ->
      turn_run r cd (Return PlayerBust) r2
  | TR_hit (r r0 r1 r2 r' : Round G St) (cd : bool) (exit : LoopExit) :
      offer_step r cd = (false, r0) ->
      ask Action r0 cd = (Hit, r1) ->
      deal_player r1 = Ok r2 ->
      is_bust (player_ r2) = false ->
      turn_run r2 false exit r' ->
      turn_run r cd exit r'.
End Runs.

(** ** Facts about the valuation *)

Lemma sum_values_from (cs : list Card) (z : Z) :
  fold_left (fun total c => total + card_value (rank c)) cs z
  = z + sum_values cs.
Proof.
  unfold sum_values. revert z.
  induction cs as [|c cs IH]; intros z; simpl; [lia|].
  rewrite (IH (z + _)), (IH (card_value _)). lia.
Qed.

Lemma sum_values_cons (c : Card) (cs : list Card) :
  sum_values (c :: cs) = card_value (rank c) + sum_values cs.
Proof. unfold sum_values at 1. simpl. now rewrite sum_values_from. Qed.

Lemma sum_values_app (xs ys : list Card) :
  sum_values (xs ++ ys) = sum_values xs + sum_values ys.
Proof.
  induction xs as [|x xs IH]; simpl; [reflexivity|].
  rewrite !sum_values_cons, IH. lia.
Qed.

Lemma count_aces_from (cs : list Card) (n : nat) :
  fold_left (fun aces c => if is_ace c then S aces else aces) cs n
  = (n + count_aces cs)%nat.
Proof.
  unfold count_aces. revert n.
  induction cs as [|c cs IH]; intros n; simpl; [lia|].
  rewrite (IH (if is_ace c then S n else n)).
  rewrite (IH (if is_ace c then 1%nat else 0%nat)).
  destruct (is_ace c); lia.
Qed.

Lemma count_aces_cons (c : Card) (cs : list Card) :
  count_aces (c :: cs)
  = ((if is_ace c then 1 else 0) + count_aces cs)%nat.
Proof.
  unfold count_aces at 1. simpl. rewrite count_aces_from.
  destruct (is_ace c); reflexivity.
Qed.

Lemma card_value_range (r : Rank) : 2 <= card_value r <= 11.
Proof. destruct r; simpl; lia. Qed.

Lemma card_value_ace (c : Card) :
  card_value (rank c) = if is_ace c then 11 else card_value (rank c).
Proof. unfold is_ace. destruct (rank c); reflexivity. Qed.

(** The loop as a relation between its inputs and its outputs: [k] Aces
    were lowered, each one while the total stood above 21, and the loop
    was left with the total at most 21 or with no Ace to lower. *)
Lemma reduce_aces_spec (aces : nat) (total : Z) :
  exists k : nat,
    (k <= aces)%nat
    /\ reduce_aces aces total = (total - 10 * Z.of_nat k, (aces - k)%nat)
    /\ (forall j : nat, (j < k)%nat -> 21 < total - 10 * Z.of_nat j)
    /\ (total - 10 * Z.of_nat k <= 21 \/ k = aces).
Proof.
  revert total. induction aces as [|a IH]; intros total.
  - exists O. cbn [reduce_aces]. repeat split; try lia. f_equal. lia.
  - cbn [reduce_aces]. destruct (21 <? total) eqn:E.
    + apply Z.ltb_lt in E.
      destruct (IH (total - 10)) as (k & Hk & Heq & Hall & Hend).
      exists (S k). repeat split.
      * lia.
      * rewrite Heq. f_equal; lia.
      * intros [|j] Hj; [lia|].
        specialize (Hall j ltac:(lia)). lia.
      * destruct Hend; [left; lia | right; lia].
    + apply Z.ltb_ge in E. exists O.
      split; [lia|]. split; [f_equal; lia|]. split; [lia|left; lia].
Qed.

Lemma is_soft_never (h : Hand) : is_soft h = false.
Proof.
  unfold is_soft, hard_total.
  destruct (reduce_aces _ _) as [base a] eqn:E. cbn [fst].
  rewrite Z.eqb_refl. cbn [negb].
  match goal with |- existsb ?f _ = _ => set (p := f) end.
  assert (Hp : forall c, p c = false).
  { intros c. unfold p. destruct (is_ace c); cbn [negb];
      rewrite ?andb_false_r; reflexivity. }
  clearbody p. clear E.
  induction (cards h) as [|c cs IH]; [reflexivity|].
  cbn [existsb]. now rewrite Hp, IH.
Qed.

Lemma hard_total_reductions (h : Hand) :
  exists k : nat,
    (k <= count_aces (cards h))%nat
    /\ hard_total h = sum_values (cards h) - 10 * Z.of_nat k
    /\ (forall j : nat, (j < k)%nat ->
                        21 < sum_values (cards h) - 10 * Z.of_nat j)
    /\ (hard_total h <= 21 \/ k = count_aces (cards h)).
Proof.
  unfold hard_total.
  destruct (reduce_aces_spec (count_aces (cards h)) (sum_values (cards h)))
    as (k & Hk & Heq & Hall & Hend).
  exists k. rewrite Heq. cbn [fst]. auto.
Qed.

Lemma hard_total_ge_min (h : Hand) : min_total h <= hard_total h.
Proof.
  destruct (hard_total_reductions h) as (k & Hk & Heq & _).
  unfold min_total. lia.
Qed.

(** ** Hand valuation *)

(** C1, as amended.  [hard_total] is the all-eleven sum lowered by ten once
    for each of [k] Aces, each lowering made while the total stood above 21,
    the lowering ending when the total is at most 21 or every Ace is
    lowered.  Without Aces it is the plain sum of the card values.  When
    some achievable total does not bust, it is the greatest achievable
    total that does not bust; when every achievable total busts, it is the
    least achievable total. *)
Theorem hard_total_spec (h : Hand) :
  (exists k : nat,
      (k <= count_aces (cards h))%nat
      /\ hard_total h = sum_values (cards h) - 10 * Z.of_nat k
      /\ (forall j : nat, (j < k)%nat ->
                          21 < sum_values (cards h) - 10 * Z.of_nat j)
      /\ (hard_total h <= 21 \/ k = count_aces (cards h)))
  /\ (count_aces (cards h) = O -> hard_total h = sum_values (cards h))
  /\ ((exists t, achievable h t /\ t <= 21) ->
      best_nonbust_total h (hard_total h))
  /\ ((forall t, achievable h t -> 21 < t) ->
      hard_total h = min_total h
      /\ forall t, achievable h t -> hard_total h <= t).
Proof.
  destruct (hard_total_reductions h) as (k & Hk & Heq & Hall & Hend).
  split; [exists k; auto|].
  split; [intros H0; rewrite H0 in Hk; lia|].
  split.
  - intros (t & (j & Hj & Ht) & Hle).
    assert (Hnb : hard_total h <= 21).
    { destruct Hend as [Hend|Hend]; [exact Hend|]. subst k. lia. }
    split; [exists k; auto|]. split; [exact Hnb|].
    intros t' (j' & Hj' & Ht') Hle'.
    destruct (Nat.lt_ge_cases j' k) as [Hlt|Hge]; [|lia].
    specialize (Hall j' Hlt). lia.
  - intros Hbust.
    assert (Hk' : k = count_aces (cards h)).
    { destruct Hend as [Hend|Hend]; [|exact Hend].
      specialize (Hbust (hard_total h)).
      assert (achievable h (hard_total h)) by (exists k; auto).
      specialize (Hbust H). lia. }
    split; [unfold min_total; lia|].
    intros t (j & Hj & Ht). lia.
Qed.

Lemma hard_total_spec_witness :
  (exists t, achievable two_aces_nine t /\ t <= 21)
  /\ best_nonbust_total two_aces_nine 21.
Proof.
  assert (Hex : exists t, achievable two_aces_nine t /\ t <= 21).
  { exists 21. split; [exists 1%nat; split; [vm_compute; lia | reflexivity]
                      | lia]. }
  split; [exact Hex|].
  exact (proj1 (proj2 (proj2 (hard_total_spec two_aces_nine))) Hex).
Defined.

(** C1, as the claim words it, fails: two Aces and a Nine can be valued at
    11, which does not bust, and [hard_total] is 21, so the total returned
    is not the least achievable total that does not bust. *)
Lemma hard_total_not_minimal :
  (0 < count_aces (cards two_aces_nine))%nat
  /\ (exists t, achievable two_aces_nine t /\ t <= 21)
  /\ hard_total two_aces_nine = 21
  /\ ~ minimal_nonbust_total two_aces_nine (hard_total two_aces_nine).
Proof.
  split; [vm_compute; lia|].
  split.
  { exists 11. split; [exists 2%nat; split; [vm_compute; lia | reflexivity]
                      | lia]. }
  split; [reflexivity|].
  intros (_ & _ & Hmin).
  assert (Ha : achievable two_aces_nine 11).
  { exists 2%nat. split; [vm_compute; lia | reflexivity]. }
  specialize (Hmin 11 Ha ltac:(lia)).
  change (hard_total two_aces_nine) with 21 in Hmin. lia.
Qed.

(** The intended softness in the terms of the specification: some Ace is
    still valued at 11 in the total of [hard_total]. *)
Lemma is_soft_intended_spec (h : Hand) :
  is_soft_intended h = true <->
  exists k : nat, (k < count_aces (cards h))%nat
                  /\ hard_total h = sum_values (cards h) - 10 * Z.of_nat k.
Proof.
  unfold is_soft_intended, hard_total.
  destruct (reduce_aces_spec (count_aces (cards h)) (sum_values (cards h)))
    as (k & Hk & Heq & _ & _).
  rewrite Heq. cbn [fst snd]. rewrite Nat.ltb_lt. split.
  - intros Hlt. exists k. split; [lia|reflexivity].
  - intros (j & Hj & Hj'). assert (j = k) by lia. subst j. lia.
Qed.

(** C5.  [is_soft] returns false for every hand.  On an Ace and a Six the
    optimal total 17 keeps the Ace at 11, so the hand is soft in the sense
    of the specification, and [is_soft] returns false; on an Ace, a Six
    and a Ten both agree on false. *)
Theorem is_soft_misses_soft_hands :
  (forall h : Hand, is_soft h = false)
  /\ hard_total ace_six = 17
  /\ is_soft_intended ace_six = true
  /\ is_soft ace_six = false
  /\ is_soft_intended ace_six_ten = false
  /\ is_soft ace_six_ten = false.
Proof.
  split; [exact is_soft_never|].
  repeat split; reflexivity.
Qed.

(** [is_blackjack] holds of exactly the two-card hands of an Ace and a
    ten-valued card. *)
Lemma is_blackjack_cards (h : Hand) :
  is_blackjack h = true <->
  exists a b, cards h = [a; b]
              /\ ((is_ace a = true /\ card_value (rank b) = 10)
                  \/ (card_value (rank a) = 10 /\ is_ace b = true)).
Proof.
  unfold is_blackjack. rewrite andb_true_iff, Nat.eqb_eq, Z.eqb_eq.
  destruct h as [cs db sr]. cbn [cards]. split.
  - intros [Hlen Ht].
    destruct cs as [|a [|b [|c cs]]]; try discriminate.
    exists a, b. split; [reflexivity|].
    destruct a as [ra sa], b as [rb sb]. unfold is_ace. cbn [rank].
    destruct ra, rb; vm_compute in Ht; try discriminate;
      vm_compute; auto.
  - intros (a & b & -> & Hab). split; [reflexivity|].
    destruct a as [ra sa], b as [rb sb]. unfold is_ace in Hab.
    cbn [rank] in Hab.
    destruct ra, rb; vm_compute in Hab;
      destruct Hab as [[? ?]|[? ?]]; try discriminate; reflexivity.
Qed.

(** ** Settlement *)

Lemma bind_ok {A B : Type} (m : res A) (k : A -> res B) (b : B) :
  bind m k = Ok b -> exists a, m = Ok a /\ k a = Ok b.
Proof. destruct m as [a|e]; cbn; [eauto | discriminate]. Qed.

Lemma in_int64_iff (z : Z) :
  in_int64 z = true <-> INT64_MIN <= z <= INT64_MAX.
Proof. unfold in_int64. rewrite andb_true_iff, !Z.leb_le. tauto. Qed.

Lemma i64_ok (z : Z) : in_int64 z = true -> i64 z = Ok z.
Proof. unfold i64. now intros ->. Qed.

Lemma i64_inv (z x : Z) : i64 z = Ok x -> x = z.
Proof. unfold i64. destruct (in_int64 z); [congruence | discriminate]. Qed.

Lemma quot2_bounds (z : Z) :
  INT64_MIN <= z <= INT64_MAX -> INT64_MIN <= Z.quot z 2 <= INT64_MAX.
Proof.
  intros Hz. unfold INT64_MIN, INT64_MAX in *.
  Z.quot_rem_to_equations. lia.
Qed.

(** Inversion of a run of checked steps that returned. *)
Ltac invert_ok :=
  repeat match goal with
         | H : bind _ _ = Ok _ |- _ =>
             let a := fresh "a" in
             let Ha := fresh "Ha" in
             apply bind_ok in H as (a & Ha & H)
         | H : i64 _ = Ok _ |- _ => apply i64_inv in H
         | H : (if ?b then _ else _) = Ok _ |- _ =>
             let E := fresh "E" in destruct b eqn:E
         | H : Err _ = Ok _ |- _ => discriminate H
         | H : Ok _ = Ok _ |- _ => injection H as H
         end.

Section Settlement.
Context {G St : Type}.

Lemma settle_defined (r : Round G St) (oc : Outcome) :
  settle_in_contract (bet_ r) (blackjack_pays_num (rules_ r))
                     (blackjack_pays_den (rules_ r)) ->
  settle r oc = Ok (settled r oc).
Proof.
  intros (Hden & H4 & Hm & Hq & Hs).
  assert (Hb : INT64_MIN <= bet_ r * 4 <= INT64_MAX)
    by now apply in_int64_iff.
  assert (H2 : in_int64 (bet_ r * 2) = true).
  { apply in_int64_iff. unfold INT64_MIN, INT64_MAX in *. lia. }
  assert (H1 : in_int64 (Z.quot (bet_ r) 2) = true).
  { apply in_int64_iff, quot2_bounds.
    unfold INT64_MIN, INT64_MAX in *. lia. }
  apply Z.eqb_neq in Hden.
  unfold settle, settled, payout_table, mul64, div64, add64.
  destruct oc; cbn [bind];
    rewrite ?(i64_ok _ Hm); cbn [bind]; rewrite ?Hden;
    rewrite ?(i64_ok _ Hq); cbn [bind]; rewrite ?(i64_ok _ Hs);
    rewrite ?(i64_ok _ H2); cbn [bind];
    try destruct (doubled (player_ r));
    rewrite ?(i64_ok _ H4), ?(i64_ok _ H2), ?(i64_ok _ H1);
    cbn [bind]; reflexivity.
Qed.

Lemma settle_sound (r : Round G St) (oc : Outcome) (rr : RoundResult) :
  settle r oc = Ok rr -> rr = settled r oc.
Proof.
  unfold settle, settled. intros Hs.
  apply bind_ok in Hs as (pay & Hpay & [= <-]). f_equal.
  unfold mul64, div64, add64 in Hpay.
  destruct oc; cbn [payout_table]; invert_ok; subst;
    try reflexivity; try lia.
Qed.

Lemma settle_outcome (r : Round G St) (oc : Outcome) (rr : RoundResult) :
  settle r oc = Ok rr ->
  outcome rr = oc
  /\ player_total rr = hard_total (player_ r)
  /\ dealer_total rr = hard_total (dealer_ r).
Proof. intros Hs. rewrite (settle_sound r oc rr Hs). cbn. auto. Qed.

(** C2.  Whenever [settle] returns, its result is the outcome it was
    given, both hard totals, and the payout of the settlement table of the
    specification; and within the contract of the stake and the payout
    ratio it returns. *)
Theorem settle_payout_table (r : Round G St) (oc : Outcome) :
  (forall rr, settle r oc = Ok rr ->
     rr = mkRoundResult oc (hard_total (player_ r)) (hard_total (dealer_ r))
            (payout_table oc (doubled (player_ r)) (bet_ r)
               (blackjack_pays_num (rules_ r))
               (blackjack_pays_den (rules_ r))))
  /\ (settle_in_contract (bet_ r) (blackjack_pays_num (rules_ r))
                         (blackjack_pays_den (rules_ r)) ->
      exists rr, settle r oc = Ok rr).
Proof.
  split.
  - intros rr Hs. exact (settle_sound r oc rr Hs).
  - intros Hc. exists (settled r oc). now apply settle_defined.
Qed.
End Settlement.

Lemma settle_payout_table_witness :
  settle_in_contract 100 3 2
  /\ exists rr, settle (settling 100 3 2 false) PlayerBJ = Ok rr
                /\ payout_cents rr = 250.
Proof.
  assert (Hc : settle_in_contract 100 3 2).
  { unfold settle_in_contract. repeat split; try reflexivity. lia. }
  split; [exact Hc|].
  destruct (settle_payout_table (settling 100 3 2 false) PlayerBJ)
    as [Hsound Hret].
  destruct (Hret Hc) as (rr & Hrr).
  exists rr. split; [exact Hrr|].
  rewrite (Hsound rr Hrr). reflexivity.
Defined.

(** The payouts that the specification lists by value. *)
Example settle_listed_payouts :
  settle (settling 100 3 2 false) Push = Ok (mkRoundResult Push 0 0 100)
  /\ settle (settling 100 3 2 false) PlayerWin
     = Ok (mkRoundResult PlayerWin 0 0 200)
  /\ settle (settling 100 3 2 false) PlayerBJ
     = Ok (mkRoundResult PlayerBJ 0 0 250)
  /\ settle (settling 100 6 5 false) PlayerBJ
     = Ok (mkRoundResult PlayerBJ 0 0 220)
  /\ settle (settling 101 3 2 false) PlayerSurrender
     = Ok (mkRoundResult PlayerSurrender 0 0 50)
  /\ settle (settling 100 3 2 true) DealerWin
     = Ok (mkRoundResult DealerWin 0 0 0)
  /\ settle (settling 100 3 2 true) DealerBust
     = Ok (mkRoundResult DealerBust 0 0 400).
Proof. repeat split; reflexivity. Qed.

(** A sufficient condition for the contract: a non-negative stake, a ratio
    of a non-negative numerator over a positive denominator, and room for
    the largest amount a round can pay. *)
Lemma settle_in_contract_bound (bet num den : Z) :
  0 <= bet -> 0 <= num -> 0 < den ->
  bet * Z.max 4 (num + 1) <= INT64_MAX ->
  settle_in_contract bet num den
  /\ 0 <= Z.quot (bet * num) den <= bet * num.
Proof.
  intros Hb Hn Hd Hmax.
  assert (Hq : 0 <= Z.quot (bet * num) den <= bet * num).
  { split; [apply Z.quot_pos; nia|].
    apply Z.quot_le_upper_bound; nia. }
  assert (H4 : bet * 4 <= INT64_MAX) by nia.
  assert (Hn1 : bet * (num + 1) <= INT64_MAX) by nia.
  split; [|exact Hq].
  unfold settle_in_contract. rewrite !in_int64_iff.
  unfold INT64_MIN, INT64_MAX in *. repeat split; nia.
Qed.

(** ** The shoe *)

Lemma one_deck_length : length one_deck = 52%nat.
Proof. reflexivity. Qed.

Lemma build_decks_length (d : nat) : length (build_decks d) = (52 * d)%nat.
Proof.
  induction d as [|d IH]; [reflexivity|].
  cbn [build_decks]. rewrite length_app, IH, one_deck_length. lia.
Qed.

Lemma skipn_nth_error {A : Type} (l : list A) (n : nat) (x : A) :
  nth_error l n = Some x -> skipn n l = x :: skipn (S n) l.
Proof.
  revert l. induction n as [|n IH]; intros [|y l] Hn; try discriminate.
  - injection Hn as ->. reflexivity.
  - cbn [nth_error] in Hn. cbn [skipn]. now rewrite (IH l Hn).
Qed.

Section ShoeFacts.
Context {G : Type} `{ShuffleEngine G}.

Lemma shuffle_perm (sh : Shoe G) :
  Permutation (cards_ sh) (cards_ (shuffle sh)).
Proof.
  unfold shuffle. pose proof (std_shuffle_perm (cards_ sh) (rng_ sh)) as Hp.
  destruct (std_shuffle (cards_ sh) (rng_ sh)) as [cs g]. exact Hp.
Qed.

Lemma shuffle_length (sh : Shoe G) :
  length (cards_ (shuffle sh)) = length (cards_ sh).
Proof. symmetry. apply Permutation_length, shuffle_perm. Qed.

Lemma shuffle_next (sh : Shoe G) : next_ (shuffle sh) = next_ sh.
Proof.
  unfold shuffle. now destruct (std_shuffle (cards_ sh) (rng_ sh)).
Qed.

Lemma reset_ok (sh sh' : Shoe G) (decks : Z) :
  reset sh decks = Ok sh' ->
  next_ sh' = O
  /\ Permutation (build_decks (Z.to_nat decks)) (cards_ sh')
  /\ Z.of_nat (length (cards_ sh')) = 52 * decks.
Proof.
  unfold reset.
  destruct (in_int (decks * 52)); cbn [negb]; [|discriminate].
  destruct (decks * 52 <? 0) eqn:Hneg; [discriminate|].
  apply Z.ltb_ge in Hneg. intros [= <-]. cbn [next_ cards_].
  split; [reflexivity|].
  set (sh1 := mkShoe _ _ _).
  pose proof (shuffle_perm sh1) as Hp. split; [exact Hp|].
  rewrite shuffle_length. unfold sh1. cbn [cards_].
  rewrite build_decks_length. lia.
Qed.

(** What [draw] does on a shoe that holds cards. *)
Lemma draw_ok (sh : Shoe G) :
  shoe_inv sh -> cards_ sh <> [] ->
  exists c sh',
    draw sh = Ok (c, sh')
    /\ shoe_inv sh'
    /\ length (cards_ sh') = length (cards_ sh)
    /\ ((next_ sh < length (cards_ sh))%nat ->
        nth_error (cards_ sh) (next_ sh) = Some c
        /\ sh' = mkShoe (cards_ sh) (S (next_ sh)) (rng_ sh))
    /\ (next_ sh = length (cards_ sh) ->
        hd_error (fst (std_shuffle (cards_ sh) (rng_ sh))) = Some c
        /\ sh' = mkShoe (fst (std_shuffle (cards_ sh) (rng_ sh))) 1
                        (snd (std_shuffle (cards_ sh) (rng_ sh)))).
Proof.
  intros Hinv Hne. unfold draw, shoe_inv in *.
  assert (Hlen : (0 < length (cards_ sh))%nat).
  { destruct (cards_ sh); [congruence | cbn; lia]. }
  destruct (length (cards_ sh) <=? next_ sh)%nat eqn:E.
  - apply Nat.leb_le in E. cbn [cards_ next_ rng_].
    pose proof (shuffle_length sh) as Hsl. unfold shuffle in *.
    destruct (std_shuffle (cards_ sh) (rng_ sh)) as [cs g].
    cbn [cards_ rng_ fst snd] in *.
    destruct cs as [|c cs]; [cbn in Hsl; lia|].
    exists c, (mkShoe (c :: cs) 1 g). cbn [nth_error cards_ next_].
    repeat split; try reflexivity; try lia.
  - apply Nat.leb_gt in E.
    destruct (nth_error (cards_ sh) (next_ sh)) as [c|] eqn:En.
    + exists c, (mkShoe (cards_ sh) (S (next_ sh)) (rng_ sh)).
      cbn [cards_ next_]. repeat split; try reflexivity; try lia.
    + apply nth_error_None in En. lia.
Qed.

(** An empty shoe cannot be drawn from: the fresh order has no first
    card, and indexing it is undefined. *)
Lemma draw_empty (sh : Shoe G) :
  cards_ sh = [] -> draw sh = Err Undefined.
Proof.
  intros He. unfold draw. rewrite He. cbn [length Nat.leb].
  pose proof (shuffle_length sh) as Hsl. rewrite He in Hsl.
  cbn [cards_ next_].
  destruct (cards_ (shuffle sh)); [reflexivity | discriminate].
Qed.

Lemma remaining_inv (sh : Shoe G) :
  shoe_inv sh -> Z.of_nat (length (cards_ sh)) < SIZE_MOD ->
  remaining sh = Z.of_nat (length (cards_ sh)) - Z.of_nat (next_ sh).
Proof.
  unfold shoe_inv, remaining. intros Hinv Hsz.
  apply Z.mod_small. lia.
Qed.

(** While cards remain, successive draws return them in the order of the
    sequence, with no shuffle in between. *)
Lemma draw_many_in_order (k : nat) :
  forall sh : Shoe G,
    (next_ sh + k <= length (cards_ sh))%nat ->
    draw_many k sh
    = Ok (firstn k (skipn (next_ sh) (cards_ sh)),
          mkShoe (cards_ sh) (next_ sh + k) (rng_ sh)).
Proof.
  induction k as [|k IH]; intros sh Hle.
  - cbn [draw_many firstn]. rewrite Nat.add_0_r. now destruct sh.
  - cbn [draw_many]. unfold draw.
    destruct (length (cards_ sh) <=? next_ sh)%nat eqn:E;
      [apply Nat.leb_le in E; lia|].
    destruct (nth_error (cards_ sh) (next_ sh)) as [c|] eqn:En;
      [|apply nth_error_None in En; lia].
    cbn [bind]. rewrite IH by (cbn [cards_ next_]; lia).
    cbn [bind cards_ next_ rng_].
    rewrite (skipn_nth_error _ _ _ En). cbn [firstn].
    do 3 f_equal. lia.
Qed.

(** C8.  Construction and [reset] establish the invariant with the
    cursor at zero; [shuffle] keeps it; on a shoe that holds cards [draw]
    returns and keeps it, giving the card at the cursor and advancing the
    cursor when cards remain, and otherwise shuffling the whole sequence,
    giving the first card of the new order and leaving the cursor at one,
    so that [remaining] is the size less one; [remaining] is the size
    less the cursor; and as many draws as [remaining] counts return the
    cards from the cursor on, in order, without a shuffle. *)
Theorem shoe_invariant (sh : Shoe G) :
  shoe_inv sh ->
  Z.of_nat (length (cards_ sh)) < SIZE_MOD ->
  (forall decks seed sh0, new_Shoe decks seed = Ok sh0 ->
      shoe_inv sh0 /\ next_ sh0 = O
      /\ Z.of_nat (length (cards_ sh0)) = 52 * decks)
  /\ (forall decks sh0, reset sh decks = Ok sh0 ->
      shoe_inv sh0 /\ next_ sh0 = O
      /\ Z.of_nat (length (cards_ sh0)) = 52 * decks)
  /\ (shoe_inv (shuffle sh)
      /\ length (cards_ (shuffle sh)) = length (cards_ sh))
  /\ remaining sh = Z.of_nat (length (cards_ sh)) - Z.of_nat (next_ sh)
  /\ (forall k : nat,
        Z.of_nat k <= remaining sh ->
        draw_many k sh
        = Ok (firstn k (skipn (next_ sh) (cards_ sh)),
              mkShoe (cards_ sh) (next_ sh + k) (rng_ sh)))
  /\ (cards_ sh <> [] ->
      exists c sh',
        draw sh = Ok (c, sh')
        /\ shoe_inv sh'
        /\ length (cards_ sh') = length (cards_ sh)
        /\ ((next_ sh < length (cards_ sh))%nat ->
            nth_error (cards_ sh) (next_ sh) = Some c
            /\ cards_ sh' = cards_ sh
            /\ next_ sh' = S (next_ sh)
            /\ remaining sh' = remaining sh - 1)
        /\ (next_ sh = length (cards_ sh) ->
            cards_ sh' = fst (std_shuffle (cards_ sh) (rng_ sh))
            /\ hd_error (cards_ sh') = Some c
            /\ next_ sh' = 1%nat
            /\ remaining sh' = Z.of_nat (length (cards_ sh)) - 1)).
Proof.
  intros Hinv Hsz.
  split.
  { intros decks seed sh0 Hnew. unfold new_Shoe in Hnew.
    destruct (reset_ok _ _ _ Hnew) as (Hn & _ & Hl).
    unfold shoe_inv. rewrite Hn. repeat split; [lia|exact Hl]. }
  split.
  { intros decks sh0 Hre.
    destruct (reset_ok _ _ _ Hre) as (Hn & _ & Hl).
    unfold shoe_inv. rewrite Hn. repeat split; [lia|exact Hl]. }
  split.
  { unfold shoe_inv. rewrite shuffle_length, shuffle_next. auto. }
  split; [now apply remaining_inv|].
  split.
  { intros k Hk. rewrite (remaining_inv sh Hinv Hsz) in Hk.
    apply draw_many_in_order. unfold shoe_inv in Hinv. lia. }
  intros Hne.
  destruct (draw_ok sh Hinv Hne) as (c & sh' & Hd & Hinv' & Hlen & Hin & Hend).
  exists c, sh'. split; [exact Hd|]. split; [exact Hinv'|].
  split; [exact Hlen|].
  assert (Hrem' : remaining sh'
                  = Z.of_nat (length (cards_ sh')) - Z.of_nat (next_ sh')).
  { apply remaining_inv; [exact Hinv' | now rewrite Hlen]. }
  split.
  - intros Hlt. destruct (Hin Hlt) as [Hc Hsh'].
    rewrite Hrem', (remaining_inv sh Hinv Hsz). subst sh'.
    cbn [cards_ next_]. repeat split; [exact Hc | lia].
  - intros Heq. destruct (Hend Heq) as [Hc Hsh'].
    rewrite Hrem'. subst sh'. cbn [cards_ next_] in *.
    repeat split; [exact Hc | lia].
Qed.
End ShoeFacts.

Lemma shoe_invariant_witness :
  shoe_inv spent_shoe
  /\ remaining spent_shoe = 0
  /\ exists c sh', draw spent_shoe = Ok (c, sh') /\ remaining sh' = 51.
Proof.
  assert (Hinv : shoe_inv spent_shoe) by (unfold shoe_inv; cbn; lia).
  assert (Hsz : Z.of_nat (length (cards_ spent_shoe)) < SIZE_MOD)
    by (vm_compute; reflexivity).
  pose proof (shoe_invariant spent_shoe Hinv Hsz)
    as (_ & _ & _ & Hrem & _ & Hdraw).
  split; [exact Hinv|]. split; [exact Hrem|].
  destruct (Hdraw ltac:(discriminate)) as (c & sh' & Hd & _ & _ & _ & Hend).
  exists c, sh'. split; [exact Hd|].
  exact (proj2 (proj2 (proj2 (Hend eq_refl)))).
Defined.

(** ** One round *)

Lemma actions_app (xs ys : list Query) :
  actions (xs ++ ys) = actions xs ++ actions ys.
Proof. apply filter_app. Qed.

Lemma Decision_eqb_eq (a b : Decision) : Decision_eqb a b = true <-> a = b.
Proof. destruct a, b; cbn; split; congruence. Qed.

Section RoundFacts.
Context {G : Type} `{ShuffleEngine G}.
Context {St : Type} `{Strategy St}.

Local Abbreviation Round := (Round G St).

Lemma deal_player_ok (r r' : Round) :
  deal_player r = Ok r' ->
  exists c sh,
    draw (shoe_ r) = Ok (c, sh)
    /\ r' = mkRound (rules_ r) sh (strat_ r) (bet_ r)
                    (add (player_ r) c) (dealer_ r) (asked_ r).
Proof.
  unfold deal_player. intros Hb.
  apply bind_ok in Hb as ([c sh] & Hd & [= <-]). eauto.
Qed.

Lemma deal_dealer_ok (r r' : Round) :
  deal_dealer r = Ok r' ->
  exists c sh,
    draw (shoe_ r) = Ok (c, sh)
    /\ r' = mkRound (rules_ r) sh (strat_ r) (bet_ r)
                    (player_ r) (add (dealer_ r) c) (asked_ r).
Proof.
  unfold deal_dealer. intros Hb.
  apply bind_ok in Hb as ([c sh] & Hd & [= <-]). eauto.
Qed.

Lemma ask_ok (k : QueryKind) (r r' : Round) (cd : bool) (d : Decision) :
  ask k r cd = (d, r') ->
  exists st,
    r' = mkRound (rules_ r) (shoe_ r) st (bet_ r) (player_ r) (dealer_ r)
           (asked_ r ++ [mkQuery k (mkSituation (player_ r) (dealer_ r)
                                                (rules_ r) cd) d]).
Proof.
  unfold ask. destruct (decide _ _) as [d' st]. intros [= <- <-]. eauto.
Qed.

(** The player turn keeps the rules, the stake and the dealer hand, only
    appends to the record of queries, and its action queries follow
    [turn_log]. *)
Lemma player_turn_log (fuel : nat) :
  forall (r r' : Round) (cd : bool) (exit : LoopExit),
    player_turn fuel r cd = Ok (exit, r') ->
    rules_ r' = rules_ r /\ bet_ r' = bet_ r /\ dealer_ r' = dealer_ r
    /\ exists new,
         asked_ r' = asked_ r ++ new
         /\ turn_log cd (player_ r) (actions new) exit (player_ r').
Proof.
  induction fuel as [|fuel IH]; intros r r' cd exit Hrun;
    [discriminate|].
  cbn [player_turn] in Hrun.
  (* the offer of surrender *)
  set (offer := if surrender (rules_ r)
                   && (length (cards (player_ r)) =? 2)%nat
                then _ else _) in Hrun.
  assert (Hoffer :
    exists (gave_up : bool) (r0 : Round) (pre : list Query),
      offer = (gave_up, r0)
      /\ rules_ r0 = rules_ r /\ bet_ r0 = bet_ r
      /\ player_ r0 = player_ r /\ dealer_ r0 = dealer_ r
      /\ shoe_ r0 = shoe_ r
      /\ asked_ r0 = asked_ r ++ pre /\ actions pre = []).
  { unfold offer.
    destruct (surrender (rules_ r) && _).
    - destruct (ask SurrenderOffer r cd) as [d0 r0] eqn:Ea.
      destruct (ask_ok _ _ _ _ _ Ea) as (st & ->).
      eexists _, _, _. split; [reflexivity|]. cbn.
      repeat split; reflexivity.
    - exists false, r, []. rewrite app_nil_r. repeat split; reflexivity. }
  destruct Hoffer as (gave_up & r0 & pre & -> & Hr & Hb & Hp & Hd & Hs
                      & Hlog & Hpre).
  destruct gave_up.
  { injection Hrun as <- <-. unfold with_hands. cbn.
    rewrite Hr, Hb, Hd, Hp. repeat split; try reflexivity.
    exists pre. split; [exact Hlog|]. rewrite Hpre. constructor. }
  destruct (ask Action r0 cd) as [d r1] eqn:Ea.
  destruct (ask_ok _ _ _ _ _ Ea) as (st & Hr1). clear Ea.
  set (s := mkSituation (player_ r0) (dealer_ r0) (rules_ r0) cd) in Hr1.
  assert (Hacts : forall more,
             actions (pre ++ mkQuery Action s d :: more)
             = mkQuery Action s d :: actions more).
  { intros more. rewrite actions_app, Hpre. reflexivity. }
  destruct (Decision_eqb d Double && cd) eqn:Edbl.
  { (* a legal double *)
    apply andb_true_iff in Edbl as [Ed ->].
    apply Decision_eqb_eq in Ed. subst d.
    apply bind_ok in Hrun as (r2 & Hdeal & [= <- <-]).
    apply deal_player_ok in Hdeal as (c & sh & _ & ->).
    subst r1. cbn. rewrite Hr, Hb, Hd, Hp, Hlog.
    repeat split; try reflexivity.
    exists (pre ++ [mkQuery Action s Double]).
    split; [now rewrite app_assoc|].
    rewrite Hacts. cbn. constructor; [subst s; cbn; congruence | reflexivity]. }
  destruct (Decision_eqb d Hit) eqn:Ehit.
  { (* a hit *)
    apply Decision_eqb_eq in Ehit. subst d.
    apply bind_ok in Hrun as (r2 & Hdeal & Hrun).
    apply deal_player_ok in Hdeal as (c & sh & _ & Hr2).
    assert (Hp2 : player_ r2 = add (player_ r) c)
      by (subst r2 r1; cbn; congruence).
    assert (Hs_p : player s = player_ r) by (subst s; cbn; congruence).
    assert (Hlog2 : asked_ r2 = asked_ r ++ pre ++ [mkQuery Action s Hit])
      by (subst r2 r1; cbn; rewrite Hlog; now rewrite app_assoc).
    assert (Hframe : rules_ r2 = rules_ r /\ bet_ r2 = bet_ r
                     /\ dealer_ r2 = dealer_ r)
      by (subst r2 r1; cbn; auto).
    destruct Hframe as (Hr2r & Hr2b & Hr2d).
    destruct (is_bust (player_ r2)) eqn:Ebust.
    - injection Hrun as <- <-. repeat split; try assumption.
      exists (pre ++ [mkQuery Action s Hit]). split; [exact Hlog2|].
      rewrite Hacts, Hp2. cbn. rewrite Hp2 in Ebust.
      constructor; auto.
    - apply IH in Hrun as (Hr' & Hb' & Hd' & new & Hlog' & Htl).
      repeat split; try congruence.
      exists (pre ++ mkQuery Action s Hit :: new). split.
      + rewrite Hlog', Hlog2, <- !app_assoc. reflexivity.
      + rewrite Hacts. rewrite Hp2 in Htl, Ebust.
        econstructor; eauto. }
  (* stand, or a double that is not legal *)
  injection Hrun as <- <-. subst r1. cbn. rewrite Hr, Hb, Hd, Hp, Hlog.
  repeat split; try reflexivity.
  exists (pre ++ [mkQuery Action s d]). split; [now rewrite app_assoc|].
  rewrite Hacts. cbn. constructor.
  - subst s; cbn; congruence.
  - reflexivity.
  - intros ->. discriminate.
  - intros ->. cbn in Edbl. exact Edbl.
Qed.
End RoundFacts.

(** What the record of a player turn says about each action query. *)
Lemma turn_log_can_double (cd : bool) (p : Hand) (acts : list Query)
      (exit : LoopExit) (p' : Hand) :
  turn_log cd p acts exit p' ->
  forall (i : nat) (q : Query),
    nth_error acts i = Some q ->
    can_double (q_situation q) = cd && (i =? 0)%nat.
Proof.
  induction 1 as [cd p|p s c Hp Hc|cd p s d Hp Hc Hn Hd|cd p s c Hp Hc Hb
                  |cd p s c rest exit p' Hp Hc Hb Htl IH];
    intros i q Hq.
  - destruct i; discriminate.
  - destruct i as [|[|i]]; try discriminate. injection Hq as <-. cbn.
    now rewrite Hc.
  - destruct i as [|[|i]]; try discriminate. injection Hq as <-. cbn.
    now rewrite Hc, andb_true_r.
  - destruct i as [|[|i]]; try discriminate. injection Hq as <-. cbn.
    now rewrite Hc, andb_true_r.
  - destruct i as [|i].
    + injection Hq as <-. cbn. now rewrite Hc, andb_true_r.
    + cbn in Hq. rewrite (IH i q Hq). cbn. now rewrite andb_false_r.
Qed.

Lemma turn_log_hits (cd : bool) (p : Hand) (acts : list Query)
      (exit : LoopExit) (p' : Hand) :
  turn_log cd p acts exit p' ->
  forall (i : nat) (q : Query),
    nth_error acts i = Some q -> (S i < length acts)%nat ->
    q_answer q = Hit.
Proof.
  induction 1 as [cd p|p s c Hp Hc|cd p s d Hp Hc Hn Hd|cd p s c Hp Hc Hb
                  |cd p s c rest exit p' Hp Hc Hb Htl IH];
    intros i q Hq Hlt; cbn in Hlt; try lia.
  destruct i as [|i].
  - injection Hq as <-. reflexivity.
  - cbn in Hq. apply (IH i q Hq). lia.
Qed.

Lemma turn_log_illegal_double (cd : bool) (p : Hand) (acts : list Query)
      (exit : LoopExit) (p' : Hand) :
  turn_log cd p acts exit p' ->
  forall (i : nat) (q : Query),
    nth_error acts i = Some q ->
    q_answer q = Double -> can_double (q_situation q) = false ->
    S i = length acts /\ exit = Break /\ p' = player (q_situation q).
Proof.
  induction 1 as [cd p|p s c Hp Hc|cd p s d Hp Hc Hn Hd|cd p s c Hp Hc Hb
                  |cd p s c rest exit p' Hp Hc Hb Htl IH];
    intros i q Hq Hans Hcd.
  - destruct i; discriminate.
  - destruct i as [|[|i]]; try discriminate. injection Hq as <-.
    cbn in Hcd. congruence.
  - destruct i as [|[|i]]; try discriminate. injection Hq as <-.
    cbn. auto.
  - destruct i as [|[|i]]; try discriminate. injection Hq as <-.
    discriminate.
  - destruct i as [|i].
    + injection Hq as <-. discriminate.
    + cbn in Hq. destruct (IH i q Hq Hans Hcd) as (Hl & He & Hp').
      cbn. auto.
Qed.

(** A turn that starts on a hand not doubled leaves a doubled hand only
    through a legal Double, the last action, after which one card is
    added and the loop is left by [break]. *)
Lemma turn_log_doubled (cd : bool) (p : Hand) (acts : list Query)
      (exit : LoopExit) (p' : Hand) :
  turn_log cd p acts exit p' ->
  doubled p = false -> doubled p' = true ->
  exit = Break
  /\ exists (front : list Query) (s : Situation) (c : Card),
       acts = front ++ [mkQuery Action s Double]
       /\ can_double s = true
       /\ p' = add (set_doubled (player s)) c.
Proof.
  induction 1 as [cd p|p s c Hp Hc|cd p s d Hp Hc Hn Hd|cd p s c Hp Hc Hb
                  |cd p s c rest exit p' Hp Hc Hb Htl IH];
    intros Hp0 Hp1; cbn in Hp1; try congruence.
  - split; [reflexivity|]. exists [], s, c. subst p. auto.
  - destruct (IH Hp0 Hp1) as (He & front & s' & c' & -> & Hc' & ->).
    split; [exact He|].
    exists (mkQuery Action s Hit :: front), s', c'. auto.
Qed.

Section PlayFacts.
Context {G : Type} `{ShuffleEngine G}.
Context {St : Type} `{Strategy St}.

Local Abbreviation Round := (Round G St).

(** The dealer turn touches the shoe and the dealer hand only, and is
    left on a hard total of 17 or more. *)
Lemma dealer_turn_ok (fuel : nat) :
  forall r r' : Round,
    dealer_turn fuel r = Ok r' ->
    rules_ r' = rules_ r /\ bet_ r' = bet_ r /\ strat_ r' = strat_ r
    /\ player_ r' = player_ r /\ asked_ r' = asked_ r
    /\ 17 <= hard_total (dealer_ r').
Proof.
  induction fuel as [|fuel IH]; intros r r' Hrun; [discriminate|].
  cbn [dealer_turn] in Hrun. rewrite is_soft_never, andb_false_r in Hrun.
  destruct (hard_total (dealer_ r) <? 17) eqn:E.
  - apply bind_ok in Hrun as (r1 & Hdeal & Hrun).
    apply deal_dealer_ok in Hdeal as (c & sh & _ & ->).
    apply IH in Hrun as (? & ? & ? & ? & ? & ?). cbn in *.
    repeat split; assumption.
  - injection Hrun as <-. apply Z.ltb_ge in E.
    repeat split; try reflexivity; assumption.
Qed.

Lemma initial_deal_ok (r r4 : Round) :
  initial_deal r = Ok r4 ->
  exists c1 c2 c3 c4 sh,
    draw_many 4 (shoe_ r) = Ok ([c1; c2; c3; c4], sh)
    /\ r4 = mkRound (rules_ r) sh (strat_ r) (bet_ r)
                    (hand_of [c1; c3]) (hand_of [c2; c4]) (asked_ r).
Proof.
  unfold initial_deal. intros Hrun.
  apply bind_ok in Hrun as (r1 & H1 & Hrun).
  apply bind_ok in Hrun as (r2 & H2 & Hrun).
  apply bind_ok in Hrun as (r3 & H3 & H4).
  apply deal_player_ok in H1 as (c1 & sh1 & Hd1 & ->).
  apply deal_dealer_ok in H2 as (c2 & sh2 & Hd2 & ->).
  apply deal_player_ok in H3 as (c3 & sh3 & Hd3 & ->).
  apply deal_dealer_ok in H4 as (c4 & sh4 & Hd4 & ->).
  cbn in *. exists c1, c2, c3, c4, sh4.
  rewrite Hd1. cbn. rewrite Hd2. cbn. rewrite Hd3. cbn. rewrite Hd4. cbn.
  split; reflexivity.
Qed.

Lemma initial_deal_draws (r : Round) (c1 c2 c3 c4 : Card) (sh : Shoe G) :
  draw_many 4 (shoe_ r) = Ok ([c1; c2; c3; c4], sh) ->
  initial_deal r
  = Ok (mkRound (rules_ r) sh (strat_ r) (bet_ r)
                (hand_of [c1; c3]) (hand_of [c2; c4]) (asked_ r)).
Proof.
  cbn [draw_many]. intros Hrun.
  apply bind_ok in Hrun as ([a1 sh1] & Hd1 & Hrun).
  apply bind_ok in Hrun as ([l1 sh1'] & Hrun & Hl1).
  apply bind_ok in Hrun as ([a2 sh2] & Hd2 & Hrun).
  apply bind_ok in Hrun as ([l2 sh2'] & Hrun & Hl2).
  apply bind_ok in Hrun as ([a3 sh3] & Hd3 & Hrun).
  apply bind_ok in Hrun as ([l3 sh3'] & Hrun & Hl3).
  apply bind_ok in Hrun as ([a4 sh4] & Hd4 & Hrun).
  injection Hrun as <- <-. injection Hl3 as <- <-. injection Hl2 as <- <-.
  injection Hl1 as <- <- <- <- <-.
  unfold initial_deal, deal_player, deal_dealer, with_hands. cbn.
  rewrite Hd1. cbn. rewrite Hd2. cbn. rewrite Hd3. cbn. rewrite Hd4.
  reflexivity.
Qed.

Lemma finish_ok (r r' : Round) (oc : Outcome) (rr : RoundResult) :
  finish r oc = Ok (rr, r') -> r' = r /\ settle r oc = Ok rr.
Proof.
  unfold finish. intros Hrun.
  apply bind_ok in Hrun as (rr' & Hs & [= <- <-]). auto.
Qed.

(** The paths through [play], by the way the round is resolved. *)
Lemma play_cases (r r' : Round) (rr : RoundResult) :
  play r = Ok (rr, r') ->
  exists r4,
    initial_deal r = Ok r4
    /\ ((peek_for_blackjack (rules_ r4) && is_blackjack (dealer_ r4) = true
         /\ r' = r4
         /\ settle r4 (if is_blackjack (player_ r4) then Push else DealerBJ)
            = Ok rr)
        \/ (peek_for_blackjack (rules_ r4) && is_blackjack (dealer_ r4)
            = false
            /\ is_blackjack (player_ r4) = true
            /\ r' = r4 /\ settle r4 PlayerBJ = Ok rr)
        \/ (peek_for_blackjack (rules_ r4) && is_blackjack (dealer_ r4)
            = false
            /\ is_blackjack (player_ r4) = false
            /\ exists exit r5,
                 player_turn loop_fuel r4 (double_allowed (rules_ r4))
                 = Ok (exit, r5)
                 /\ ((exists oc, exit = Return oc /\ r' = r5
                                 /\ settle r5 oc = Ok rr)
                     \/ (exit = Break
                         /\ dealer_turn loop_fuel r5 = Ok r'
                         /\ settle r' (compare_totals (player_ r')
                                                      (dealer_ r'))
                            = Ok rr)))).
Proof.
  unfold play, play_within. intros Hrun.
  apply bind_ok in Hrun as (r4 & Hdeal & Hrun).
  exists r4. split; [exact Hdeal|].
  destruct (peek_for_blackjack (rules_ r4) && is_blackjack (dealer_ r4)).
  { left. split; [reflexivity|].
    destruct (is_blackjack (player_ r4));
      apply finish_ok in Hrun as [-> Hs]; auto. }
  right. destruct (is_blackjack (player_ r4)).
  { left. apply finish_ok in Hrun as [-> Hs]. auto. }
  right. split; [reflexivity|]. split; [reflexivity|].
  apply bind_ok in Hrun as ([exit r5] & Hpt & Hrun).
  exists exit, r5. split; [exact Hpt|].
  destruct exit as [|oc].
  - right. split; [reflexivity|].
    apply bind_ok in Hrun as (r6 & Hdt & Hrun).
    unfold compare_totals.
    destruct (is_bust (dealer_ r6)) eqn:E1;
      [|destruct (hard_total (dealer_ r6) <? hard_total (player_ r6))
          eqn:E2;
        [|destruct (hard_total (player_ r6) <? hard_total (dealer_ r6))
            eqn:E3]];
      apply finish_ok in Hrun as [-> Hs];
      rewrite E1, ?E2, ?E3; auto.
  - left. exists oc. apply finish_ok in Hrun as [-> Hs]. auto.
Qed.
End PlayFacts.

Lemma Card_eqb_eq (a b : Card) : Card_eqb a b = true -> a = b.
Proof.
  destruct a as [ra sa], b as [rb sb]. unfold Card_eqb. cbn [rank suit].
  destruct ra, rb; try discriminate; destruct sa, sb; try discriminate;
    reflexivity.
Qed.

Lemma remove_one_perm (c : Card) (l l' : list Card) :
  remove_one c l = Some l' -> Permutation l (c :: l').
Proof.
  revert l'. induction l as [|x xs IH]; intros l' Hr; [discriminate|].
  cbn [remove_one] in Hr. destruct (Card_eqb c x) eqn:E.
  - apply Card_eqb_eq in E. subst x. injection Hr as <-. reflexivity.
  - destruct (remove_one c xs) as [xs'|]; [|discriminate].
    injection Hr as <-. rewrite (IH xs' eq_refl). apply perm_swap.
Qed.

Lemma same_cards_perm (l1 l2 : list Card) :
  same_cards l1 l2 = true -> Permutation l1 l2.
Proof.
  revert l2. induction l1 as [|c l1 IH]; intros l2 Hs; cbn in Hs.
  - destruct l2; [constructor | discriminate].
  - destruct (remove_one c l2) as [l2'|] eqn:E; [|discriminate].
    rewrite (remove_one_perm _ _ _ E). constructor. now apply IH.
Qed.

(** ** Every round returns *)

Lemma count_aces_app (xs ys : list Card) :
  count_aces (xs ++ ys) = (count_aces xs + count_aces ys)%nat.
Proof.
  induction xs as [|x xs IH]; [reflexivity|].
  cbn [app]. rewrite !count_aces_cons, IH. lia.
Qed.

Lemma min_total_add (h : Hand) (c : Card) :
  min_total h + 1 <= min_total (add h c).
Proof.
  unfold min_total, add. cbn [cards].
  rewrite sum_values_app, count_aces_app, sum_values_cons, count_aces_cons.
  change (sum_values []) with 0. change (count_aces []) with O.
  rewrite (card_value_ace c).
  pose proof (card_value_range (rank c)).
  destruct (is_ace c); lia.
Qed.

Section Totality.
Context {G : Type} `{ShuffleEngine G}.
Context {St : Type} `{Strategy St}.

Local Abbreviation Round := (Round G St).

Lemma draw_total (sh : Shoe G) :
  cards_ sh <> [] ->
  exists c sh',
    draw sh = Ok (c, sh')
    /\ length (cards_ sh') = length (cards_ sh).
Proof.
  intros Hne. unfold draw.
  assert (Hlen : (0 < length (cards_ sh))%nat).
  { destruct (cards_ sh); [congruence | cbn; lia]. }
  destruct (length (cards_ sh) <=? next_ sh)%nat eqn:E.
  - cbn [cards_ next_ rng_].
    pose proof (shuffle_length sh) as Hsl.
    destruct (cards_ (shuffle sh)) as [|c cs] eqn:Ec; [cbn in Hsl; lia|].
    cbn [nth_error]. eexists _, _. split; [reflexivity|].
    cbn [cards_]. exact Hsl.
  - apply Nat.leb_gt in E.
    destruct (nth_error (cards_ sh) (next_ sh)) as [c|] eqn:En.
    + eexists _, _. split; reflexivity.
    + apply nth_error_None in En. lia.
Qed.

Lemma deal_player_total (r : Round) :
  cards_ (shoe_ r) <> [] ->
  exists c sh,
    deal_player r
    = Ok (mkRound (rules_ r) sh (strat_ r) (bet_ r)
                  (add (player_ r) c) (dealer_ r) (asked_ r))
    /\ length (cards_ sh) = length (cards_ (shoe_ r)).
Proof.
  intros Hne. destruct (draw_total _ Hne) as (c & sh & Hd & Hl).
  exists c, sh. unfold deal_player. rewrite Hd. auto.
Qed.

Lemma deal_dealer_total (r : Round) :
  cards_ (shoe_ r) <> [] ->
  exists c sh,
    deal_dealer r
    = Ok (mkRound (rules_ r) sh (strat_ r) (bet_ r)
                  (player_ r) (add (dealer_ r) c) (asked_ r))
    /\ length (cards_ sh) = length (cards_ (shoe_ r)).
Proof.
  intros Hne. destruct (draw_total _ Hne) as (c & sh & Hd & Hl).
  exists c, sh. unfold deal_dealer. rewrite Hd. auto.
Qed.

Lemma nonempty_length (A : Type) (l l' : list A) :
  l <> [] -> length l' = length l -> l' <> [].
Proof. destruct l, l'; cbn; congruence. Qed.

(** Each card raises the least valuation of the player hand, and the
    loop goes round again only on a hand that is not bust: the fuel
    lasts. *)
Lemma player_turn_total (fuel : nat) :
  forall (r : Round) (cd : bool),
    cards_ (shoe_ r) <> [] ->
    (Z.to_nat (22 - min_total (player_ r)) < fuel)%nat ->
    exists exit r',
      player_turn fuel r cd = Ok (exit, r')
      /\ length (cards_ (shoe_ r')) = length (cards_ (shoe_ r)).
Proof.
  induction fuel as [|fuel IH]; intros r cd Hne Hfuel; [lia|].
  cbn [player_turn].
  set (offer := if surrender (rules_ r)
                   && (length (cards (player_ r)) =? 2)%nat
                then _ else _).
  assert (Hoffer :
    exists (gave_up : bool) (r0 : Round),
      offer = (gave_up, r0)
      /\ player_ r0 = player_ r /\ shoe_ r0 = shoe_ r).
  { unfold offer. destruct (surrender (rules_ r) && _).
    - destruct (ask SurrenderOffer r cd) as [d0 r0] eqn:Ea.
      destruct (ask_ok _ _ _ _ _ Ea) as (st & ->).
      eexists _, _. split; [reflexivity|]. split; reflexivity.
    - exists false, r. auto. }
  destruct Hoffer as (gave_up & r0 & -> & Hp0 & Hs0).
  destruct gave_up.
  { eexists _, _. split; [reflexivity|]. cbn. now rewrite Hs0. }
  destruct (ask Action r0 cd) as [d r1] eqn:Ea.
  destruct (ask_ok _ _ _ _ _ Ea) as (st & Hr1). clear Ea.
  assert (Hp1 : player_ r1 = player_ r) by (subst r1; cbn; congruence).
  assert (Hs1 : shoe_ r1 = shoe_ r) by (subst r1; cbn; congruence).
  clear Hr1.
  destruct (Decision_eqb d Double && cd).
  { destruct (deal_player_total
                (with_hands r1 (set_doubled (player_ r1)) (dealer_ r1)))
      as (c & sh & -> & Hl).
    { cbn. now rewrite Hs1. }
    cbn [bind]. eexists _, _. split; [reflexivity|].
    cbn in *. now rewrite Hl, Hs1. }
  destruct (Decision_eqb d Hit).
  2: { eexists _, _. split; [reflexivity|]. now rewrite Hs1. }
  destruct (deal_player_total r1) as (c & sh & -> & Hl);
    [now rewrite Hs1|].
  cbn [bind player_]. rewrite Hs1 in Hl.
  destruct (is_bust (add (player_ r1) c)) eqn:Eb.
  { eexists _, _. split; [reflexivity|]. exact Hl. }
  apply Z.ltb_ge in Eb.
  pose proof (hard_total_ge_min (add (player_ r1) c)) as Hge.
  pose proof (min_total_add (player_ r1) c) as Hadd.
  rewrite Hp1 in *.
  edestruct IH as (exit & r' & Hrun & Hl').
  3: { exists exit, r'. split; [exact Hrun|]. cbn in Hl'. congruence. }
  - cbn. now apply (nonempty_length _ (cards_ (shoe_ r))).
  - cbn [player_ dealer_]. lia.
Qed.

(** The same for the dealer, who draws on 17 at most. *)
Lemma dealer_turn_total (fuel : nat) :
  forall r : Round,
    cards_ (shoe_ r) <> [] ->
    (Z.to_nat (18 - min_total (dealer_ r)) < fuel)%nat ->
    exists r',
      dealer_turn fuel r = Ok r'
      /\ length (cards_ (shoe_ r')) = length (cards_ (shoe_ r)).
Proof.
  induction fuel as [|fuel IH]; intros r Hne Hfuel; [lia|].
  cbn [dealer_turn].
  pose proof (hard_total_ge_min (dealer_ r)) as Hge.
  assert (Hstep : hard_total (dealer_ r) <= 17 ->
                  exists r', (r1 <- deal_dealer r ;; dealer_turn fuel r1)
                             = Ok r'
                             /\ length (cards_ (shoe_ r'))
                                = length (cards_ (shoe_ r))).
  { intros Hle.
    destruct (deal_dealer_total r Hne) as (c & sh & -> & Hl).
    cbn [bind].
    pose proof (min_total_add (dealer_ r) c) as Hadd.
    edestruct IH as (r' & Hrun & Hl').
    3: { exists r'. split; [exact Hrun|]. cbn in Hl'. congruence. }
    - cbn. now apply (nonempty_length _ (cards_ (shoe_ r))).
    - cbn [player_ dealer_]. lia. }
  destruct (hard_total (dealer_ r) <? 17) eqn:E.
  { apply Z.ltb_lt in E. apply Hstep. lia. }
  destruct ((hard_total (dealer_ r) =? 17)
            && dealer_hits_soft17 (rules_ r) && is_soft (dealer_ r))
    eqn:E17.
  { apply andb_true_iff in E17 as [E17 _].
    apply andb_true_iff in E17 as [E17 _].
    apply Z.eqb_eq in E17. apply Hstep. lia. }
  exists r. auto.
Qed.

Lemma initial_deal_total (r : Round) :
  cards_ (shoe_ r) <> [] ->
  exists r4,
    initial_deal r = Ok r4
    /\ length (cards_ (shoe_ r4)) = length (cards_ (shoe_ r))
    /\ length (cards (player_ r4)) = 2%nat
    /\ length (cards (dealer_ r4)) = 2%nat.
Proof.
  intros Hne. unfold initial_deal.
  destruct (deal_player_total (with_hands r empty_hand empty_hand))
    as (c1 & sh1 & -> & Hl1); [exact Hne|]. cbn [bind].
  cbn in Hl1.
  edestruct deal_dealer_total as (c2 & sh2 & -> & Hl2);
    [cbn; now apply (nonempty_length _ (cards_ (shoe_ r)))|].
  cbn [bind]. cbn in Hl2.
  edestruct deal_player_total as (c3 & sh3 & -> & Hl3);
    [cbn; apply (nonempty_length _ (cards_ (shoe_ r))); congruence|].
  cbn [bind]. cbn in Hl3.
  edestruct deal_dealer_total as (c4 & sh4 & -> & Hl4);
    [cbn; apply (nonempty_length _ (cards_ (shoe_ r))); congruence|].
  cbn in Hl4. eexists. split; [reflexivity|]. cbn.
  repeat split; congruence.
Qed.
End Totality.

Lemma min_total_nonneg (h : Hand) : 0 <= min_total h.
Proof.
  unfold min_total. induction (cards h) as [|c cs IH]; [cbn; lia|].
  rewrite sum_values_cons, count_aces_cons, (card_value_ace c).
  pose proof (card_value_range (rank c)).
  destruct (is_ace c); lia.
Qed.

Section PlayReturns.
Context {G : Type} `{ShuffleEngine G}.
Context {St : Type} `{Strategy St}.

Local Abbreviation Round := (Round G St).

(** A round keeps its rules and its stake, and its result is a
    settlement of the state it ends in. *)
Lemma play_frame (r r' : Round) (rr : RoundResult) :
  play r = Ok (rr, r') ->
  rules_ r' = rules_ r /\ bet_ r' = bet_ r
  /\ exists oc, settle r' oc = Ok rr.
Proof.
  intros Hplay.
  destruct (play_cases r r' rr Hplay) as (r4 & Hdeal & Hcases).
  destruct (initial_deal_ok r r4 Hdeal)
    as (c1 & c2 & c3 & c4 & sh & _ & Hr4).
  assert (Hrl4 : rules_ r4 = rules_ r) by (subst r4; reflexivity).
  assert (Hb4 : bet_ r4 = bet_ r) by (subst r4; reflexivity).
  destruct Hcases as [(_ & -> & Hs)|[(_ & _ & -> & Hs)|Hturn]]; eauto.
  destruct Hturn as (_ & _ & exit & r5 & Hpt & Hend).
  destruct (player_turn_log _ _ _ _ _ Hpt) as (Hrl5 & Hb5 & _).
  destruct Hend as [(oc & -> & -> & Hs)|(-> & Hdt & Hs)].
  - split; [congruence|]. split; [congruence|]. eauto.
  - destruct (dealer_turn_ok _ _ _ Hdt) as (Hrl' & Hb' & _).
    split; [congruence|]. split; [congruence|]. eauto.
Qed.

Lemma finish_total (r : Round) (oc : Outcome) :
  settle_in_contract (bet_ r) (blackjack_pays_num (rules_ r))
                     (blackjack_pays_den (rules_ r)) ->
  exists rr, finish r oc = Ok (rr, r).
Proof.
  intros Hc. unfold finish. rewrite (settle_defined r oc Hc).
  cbn [bind]. eauto.
Qed.

(** On a shoe that holds cards and within the contract of the stake,
    [play] returns: neither loop runs out of fuel, no draw fails and the
    settlement is defined.  The shoe keeps its size and the payout is
    that of the settlement table. *)
Lemma play_total (r : Round) :
  cards_ (shoe_ r) <> [] ->
  settle_in_contract (bet_ r) (blackjack_pays_num (rules_ r))
                     (blackjack_pays_den (rules_ r)) ->
  exists rr r',
    play r = Ok (rr, r')
    /\ length (cards_ (shoe_ r')) = length (cards_ (shoe_ r))
    /\ payout_cents rr
       = payout_table (outcome rr) (doubled (player_ r')) (bet_ r)
           (blackjack_pays_num (rules_ r)) (blackjack_pays_den (rules_ r)).
Proof.
  intros Hne Hc.
  assert (Hret : exists rr r',
             play r = Ok (rr, r')
             /\ length (cards_ (shoe_ r')) = length (cards_ (shoe_ r))).
  { unfold play, play_within.
    destruct (initial_deal_total r Hne) as (r4 & Hdeal & Hl4 & _).
    rewrite Hdeal. cbn [bind].
    destruct (initial_deal_ok r r4 Hdeal)
      as (c1 & c2 & c3 & c4 & sh & _ & Hr4).
    assert (Hc4 : settle_in_contract (bet_ r4)
                    (blackjack_pays_num (rules_ r4))
                    (blackjack_pays_den (rules_ r4)))
      by (subst r4; exact Hc).
    clear Hr4.
    assert (Hne4 : cards_ (shoe_ r4) <> [])
      by now apply (nonempty_length _ (cards_ (shoe_ r))).
    destruct (peek_for_blackjack (rules_ r4) && is_blackjack (dealer_ r4)).
    { destruct (is_blackjack (player_ r4));
        [destruct (finish_total r4 Push Hc4) as (rr & ->)
        |destruct (finish_total r4 DealerBJ Hc4) as (rr & ->)]; eauto. }
    destruct (is_blackjack (player_ r4)).
    { destruct (finish_total r4 PlayerBJ Hc4) as (rr & ->). eauto. }
    destruct (player_turn_total loop_fuel r4 (double_allowed (rules_ r4))
                                Hne4) as (exit & r5 & Hpt & Hl5).
    { pose proof (min_total_nonneg (player_ r4)). unfold loop_fuel. lia. }
    rewrite Hpt. cbn [bind].
    destruct (player_turn_log _ _ _ _ _ Hpt) as (Hrl5 & Hb5 & _).
    assert (Hc5 : settle_in_contract (bet_ r5)
                    (blackjack_pays_num (rules_ r5))
                    (blackjack_pays_den (rules_ r5)))
      by (rewrite Hrl5, Hb5; exact Hc4).
    destruct exit as [|oc].
    2: { destruct (finish_total r5 oc Hc5) as (rr & ->).
         exists rr, r5. split; [reflexivity | congruence]. }
    destruct (dealer_turn_total loop_fuel r5) as (r6 & Hdt & Hl6).
    { apply (nonempty_length _ (cards_ (shoe_ r4))); assumption. }
    { pose proof (min_total_nonneg (dealer_ r5)). unfold loop_fuel. lia. }
    rewrite Hdt. cbn [bind].
    destruct (dealer_turn_ok _ _ _ Hdt) as (Hrl6 & Hb6 & _).
    assert (Hc6 : settle_in_contract (bet_ r6)
                    (blackjack_pays_num (rules_ r6))
                    (blackjack_pays_den (rules_ r6)))
      by (rewrite Hrl6, Hb6; exact Hc5).
    assert (Hfin : forall oc, exists rr,
                 finish r6 oc = Ok (rr, r6)
                 /\ length (cards_ (shoe_ r6)) = length (cards_ (shoe_ r))).
    { intros oc. destruct (finish_total r6 oc Hc6) as (rr & ->).
      exists rr. split; [reflexivity | congruence]. }
    destruct (is_bust (dealer_ r6));
      [|destruct (_ <? _); [|destruct (_ <? _)]];
      match goal with
      | |- context [finish r6 ?oc] =>
          destruct (Hfin oc) as (rr & -> & Hl); eauto
      end. }
  destruct Hret as (rr & r' & Hplay & Hl).
  exists rr, r'. split; [exact Hplay|]. split; [exact Hl|].
  destruct (play_frame r r' rr Hplay) as (Hrl & Hb & oc & Hs).
  rewrite <- Hrl, <- Hb in Hc.
  rewrite (settle_defined r' oc Hc) in Hs.
  injection Hs as <-. cbn. now rewrite Hrl, Hb.
Qed.

Lemma draw_fault (sh : Shoe G) (e : fault) :
  draw sh = Err e -> e = Undefined.
Proof.
  unfold draw. destruct (nth_error _ _); [discriminate | congruence].
Qed.

Lemma draw_nonempty (sh sh' : Shoe G) (c : Card) :
  draw sh = Ok (c, sh') -> cards_ sh' <> [].
Proof.
  intros Hd. destruct (cards_ sh) as [|x xs] eqn:Ec.
  - rewrite (draw_empty sh Ec) in Hd. discriminate.
  - destruct (draw_total sh) as (c0 & sh0 & Hd0 & Hl);
      [rewrite Ec; discriminate|].
    rewrite Hd in Hd0. injection Hd0 as <- <-.
    apply (nonempty_length _ (cards_ sh)); [rewrite Ec; discriminate|].
    exact Hl.
Qed.

Lemma initial_deal_fault (r : Round) (e : fault) :
  initial_deal r = Err e -> e = Undefined.
Proof.
  unfold initial_deal, deal_player, deal_dealer.
  repeat match goal with
         | |- context [draw ?sh] =>
             let E := fresh "E" in
             destruct (draw sh) as [[? ?]|?] eqn:E; cbn;
             [|apply draw_fault in E; congruence]
         end.
  discriminate.
Qed.

Lemma initial_deal_nonempty (r r4 : Round) :
  initial_deal r = Ok r4 -> cards_ (shoe_ r4) <> [].
Proof.
  unfold initial_deal. intros Hrun.
  apply bind_ok in Hrun as (r1 & _ & Hrun).
  apply bind_ok in Hrun as (r2 & _ & Hrun).
  apply bind_ok in Hrun as (r3 & _ & H4).
  apply deal_dealer_ok in H4 as (c4 & sh4 & Hd4 & ->).
  cbn. exact (draw_nonempty _ _ _ Hd4).
Qed.

Lemma finish_fault (r : Round) (oc : Outcome) (e : fault) :
  finish r oc = Err e -> e = Undefined.
Proof.
  unfold finish, settle, mul64, div64, add64, i64.
  destruct oc; cbn [bind];
    repeat match goal with
           | |- context [if ?b then _ else _] => destruct b; cbn [bind]
           end; congruence.
Qed.

(** The bound of the loops is never what ends a round. *)
Lemma play_never_out_of_fuel (r : Round) : play r <> Err OutOfFuel.
Proof.
  unfold play, play_within.
  destruct (initial_deal r) as [r4|e] eqn:Hdeal; cbn [bind].
  2: { apply initial_deal_fault in Hdeal. congruence. }
  assert (Hfin : forall (x : Round) oc, finish x oc <> Err OutOfFuel).
  { intros x oc Hf. apply finish_fault in Hf. discriminate. }
  destruct (peek_for_blackjack (rules_ r4) && is_blackjack (dealer_ r4)).
  { destruct (is_blackjack (player_ r4)); apply Hfin. }
  destruct (is_blackjack (player_ r4)); [apply Hfin|].
  pose proof (initial_deal_nonempty r r4 Hdeal) as Hne4.
  destruct (player_turn_total loop_fuel r4 (double_allowed (rules_ r4))
                              Hne4) as (exit & r5 & Hpt & Hl5).
  { pose proof (min_total_nonneg (player_ r4)). unfold loop_fuel. lia. }
  rewrite Hpt. cbn [bind].
  destruct exit as [|oc]; [|apply Hfin].
  destruct (dealer_turn_total loop_fuel r5) as (r6 & Hdt & Hl6).
  { apply (nonempty_length _ (cards_ (shoe_ r4))); assumption. }
  { pose proof (min_total_nonneg (dealer_ r5)). unfold loop_fuel. lia. }
  rewrite Hdt. cbn [bind].
  destruct (is_bust (dealer_ r6));
    [|destruct (_ <? _); [|destruct (_ <? _)]]; apply Hfin.
Qed.
End PlayReturns.

(** ** The runs of the player loop *)

Section TurnRuns.
Context {G : Type} `{ShuffleEngine G}.
Context {St : Type} `{Strategy St}.

Local Abbreviation Round := (Round G St).

Lemma ask_inv (k : QueryKind) (r r' : Round) (cd : bool) (d : Decision) :
  ask k r cd = (d, r') ->
  exists st,
    decide (strat_ r) (mkSituation (player_ r) (dealer_ r) (rules_ r) cd)
    = (d, st)
    /\ r' = mkRound (rules_ r) (shoe_ r) st (bet_ r) (player_ r) (dealer_ r)
              (asked_ r ++ [mkQuery k (mkSituation (player_ r) (dealer_ r)
                                                   (rules_ r) cd) d]).
Proof.
  unfold ask. destruct (decide _ _) as [d' st] eqn:E. intros [= <- <-].
  eauto.
Qed.

(** The offer of surrender touches the strategy object and the record of
    queries only; it is made on a two-card hand under rules that allow
    surrender, and taken when the strategy answers Surrender. *)
Lemma offer_step_inv (r r0 : Round) (cd gave_up : bool) :
  offer_step r cd = (gave_up, r0) ->
  rules_ r0 = rules_ r /\ shoe_ r0 = shoe_ r /\ bet_ r0 = bet_ r
  /\ player_ r0 = player_ r /\ dealer_ r0 = dealer_ r
  /\ ((r0 = r /\ gave_up = false
       /\ surrender (rules_ r) && (length (cards (player_ r)) =? 2)%nat
          = false)
      \/ (surrender (rules_ r) = true
          /\ length (cards (player_ r)) = 2%nat
          /\ exists d0 st,
               decide (strat_ r)
                      (mkSituation (player_ r) (dealer_ r) (rules_ r) cd)
               = (d0, st)
               /\ gave_up = Decision_eqb d0 Surrender
               /\ strat_ r0 = st
               /\ asked_ r0
                  = asked_ r
                    ++ [mkQuery SurrenderOffer
                          (mkSituation (player_ r) (dealer_ r) (rules_ r) cd)
                          d0])).
Proof.
  unfold offer_step.
  destruct (surrender (rules_ r) && (length (cards (player_ r)) =? 2)%nat)
    eqn:E.
  - destruct (ask SurrenderOffer r cd) as [d0 r1] eqn:Ea.
    intros [= <- <-]. destruct (ask_inv _ _ _ _ _ Ea) as (st & Hd & ->).
    cbn. repeat split; try reflexivity. right.
    apply andb_true_iff in E as [Es El]. apply Nat.eqb_eq in El.
    split; [exact Es|]. split; [exact El|].
    exists d0, st. repeat split; auto.
  - intros [= <- <-]. repeat split; try reflexivity. left. auto.
Qed.

Lemma player_turn_run (fuel : nat) :
  forall (r r' : Round) (cd : bool) (exit : LoopExit),
    player_turn fuel r cd = Ok (exit, r') -> turn_run r cd exit r'.
Proof.
  induction fuel as [|fuel IH]; intros r r' cd exit Hrun; [discriminate|].
  cbn [player_turn] in Hrun. fold (offer_step r cd) in Hrun.
  destruct (offer_step r cd) as [gave_up r0] eqn:Eo.
  destruct gave_up.
  { injection Hrun as <- <-. now apply TR_surrender. }
  destruct (ask Action r0 cd) as [d r1] eqn:Ea.
  destruct (Decision_eqb d Double && cd) eqn:Edbl.
  { apply andb_true_iff in Edbl as [Ed ->].
    apply Decision_eqb_eq in Ed. subst d.
    apply bind_ok in Hrun as (r2 & Hdeal & [= <- <-]).
    eapply TR_double; eassumption. }
  destruct (Decision_eqb d Hit) eqn:Ehit.
  { apply Decision_eqb_eq in Ehit. subst d.
    apply bind_ok in Hrun as (r2 & Hdeal & Hrun).
    destruct (is_bust (player_ r2)) eqn:Eb.
    - injection Hrun as <- <-. eapply TR_bust; eassumption.
    - eapply TR_hit; eauto. }
  injection Hrun as <- <-. eapply TR_stand; try eassumption.
  - intros ->. discriminate.
  - intros ->. exact Edbl.
Qed.

Lemma draw_many_app (a b : nat) :
  forall (sh sh1 sh2 : Shoe G) (xs ys : list Card),
    draw_many a sh = Ok (xs, sh1) ->
    draw_many b sh1 = Ok (ys, sh2) ->
    draw_many (a + b) sh = Ok (xs ++ ys, sh2).
Proof.
  induction a as [|a IH]; intros sh sh1 sh2 xs ys Ha Hb.
  - injection Ha as <- <-. exact Hb.
  - cbn [draw_many Nat.add] in Ha |- *.
    apply bind_ok in Ha as ([c sh'] & Hd & Ha).
    apply bind_ok in Ha as ([cs sh''] & Hm & [= <- <-]).
    rewrite Hd. cbn [bind]. rewrite (IH _ _ _ _ _ Hm Hb). reflexivity.
Qed.

(** The queries an offer of surrender records are not action queries. *)
Lemma offer_step_log (r r0 : Round) (cd gave_up : bool) :
  offer_step r cd = (gave_up, r0) ->
  exists pre : list Query, asked_ r0 = asked_ r ++ pre /\ actions pre = [].
Proof.
  intros Ho.
  destruct (offer_step_inv _ _ _ _ Ho)
    as (_ & _ & _ & _ & _ & [(-> & _)|(_ & _ & d0 & st & _ & _ & _ & Hl)]).
  - exists []. now rewrite app_nil_r.
  - eexists. split; [exact Hl | reflexivity].
Qed.

(** A Double answered where doubling is not legal ends the turn by
    [break], as Stand does.  The queries before it were answered Hit, and
    the turn has drawn one card for each of them and none since: the cards
    drawn are in the hand the query showed, and the turn leaves the hands
    as the query showed them and the shoe as those draws left it. *)
Lemma turn_run_illegal_double (r r5 : Round) (cd : bool) (exit : LoopExit) :
  turn_run r cd exit r5 ->
  exists new : list Query,
    asked_ r5 = asked_ r ++ new
    /\ forall (i : nat) (q : Query),
         nth_error (actions new) i = Some q ->
         q_answer q = Double -> can_double (q_situation q) = false ->
         exit = Break
         /\ exists hits : list Card,
              length hits = i
              /\ draw_many i (shoe_ r) = Ok (hits, shoe_ r5)
              /\ cards (player_ r5) = cards (player_ r) ++ hits
              /\ player_ r5 = player (q_situation q)
              /\ dealer_ r5 = dealer (q_situation q)
              /\ dealer_ r5 = dealer_ r.
Proof.
  induction 1 as [r r0 cd Ho|r r0 r1 r2 Ho Ha Hd|r r0 r1 cd d Ho Ha Hn Hl
                  |r r0 r1 r2 cd Ho Ha Hd Hb
                  |r r0 r1 r2 r' cd exit Ho Ha Hd Hb Hrun IH].
  - destruct (offer_step_log _ _ _ _ Ho) as (pre & Hlog & Hpre).
    exists pre. split; [exact Hlog|].
    intros i q Hq. rewrite Hpre in Hq. destruct i; discriminate.
  - destruct (offer_step_log _ _ _ _ Ho) as (pre & Hlog & Hpre).
    destruct (ask_inv _ _ _ _ _ Ha) as (st & _ & Hr1).
    apply deal_player_ok in Hd as (c & sh & _ & Hr2).
    eexists (pre ++ [_]). split.
    { rewrite Hr2. cbn [asked_ with_hands]. rewrite Hr1. cbn [asked_].
      rewrite Hlog, <- app_assoc. reflexivity. }
    intros i q Hq Hans Hcd. unfold actions in Hq, Hpre.
    rewrite filter_app, Hpre in Hq. cbn in Hq.
    destruct i as [|[|i]]; try discriminate.
    injection Hq as <-. discriminate.
  - destruct (offer_step_log _ _ _ _ Ho) as (pre & Hlog & Hpre).
    destruct (offer_step_inv _ _ _ _ Ho) as (_ & Hs0 & _ & Hp0 & Hd0 & _).
    destruct (ask_inv _ _ _ _ _ Ha) as (st & _ & Hr1).
    eexists (pre ++ [_]). split.
    { rewrite Hr1. cbn [asked_]. rewrite Hlog, <- app_assoc. reflexivity. }
    intros i q Hq Hans Hcd. unfold actions in Hq, Hpre.
    rewrite filter_app, Hpre in Hq. cbn in Hq.
    destruct i as [|[|i]]; try discriminate.
    injection Hq as <-. split; [reflexivity|].
    exists []. rewrite Hr1. cbn. rewrite app_nil_r, Hs0, Hd0.
    repeat split; reflexivity || (now rewrite Hp0).
  - destruct (offer_step_log _ _ _ _ Ho) as (pre & Hlog & Hpre).
    destruct (ask_inv _ _ _ _ _ Ha) as (st & _ & Hr1).
    apply deal_player_ok in Hd as (c & sh & _ & Hr2).
    eexists (pre ++ [_]). split.
    { rewrite Hr2. cbn [asked_]. rewrite Hr1. cbn [asked_].
      rewrite Hlog, <- app_assoc. reflexivity. }
    intros i q Hq Hans Hcd. unfold actions in Hq, Hpre.
    rewrite filter_app, Hpre in Hq. cbn in Hq.
    destruct i as [|[|i]]; try discriminate.
    injection Hq as <-. discriminate.
  - destruct (offer_step_log _ _ _ _ Ho) as (pre & Hlog & Hpre).
    destruct (offer_step_inv _ _ _ _ Ho) as (_ & Hs0 & _ & Hp0 & Hd0 & _).
    destruct (ask_inv _ _ _ _ _ Ha) as (st & _ & Hr1).
    apply deal_player_ok in Hd as (c & sh & Hdraw & Hr2).
    destruct IH as (new2 & Hlog2 & IH).
    eexists (pre ++ _ :: new2). split.
    { rewrite Hlog2, Hr2. cbn [asked_]. rewrite Hr1. cbn [asked_].
      rewrite Hlog, <- !app_assoc. reflexivity. }
    intros i q Hq Hans Hcd. unfold actions in Hq, Hpre.
    rewrite filter_app, Hpre in Hq. cbn in Hq.
    destruct i as [|i]; [injection Hq as <-; discriminate|].
    cbn [nth_error] in Hq.
    destruct (IH i q Hq Hans Hcd)
      as (He & hits & Hlen & Hdm & Hcs & Hp5 & Hd5 & Hdd).
    split; [exact He|]. exists (c :: hits).
    assert (Hsh : shoe_ r1 = shoe_ r)
      by (rewrite Hr1; cbn [shoe_]; exact Hs0).
    assert (Hpl : player_ r1 = player_ r)
      by (rewrite Hr1; cbn [player_]; exact Hp0).
    assert (Hdl : dealer_ r1 = dealer_ r)
      by (rewrite Hr1; cbn [dealer_]; exact Hd0).
    rewrite Hr2 in Hdm, Hcs, Hdd. cbn [shoe_ player_ dealer_] in Hdm, Hcs, Hdd.
    split; [cbn [length]; now rewrite Hlen|].
    split.
    { cbn [draw_many]. rewrite <- Hsh, Hdraw. cbn [bind]. rewrite Hdm.
      reflexivity. }
    split.
    { rewrite Hcs. unfold add. cbn [cards]. rewrite Hpl, <- app_assoc.
      reflexivity. }
    split; [exact Hp5|]. split; [exact Hd5|]. now rewrite Hdd.
Qed.
End TurnRuns.

(** ** The claims about one round *)

Section RoundTheorems.
Context {G : Type} `{ShuffleEngine G}.
Context {St : Type} `{Strategy St}.

Local Abbreviation Round := (Round G St).

(** C3.  Let the four initial draws give the player [c1] and [c3] and the
    dealer [c2] and [c4].  With the peek enabled and a dealer blackjack
    the round is settled at once, as Push when the player has a blackjack
    too and as DealerBJ otherwise; with the peek disabled or no dealer
    blackjack, a player blackjack is settled at once as PlayerBJ.  In
    each case the round ends in the state the deal left, with the record
    of queries and the strategy object as they were: no decision was
    asked for.  The settlement returns, with that outcome: always for
    Push and DealerBJ, and within the contract of the stake for
    PlayerBJ. *)
Theorem play_blackjack_resolution
        (r : Round) (c1 c2 c3 c4 : Card) (sh : Shoe G) :
  draw_many 4 (shoe_ r) = Ok ([c1; c2; c3; c4], sh) ->
  let p := hand_of [c1; c3] in
  let d := hand_of [c2; c4] in
  let r4 := mkRound (rules_ r) sh (strat_ r) (bet_ r) p d (asked_ r) in
  forall oc : Outcome,
    (peek_for_blackjack (rules_ r) = true /\ is_blackjack d = true
     /\ oc = (if is_blackjack p then Push else DealerBJ))
    \/ ((peek_for_blackjack (rules_ r) = false \/ is_blackjack d = false)
        /\ is_blackjack p = true /\ oc = PlayerBJ) ->
    play r = finish r4 oc
    /\ (oc <> PlayerBJ
        \/ settle_in_contract (bet_ r) (blackjack_pays_num (rules_ r))
                              (blackjack_pays_den (rules_ r)) ->
        exists rr, play r = Ok (rr, r4) /\ outcome rr = oc).
Proof.
  intros Hdraw p d r4 oc Hcase.
  assert (Hplay : play r = finish r4 oc).
  { unfold play, play_within.
    rewrite (initial_deal_draws r c1 c2 c3 c4 sh Hdraw). cbn [bind].
    fold p d r4. cbn [rules_ dealer_ player_ r4].
    destruct Hcase as [(Hpeek & Hd & ->)|(Hno & Hp & ->)].
    - rewrite Hpeek, Hd. cbn [andb]. now destruct (is_blackjack p).
    - replace (peek_for_blackjack (rules_ r) && is_blackjack d)
        with false.
      + now rewrite Hp.
      + destruct Hno as [-> | ->]; [reflexivity|].
        now rewrite andb_false_r. }
  split; [exact Hplay|].
  intros Hret. rewrite Hplay. unfold finish.
  destruct Hcase as [(_ & _ & ->)|(_ & _ & ->)].
  - destruct (is_blackjack p); cbn; eexists; split; reflexivity.
  - destruct Hret as [Hne|Hc]; [congruence|].
    rewrite (settle_defined r4 PlayerBJ Hc). cbn [bind].
    eexists. split; reflexivity.
Qed.

(** C6.  The loops of a round end within their bound.  Of the action
    queries of a round, in order: the situation of query [i] reports
    doubling as legal exactly when the rules allow doubling and the query
    is the first; every query but the last was answered Hit; and a Double
    answered where doubling is not legal is the last action, after which
    the player hand is the one the query showed, with no card added and
    not marked doubled.  Such a Double, at query [i], goes the way of
    Stand: the player turn ends there, by [break], with the shoe as the
    four draws of the deal and the [i] draws of the Hits before it left
    it, all of whose cards are in the two hands the query showed; the
    dealer turn is played from that state, and the round is settled on
    the comparison of the totals. *)
Theorem double_legal_on_first_action_only (r : Round) :
  play r <> Err OutOfFuel
  /\ forall (rr : RoundResult) (r' : Round),
      play r = Ok (rr, r') ->
      exists new : list Query,
        asked_ r' = asked_ r ++ new
        /\ (forall (i : nat) (q : Query),
              nth_error (actions new) i = Some q ->
              can_double (q_situation q)
              = double_allowed (rules_ r) && (i =? 0)%nat)
        /\ (forall (i : nat) (q : Query),
              nth_error (actions new) i = Some q ->
              (S i < length (actions new))%nat ->
              q_answer q = Hit)
        /\ (forall (i : nat) (q : Query),
              nth_error (actions new) i = Some q ->
              q_answer q = Double ->
              can_double (q_situation q) = false ->
              S i = length (actions new)
              /\ player_ r' = player (q_situation q)
              /\ doubled (player_ r') = false
              /\ exists (r5 : Round) (c1 c2 c3 c4 : Card)
                        (hits : list Card),
                   length hits = i
                   /\ draw_many (4 + i) (shoe_ r)
                      = Ok ([c1; c2; c3; c4] ++ hits, shoe_ r5)
                   /\ cards (player (q_situation q)) = [c1; c3] ++ hits
                   /\ cards (dealer (q_situation q)) = [c2; c4]
                   /\ player_ r5 = player (q_situation q)
                   /\ dealer_ r5 = dealer (q_situation q)
                   /\ dealer_turn loop_fuel r5 = Ok r'
                   /\ outcome rr = compare_totals (player_ r') (dealer_ r')
                   /\ settle r' (outcome rr) = Ok rr).
Proof.
  split; [apply play_never_out_of_fuel|].
  intros rr r' Hplay.
  destruct (play_cases r r' rr Hplay) as (r4 & Hdeal & Hcases).
  destruct (initial_deal_ok r r4 Hdeal)
    as (c1 & c2 & c3 & c4 & sh & Hdraws & Hr4).
  assert (Hlog4 : asked_ r4 = asked_ r) by (subst r4; reflexivity).
  assert (Hrl4 : rules_ r4 = rules_ r) by (subst r4; reflexivity).
  assert (Hp4 : doubled (player_ r4) = false) by (subst r4; reflexivity).
  assert (Hsh4 : shoe_ r4 = sh) by (subst r4; reflexivity).
  assert (Hpc4 : cards (player_ r4) = [c1; c3]) by (subst r4; reflexivity).
  assert (Hdc4 : cards (dealer_ r4) = [c2; c4]) by (subst r4; reflexivity).
  destruct Hcases as [(_ & -> & _)|[(_ & _ & -> & _)|Hturn]].
  1, 2: exists []; rewrite app_nil_r; split; [exact Hlog4|];
    split; [intros [|i] q Hq; discriminate|];
    split; intros [|i] q Hq; discriminate.
  destruct Hturn as (_ & _ & exit & r5 & Hpt & Hend).
  destruct (player_turn_log _ _ _ _ _ Hpt)
    as (_ & _ & _ & new & Hlog5 & Htl).
  assert (Hfinal : asked_ r' = asked_ r5
                   /\ (exit = Break ->
                       player_ r' = player_ r5
                       /\ dealer_turn loop_fuel r5 = Ok r'
                       /\ outcome rr
                          = compare_totals (player_ r') (dealer_ r')
                       /\ settle r' (outcome rr) = Ok rr)).
  { destruct Hend as [(oc & -> & -> & _)|(-> & Hdt & Hs)].
    - split; [reflexivity | discriminate].
    - destruct (dealer_turn_ok _ _ _ Hdt) as (_ & _ & _ & Hp & Hl & _).
      destruct (settle_outcome _ _ _ Hs) as (Ho & _).
      split; [exact Hl|]. intros _. rewrite Ho. auto. }
  destruct Hfinal as [Hlog' Hbreak].
  exists new. split; [now rewrite Hlog', Hlog5, Hlog4|].
  rewrite Hrl4 in Htl.
  split; [exact (turn_log_can_double _ _ _ _ _ Htl)|].
  split; [exact (turn_log_hits _ _ _ _ _ Htl)|].
  intros i q Hq Hans Hcd.
  destruct (turn_log_illegal_double _ _ _ _ _ Htl i q Hq Hans Hcd)
    as (Hlen & Hexit & Hp5).
  destruct (Hbreak Hexit) as (Hpl' & Hdt & Hoc & Hs).
  split; [exact Hlen|]. split; [now rewrite Hpl'|].
  split.
  { rewrite Hpl'.
    destruct (doubled (player_ r5)) eqn:Edbl; [|reflexivity].
    destruct (turn_log_doubled _ _ _ _ _ Htl Hp4 Edbl)
      as (_ & front & s & c & Hacts & Hcs & _).
    assert (Hlast : nth_error (actions new) (length front)
                    = Some (mkQuery Action s Double)).
    { rewrite Hacts, nth_error_app2, Nat.sub_diag by lia. reflexivity. }
    assert (Hi : i = length front).
    { rewrite Hacts, length_app in Hlen. cbn in Hlen. lia. }
    subst i. rewrite Hlast in Hq. injection Hq as <-. cbn in Hcd.
    congruence. }
  destruct (turn_run_illegal_double _ _ _ _ (player_turn_run _ _ _ _ _ Hpt))
    as (new' & Hlog5' & Hill).
  assert (Hnew : new' = new).
  { rewrite Hlog5 in Hlog5'. now apply app_inv_head in Hlog5'. }
  subst new'.
  destruct (Hill i q Hq Hans Hcd)
    as (_ & hits & Hhits & Hdm & Hcs & Hpq & Hdq & Hd54).
  rewrite Hsh4 in Hdm. rewrite Hpc4 in Hcs.
  exists r5, c1, c2, c3, c4, hits.
  split; [exact Hhits|].
  split; [exact (draw_many_app 4 i _ _ _ _ _ Hdraws Hdm)|].
  split; [now rewrite <- Hpq|].
  split; [now rewrite <- Hdq, Hd54|].
  split; [exact Hpq|]. split; [exact Hdq|].
  split; [exact Hdt|]. split; [exact Hoc | exact Hs].
Qed.

(** A round that ends with the player hand doubled went through a legal
    Double as its last action and through the dealer turn, and was
    settled by [compare_totals]. *)
Lemma play_doubled (r r' : Round) (rr : RoundResult) :
  play r = Ok (rr, r') ->
  doubled (player_ r') = true ->
  (exists (new : list Query) (s : Situation) (c : Card),
      asked_ r' = asked_ r ++ new
      /\ last (actions new) (mkQuery Action s Double)
         = mkQuery Action s Double
      /\ actions new <> []
      /\ can_double s = true
      /\ player_ r' = add (set_doubled (player s)) c)
  /\ (exists r5 : Round,
         dealer_turn loop_fuel r5 = Ok r' /\ player_ r5 = player_ r')
  /\ outcome rr = compare_totals (player_ r') (dealer_ r')
  /\ bet_ r' = bet_ r
  /\ settle r' (outcome rr) = Ok rr.
Proof.
  intros Hplay Hdbl.
  destruct (play_cases r r' rr Hplay) as (r4 & Hdeal & Hcases).
  destruct (initial_deal_ok r r4 Hdeal)
    as (c1 & c2 & c3 & c4 & sh & _ & Hr4).
  assert (Hlog4 : asked_ r4 = asked_ r) by (subst r4; reflexivity).
  assert (Hb4 : bet_ r4 = bet_ r) by (subst r4; reflexivity).
  assert (Hp4 : doubled (player_ r4) = false) by (subst r4; reflexivity).
  destruct Hcases as [(_ & -> & _)|[(_ & _ & -> & _)|Hturn]];
    try congruence.
  destruct Hturn as (_ & _ & exit & r5 & Hpt & Hend).
  destruct (player_turn_log _ _ _ _ _ Hpt)
    as (_ & Hb5 & _ & new & Hlog5 & Htl).
  destruct Hend as [(oc & -> & -> & Hs)|(-> & Hdt & Hs)].
  { destruct (turn_log_doubled _ _ _ _ _ Htl Hp4 Hdbl) as [? _].
    discriminate. }
  destruct (dealer_turn_ok _ _ _ Hdt) as (_ & Hb' & _ & Hp' & Hl' & _).
  rewrite <- Hp' in Htl.
  destruct (turn_log_doubled _ _ _ _ _ Htl Hp4 Hdbl)
    as (_ & front & s & c & Hacts & Hcs & Hpl).
  destruct (settle_outcome _ _ _ Hs) as (Hoc & _ & _).
  split.
  { exists new, s, c. split; [now rewrite Hl', Hlog5, Hlog4|].
    rewrite Hacts, last_last. split; [reflexivity|].
    split; [intros Habs; destruct front; discriminate Habs|].
    split; assumption. }
  split; [exists r5; auto|].
  split; [exact Hoc|]. split; [congruence|]. now rewrite Hoc.
Qed.
End RoundTheorems.

(** Whatever the softness of the hand, the dealer loop is left at once on
    a hard total of 17. *)
Lemma dealer_turn_stands_on_17 {G : Type} `{ShuffleEngine G} {St : Type}
      (r : Round G St) (fuel : nat) :
  hard_total (dealer_ r) = 17 -> dealer_turn (S fuel) r = Ok r.
Proof.
  intros H17. cbn [dealer_turn]. rewrite H17, is_soft_never.
  cbn. now rewrite andb_false_r.
Qed.

(** *** Examples of rounds *)

Lemma play_blackjack_resolution_witness :
  exists sh rr,
    draw_many 4 (shoe_ both_naturals)
    = Ok ([spade Ace; heart King; spade King; heart Ace], sh)
    /\ play both_naturals
       = Ok (rr, mkRound one_deck_rules sh tt 100
                         (hand_of [spade Ace; spade King])
                         (hand_of [heart King; heart Ace]) [])
    /\ outcome rr = Push.
Proof.
  eexists.
  assert (Hdraw : draw_many 4 (shoe_ both_naturals)
                  = Ok ([spade Ace; heart King; spade King; heart Ace], _))
    by (vm_compute; reflexivity).
  assert (Hc : settle_in_contract 100 3 2).
  { unfold settle_in_contract. repeat split; try reflexivity. lia. }
  destruct (play_blackjack_resolution both_naturals _ _ _ _ _ Hdraw Push)
    as [_ Hok].
  { left. repeat split; reflexivity. }
  destruct (Hok (or_intror Hc)) as (rr & Hplay & Hout).
  exists rr. split; [exact Hdraw|]. split; [exact Hplay | exact Hout].
Defined.

Lemma double_legal_on_first_action_only_witness :
  exists rr r',
    play (H0 := HitThenDouble) late_double = Ok (rr, r')
    /\ map (fun q => (can_double (q_situation q), q_answer q))
           (actions (asked_ r'))
       = [(true, Hit); (false, Double)]
    /\ cards (player_ r') = [spade Two; spade Five; diamond Three]
    /\ next_ (shoe_ r') = 5%nat
    /\ (exists new,
          asked_ r' = [] ++ new
          /\ forall i q, nth_error (actions new) i = Some q ->
                         can_double (q_situation q)
                         = true && (i =? 0)%nat)
    /\ exists (r5 : Round nat unit) (drawn : list Card),
         draw_many 5 (shoe_ late_double) = Ok (drawn, shoe_ r5)
         /\ length drawn = 5%nat
         /\ dealer_turn loop_fuel r5 = Ok r'
         /\ outcome rr = compare_totals (player_ r') (dealer_ r').
Proof.
  destruct (play (H0 := HitThenDouble) late_double) as [[rr r']|e] eqn:E;
    [|vm_compute in E; discriminate].
  exists rr, r'. split; [reflexivity|].
  pose proof (proj2 (double_legal_on_first_action_only
                       (H0 := HitThenDouble) late_double) rr r' E)
    as (new & Hlog & Hcd & _ & Hill).
  vm_compute in E. injection E as <- <-.
  split; [reflexivity|]. split; [reflexivity|]. split; [reflexivity|].
  split; [exists new; split; [exact Hlog | exact Hcd]|].
  cbn in Hlog. subst new.
  destruct (Hill 1%nat _ eq_refl eq_refl eq_refl)
    as (_ & _ & _ & r5 & c1 & c2 & c3 & c4 & hits & Hlen & Hdm & _ & _ & _
        & _ & Hdt & Hoc & _).
  exists r5, ([c1; c2; c3; c4] ++ hits).
  split; [exact Hdm|].
  split; [rewrite length_app, Hlen; reflexivity|].
  split; [exact Hdt | exact Hoc].
Defined.

(** The orders of these shoes are orders of the one deck. *)
Lemma example_shoes_are_decks :
  Forall (fun r : Round nat unit => Permutation one_deck (cards_ (shoe_ r)))
         [both_naturals; late_double; doubled_bust_win; doubled_bust_both].
Proof.
  repeat constructor; apply same_cards_perm; vm_compute; reflexivity.
Qed.



(** C4.  Under rules that have the dealer hit soft 17, a dealer holding an
    Ace and a Six, a 17 that keeps the Ace at 11, draws no card: the round
    ends with that hand and the dealer total 17. *)
Theorem dealer_stands_on_soft17_under_H17 :
  dealer_hits_soft17 (rules_ dealer_soft17) = true
  /\ Permutation one_deck (cards_ (shoe_ dealer_soft17))
  /\ exists rr r',
       play dealer_soft17 = Ok (rr, r')
       /\ cards (dealer_ r') = [spade Ace; spade Six]
       /\ is_soft_intended (dealer_ r') = true
       /\ is_soft (dealer_ r') = false
       /\ dealer_total rr = 17
       /\ outcome rr = PlayerWin.
Proof.
  split; [reflexivity|].
  split; [apply same_cards_perm; vm_compute; reflexivity|].
  destruct (play dealer_soft17) as [[rr r']|e] eqn:E;
    [|vm_compute in E; discriminate].
  exists rr, r'. split; [reflexivity|].
  vm_compute in E. injection E as <- <-. repeat split; reflexivity.
Qed.

(** ** The simulation harness *)

Lemma round_bound_facts (bet num : Z) :
  0 <= bet -> 0 <= num ->
  bet * 4 <= round_bound bet num
  /\ bet * (num + 1) <= round_bound bet num
  /\ 0 <= round_bound bet num.
Proof.
  intros Hb Hn. unfold round_bound.
  pose proof (Z.le_max_l 4 (num + 1)). pose proof (Z.le_max_r 4 (num + 1)).
  repeat split; nia.
Qed.

Lemma payout_table_bounds (oc : Outcome) (dbl : bool) (bet num den : Z) :
  0 <= bet -> 0 <= num -> 0 < den ->
  0 <= payout_table oc dbl bet num den <= round_bound bet num.
Proof.
  intros Hb Hn Hd.
  destruct (round_bound_facts bet num Hb Hn) as (H4 & Hn1 & _).
  assert (Hq : 0 <= Z.quot (bet * num) den <= bet * num).
  { split; [apply Z.quot_pos; nia|].
    apply Z.quot_le_upper_bound; nia. }
  assert (Hh : 0 <= Z.quot bet 2 <= bet).
  { split; [apply Z.quot_pos; lia|].
    apply Z.quot_le_upper_bound; lia. }
  destruct oc, dbl; cbn [payout_table]; lia.
Qed.

Lemma count_outcome_cons (oc : Outcome) (x : RoundResult * bool)
      (hist : list (RoundResult * bool)) :
  count_outcome oc (x :: hist)
  = Z.b2z (Outcome_eqb (outcome (fst x)) oc) + count_outcome oc hist.
Proof.
  unfold count_outcome. cbn [filter].
  destruct (Outcome_eqb (outcome (fst x)) oc); cbn [length Z.b2z]; lia.
Qed.

(** One turn of the loop of [simulate] on the statistics: the round is
    counted, the bankroll moves by the payout less the stake, and the
    outcome raises its counters. *)
Lemma tally_ok (stats : SimStats) (rr : RoundResult) (dbl : bool)
      (bet bound : Z) :
  0 <= bet -> bet * 2 <= bound -> bound <= INT64_MAX ->
  0 <= payout_cents rr <= bound ->
  Z.abs (bankroll_cents stats) + bound <= INT64_MAX ->
  exists stats',
    tally stats rr dbl bet = Ok stats'
    /\ rounds stats' = rounds stats + 1
    /\ bankroll_cents stats'
       = bankroll_cents stats
         + (payout_cents rr - (if dbl then 2 * bet else bet))
    /\ player_bj stats'
       = player_bj stats + Z.b2z (Outcome_eqb (outcome rr) PlayerBJ)
    /\ dealer_bj stats'
       = dealer_bj stats + Z.b2z (Outcome_eqb (outcome rr) DealerBJ)
    /\ player_wins stats'
       = player_wins stats + Z.b2z (Outcome_eqb (outcome rr) PlayerBJ)
         + Z.b2z (Outcome_eqb (outcome rr) DealerBust)
         + Z.b2z (Outcome_eqb (outcome rr) PlayerWin)
    /\ dealer_wins stats'
       = dealer_wins stats + Z.b2z (Outcome_eqb (outcome rr) DealerBJ)
         + Z.b2z (Outcome_eqb (outcome rr) PlayerBust)
         + Z.b2z (Outcome_eqb (outcome rr) DealerWin)
    /\ busts stats'
       = busts stats + Z.b2z (Outcome_eqb (outcome rr) DealerBust)
         + Z.b2z (Outcome_eqb (outcome rr) PlayerBust)
    /\ pushes stats'
       = pushes stats + Z.b2z (Outcome_eqb (outcome rr) Push)
    /\ surrenders stats'
       = surrenders stats + Z.b2z (Outcome_eqb (outcome rr) PlayerSurrender).
Proof.
  intros Hb H2 Hmax Hpay Hbank.
  set (stake := if dbl then 2 * bet else bet).
  assert (Hstake : (if dbl then mul64 bet 2 else Ok bet) = Ok stake).
  { unfold stake, mul64. destruct dbl; [|reflexivity].
    rewrite i64_ok; [f_equal; lia|].
    apply in_int64_iff. unfold INT64_MIN, INT64_MAX in *. lia. }
  assert (Hst : 0 <= stake <= bound) by (unfold stake; destruct dbl; lia).
  unfold tally. fold stake. rewrite Hstake. cbn [bind].
  unfold sub64. rewrite i64_ok
    by (apply in_int64_iff; unfold INT64_MIN, INT64_MAX in *; lia).
  cbn [bind]. unfold add64. rewrite i64_ok
    by (apply in_int64_iff; unfold INT64_MIN, INT64_MAX in *; lia).
  cbn [bind]. eexists. split; [reflexivity|].
  destruct (outcome rr); cbn; repeat split; lia.
Qed.

(** The same of any turn that returns. *)
Lemma tally_inv (stats stats' : SimStats) (rr : RoundResult) (dbl : bool)
      (bet : Z) :
  tally stats rr dbl bet = Ok stats' ->
  rounds stats' = rounds stats + 1
  /\ bankroll_cents stats'
     = bankroll_cents stats
       + (payout_cents rr - (if dbl then 2 * bet else bet))
  /\ player_bj stats'
     = player_bj stats + Z.b2z (Outcome_eqb (outcome rr) PlayerBJ)
  /\ dealer_bj stats'
     = dealer_bj stats + Z.b2z (Outcome_eqb (outcome rr) DealerBJ)
  /\ player_wins stats'
     = player_wins stats + Z.b2z (Outcome_eqb (outcome rr) PlayerBJ)
       + Z.b2z (Outcome_eqb (outcome rr) DealerBust)
       + Z.b2z (Outcome_eqb (outcome rr) PlayerWin)
  /\ dealer_wins stats'
     = dealer_wins stats + Z.b2z (Outcome_eqb (outcome rr) DealerBJ)
       + Z.b2z (Outcome_eqb (outcome rr) PlayerBust)
       + Z.b2z (Outcome_eqb (outcome rr) DealerWin)
  /\ busts stats'
     = busts stats + Z.b2z (Outcome_eqb (outcome rr) DealerBust)
       + Z.b2z (Outcome_eqb (outcome rr) PlayerBust)
  /\ pushes stats'
     = pushes stats + Z.b2z (Outcome_eqb (outcome rr) Push)
  /\ surrenders stats'
     = surrenders stats + Z.b2z (Outcome_eqb (outcome rr) PlayerSurrender).
Proof.
  unfold tally, mul64, sub64, add64. intros Hrun.
  apply bind_ok in Hrun as (stake & Hstake & Hrun).
  apply bind_ok in Hrun as (net & Hnet & Hrun).
  apply bind_ok in Hrun as (bank & Hbank & Hrun).
  apply i64_inv in Hnet, Hbank.
  assert (Hst : stake = if dbl then 2 * bet else bet).
  { destruct dbl; [apply i64_inv in Hstake; lia | congruence]. }
  injection Hrun as <-. subst bank net stake.
  destruct (outcome rr); cbn; repeat split; lia.
Qed.

Section Harness.
Context {G : Type} `{ShuffleEngine G}.
Context {St : Type} `{Strategy St}.

(** Whenever the loop of [simulate] returns, every field of the statistics
    has moved by what the [k] rounds it played add up to. *)
Lemma sim_loop_folds (k : nat) :
  forall (rl : Rules) (bet : Z) (sh sh' : Shoe G) (st st' : St)
         (stats stats' : SimStats),
    sim_loop k rl bet sh st stats = Ok (stats', sh', st') ->
    exists hist,
      rounds_played k rl bet sh st = Ok hist
      /\ length hist = k
      /\ Forall (fun x => payout_cents (fst x)
                          = payout_table (outcome (fst x)) (snd x) bet
                              (blackjack_pays_num rl)
                              (blackjack_pays_den rl)) hist
      /\ rounds stats' = rounds stats + Z.of_nat k
      /\ bankroll_cents stats' = bankroll_cents stats + net_total bet hist
      /\ player_bj stats' = player_bj stats + count_outcome PlayerBJ hist
      /\ dealer_bj stats' = dealer_bj stats + count_outcome DealerBJ hist
      /\ player_wins stats'
         = player_wins stats + count_outcome PlayerBJ hist
           + count_outcome DealerBust hist + count_outcome PlayerWin hist
      /\ dealer_wins stats'
         = dealer_wins stats + count_outcome DealerBJ hist
           + count_outcome PlayerBust hist + count_outcome DealerWin hist
      /\ busts stats'
         = busts stats + count_outcome DealerBust hist
           + count_outcome PlayerBust hist
      /\ pushes stats' = pushes stats + count_outcome Push hist
      /\ surrenders stats'
         = surrenders stats + count_outcome PlayerSurrender hist.
Proof.
  induction k as [|k IH]; intros rl bet sh sh' st st' stats stats' Hrun.
  { injection Hrun as <- <- <-. exists []. cbn.
    repeat split; try constructor; lia. }
  cbn [sim_loop] in Hrun.
  apply bind_ok in Hrun as ([rr r1] & Hplay & Hrun).
  apply bind_ok in Hrun as (stats1 & Htally & Hrun).
  destruct (IH _ _ _ _ _ _ _ _ Hrun)
    as (hist & Hhist & Hlen & Hall & Hr' & Hb' & Hpbj' & Hdbj' & Hpw'
        & Hdw' & Hbu' & Hpu' & Hsu').
  destruct (tally_inv _ _ _ _ _ Htally)
    as (Hrounds & Hbank & Hpbj & Hdbj & Hpw & Hdw & Hbu & Hpu & Hsu).
  destruct (play_frame _ _ _ Hplay) as (Hrl & Hbet & oc & Hs).
  cbn [new_Round rules_ bet_] in Hrl, Hbet.
  assert (Hpay : payout_cents rr
                 = payout_table (outcome rr) (doubled (player_ r1)) bet
                     (blackjack_pays_num rl) (blackjack_pays_den rl)).
  { rewrite (settle_sound r1 oc rr Hs). unfold settled. cbn.
    now rewrite Hrl, Hbet. }
  exists ((rr, doubled (player_ r1)) :: hist).
  cbn [rounds_played]. rewrite Hplay. cbn [bind]. rewrite Hhist.
  cbn [bind]. rewrite !count_outcome_cons.
  cbn [fst snd net_total fold_right length]. fold (net_total bet hist).
  split; [reflexivity|]. split; [now rewrite Hlen|].
  split; [constructor; [exact Hpay | exact Hall]|].
  repeat split; lia.
Qed.

(** From any statistics with room in the bankroll for [k] more rounds, on
    a shoe that holds cards, the loop of [simulate] returns. *)
Lemma sim_loop_total (k : nat) :
  forall (rl : Rules) (bet : Z) (sh : Shoe G) (st : St) (stats : SimStats),
    cards_ sh <> [] ->
    0 <= bet -> 0 <= blackjack_pays_num rl -> 0 < blackjack_pays_den rl ->
    Z.abs (bankroll_cents stats)
    + Z.of_nat k * round_bound bet (blackjack_pays_num rl) <= INT64_MAX ->
    round_bound bet (blackjack_pays_num rl) <= INT64_MAX ->
    exists x, sim_loop k rl bet sh st stats = Ok x.
Proof.
  induction k as [|k IH]; intros rl bet sh st stats Hne Hb Hn Hd Hroom Hone.
  { eexists. reflexivity. }
  set (M := round_bound bet (blackjack_pays_num rl)) in *.
  destruct (round_bound_facts bet _ Hb Hn) as (H4 & Hn1 & HM).
  fold M in H4, Hn1, HM.
  assert (Hc : settle_in_contract bet (blackjack_pays_num rl)
                                  (blackjack_pays_den rl)).
  { apply settle_in_contract_bound; auto. }
  destruct (play_total (new_Round rl sh st bet) Hne Hc)
    as (rr & r1 & Hplay & Hl1 & Hpay).
  cbn [bet_ rules_ new_Round] in Hpay.
  pose proof (payout_table_bounds (outcome rr) (doubled (player_ r1)) bet
                _ _ Hb Hn Hd) as Hpb.
  rewrite <- Hpay in Hpb. fold M in Hpb.
  destruct (tally_ok stats rr (doubled (player_ r1)) bet M)
    as (stats1 & Htally & _ & Hbank & _); try lia.
  cbn [sim_loop]. rewrite Hplay. cbn [bind]. rewrite Htally. cbn [bind].
  apply IH; auto.
  - apply (nonempty_length _ (cards_ sh)); assumption.
  - fold M. rewrite Hbank.
    assert (Z.abs (payout_cents rr
                   - (if doubled (player_ r1) then 2 * bet else bet)) <= M)
      by (destruct (doubled (player_ r1)); lia).
    lia.
Qed.
End Harness.

Lemma new_Shoe_total {G : Type} `{ShuffleEngine G} (decks seed : Z) :
  1 <= decks -> in_int (decks * 52) = true ->
  exists sh : Shoe G,
    new_Shoe decks seed = Ok sh /\ cards_ sh <> [] /\ shoe_inv sh.
Proof.
  intros Hd Hint.
  destruct (new_Shoe decks seed) as [sh|e] eqn:E.
  - exists sh. split; [reflexivity|].
    unfold new_Shoe in E. destruct (reset_ok _ _ _ E) as (Hn & _ & Hl).
    split; [intros He; rewrite He in Hl; cbn [length] in Hl; lia|].
    unfold shoe_inv. rewrite Hn. lia.
  - exfalso. unfold new_Shoe, reset in E. rewrite Hint in E. cbn [negb] in E.
    destruct (decks * 52 <? 0) eqn:En; [|discriminate].
    apply Z.ltb_lt in En. lia.
Qed.

(** C7.  Let [n] be a count of rounds that is not negative.  Whenever
    [simulate] returns, with [hist] the rounds it played, in order, on the
    one shoe and strategy object: [rounds] is [n]; the bankroll is the sum
    over the rounds of the payout less the stake, twice the bet where the
    hand was doubled; PlayerBJ is counted in [player_bj] and
    [player_wins], DealerBJ in [dealer_bj] and [dealer_wins], DealerBust
    in [player_wins] and [busts], PlayerBust in [dealer_wins] and [busts],
    and PlayerWin, DealerWin, Push and PlayerSurrender in [player_wins],
    [dealer_wins], [pushes] and [surrenders].  And [simulate] does return
    for a shoe of at least one deck, a non-negative stake and a payout
    ratio with room in the bankroll for [n] rounds. *)
Theorem simulate_tallies_rounds {G : Type} `{ShuffleEngine G}
        (n : Z) (rl : Rules) (seed bet : Z) (strategy : option StrategyObj) :
  0 <= n ->
  let strat := match strategy with Some o => o | None => default_strat end in
  (forall stats : SimStats,
      simulate n rl seed bet strategy = Ok stats ->
      exists (shoe : Shoe G) (hist : list (RoundResult * bool)),
        new_Shoe (num_decks rl) seed = Ok shoe
        /\ rounds_played (H0 := obj_class strat) (Z.to_nat n) rl bet shoe
                         (obj_value strat) = Ok hist
        /\ Z.of_nat (length hist) = n
        /\ Forall (fun x => payout_cents (fst x)
                            = payout_table (outcome (fst x)) (snd x) bet
                                (blackjack_pays_num rl)
                                (blackjack_pays_den rl))
                  hist
        /\ rounds stats = n
        /\ bankroll_cents stats = net_total bet hist
        /\ player_bj stats = count_outcome PlayerBJ hist
        /\ dealer_bj stats = count_outcome DealerBJ hist
        /\ player_wins stats
           = count_outcome PlayerBJ hist + count_outcome DealerBust hist
             + count_outcome PlayerWin hist
        /\ dealer_wins stats
           = count_outcome DealerBJ hist + count_outcome PlayerBust hist
             + count_outcome DealerWin hist
        /\ busts stats
           = count_outcome DealerBust hist + count_outcome PlayerBust hist
        /\ pushes stats = count_outcome Push hist
        /\ surrenders stats = count_outcome PlayerSurrender hist)
  /\ (1 <= num_decks rl -> in_int (num_decks rl * 52) = true ->
      0 <= bet -> 0 <= blackjack_pays_num rl -> 0 < blackjack_pays_den rl ->
      n * round_bound bet (blackjack_pays_num rl) <= INT64_MAX ->
      exists stats : SimStats, simulate n rl seed bet strategy = Ok stats).
Proof.
  intros Hn strat. split.
  - intros stats Hsim. unfold simulate, simulate_with in Hsim.
    fold strat in Hsim.
    apply bind_ok in Hsim as ([stats0 st0] & Hrun & [= <-]).
    apply bind_ok in Hrun as (shoe & Hshoe & Hrun).
    apply bind_ok in Hrun as ([[stats1 sh1] st1] & Hloop & [= <- <-]).
    destruct (sim_loop_folds _ _ _ _ _ _ _ _ _ Hloop)
      as (hist & Hhist & Hlen & Hall & Hr & Hbank & Hpbj & Hdbj & Hpw
          & Hdw & Hbu & Hpu & Hsu).
    exists shoe, hist.
    cbn [no_stats rounds bankroll_cents player_bj dealer_bj player_wins
         dealer_wins busts pushes surrenders] in *.
    split; [exact Hshoe|]. split; [exact Hhist|]. split; [lia|].
    split; [exact Hall|]. repeat split; lia.
  - intros Hdecks Hint Hb Hnum Hden Hroom.
    destruct (new_Shoe_total (num_decks rl) seed Hdecks Hint)
      as (shoe & Hshoe & Hne & _).
    unfold simulate, simulate_with. fold strat. rewrite Hshoe. cbn [bind].
    destruct (Z.to_nat n) as [|k] eqn:Ek.
    { eexists. reflexivity. }
    destruct (round_bound_facts bet _ Hb Hnum) as (_ & _ & HM).
    destruct (sim_loop_total (H0 := obj_class strat) (S k) rl bet shoe
                (obj_value strat) no_stats Hne Hb Hnum Hden)
      as ([[stats sh'] st'] & Hloop).
    { rewrite <- Ek. cbn [bankroll_cents no_stats Z.abs]. lia. }
    { nia. }
    rewrite Hloop. cbn [bind]. eexists. reflexivity.
Qed.

Lemma simulate_tallies_rounds_witness :
  exists (hist : list (RoundResult * bool)) (stats : SimStats),
    simulate (G := nat) 3 one_deck_rules 42 100 None = Ok stats
    /\ Z.of_nat (length hist) = 3
    /\ rounds stats = 3
    /\ bankroll_cents stats = net_total 100 hist
    /\ player_wins stats
       = count_outcome PlayerBJ hist + count_outcome DealerBust hist
         + count_outcome PlayerWin hist.
Proof.
  destruct (simulate_tallies_rounds (G := nat) 3 one_deck_rules 42 100 None)
    as [Hfold Hret]; [lia|].
  destruct Hret as (stats & Hsim);
    try (vm_compute; congruence); try reflexivity.
  destruct (Hfold stats Hsim)
    as (shoe & hist & _ & _ & Hlen & _ & Hr & Hbank & _ & _ & Hpw & _).
  exists hist, stats. repeat split; assumption.
Defined.

(** ** Determinism *)

Lemma res_rel_bind {A B A' B' : Type} (R : A -> B -> Prop)
      (Q : A' -> B' -> Prop) (m1 : res A) (m2 : res B)
      (k1 : A -> res A') (k2 : B -> res B') :
  res_rel R m1 m2 ->
  (forall a b, R a b -> res_rel Q (k1 a) (k2 b)) ->
  res_rel Q (bind m1 k1) (bind m2 k2).
Proof.
  destruct m1 as [a|e1], m2 as [b|e2]; cbn; intros HR Hk;
    try contradiction; auto.
Qed.

Section Stateless.
Context {G : Type} `{ShuffleEngine G}.
Context {St : Type} `{Strategy St}.
Hypothesis decide_stateless : stateless St.

Local Abbreviation Round := (Round G St).

Lemma same_table_intro (rl : Rules) (sh : Shoe G) (st1 st2 : St) (bet : Z)
      (p d : Hand) (log : list Query) :
  same_table (mkRound rl sh st1 bet p d log) (mkRound rl sh st2 bet p d log).
Proof. repeat split. Qed.

Lemma same_table_inv (r1 r2 : Round) :
  same_table r1 r2 ->
  exists rl sh st1 st2 bet p d log,
    r1 = mkRound rl sh st1 bet p d log
    /\ r2 = mkRound rl sh st2 bet p d log.
Proof.
  destruct r1, r2. intros (? & ? & ? & ? & ? & ?). cbn in *. subst.
  eexists _, _, _, _, _, _, _, _. split; reflexivity.
Qed.

Lemma deal_player_rel (r1 r2 : Round) :
  same_table r1 r2 ->
  res_rel same_table (deal_player r1) (deal_player r2).
Proof.
  intros Hs. apply same_table_inv in Hs
    as (rl & sh & st1 & st2 & bet & p & d & log & -> & ->).
  unfold deal_player. cbn. destruct (draw sh) as [[c sh']|e]; cbn;
    [apply same_table_intro | reflexivity].
Qed.

Lemma deal_dealer_rel (r1 r2 : Round) :
  same_table r1 r2 ->
  res_rel same_table (deal_dealer r1) (deal_dealer r2).
Proof.
  intros Hs. apply same_table_inv in Hs
    as (rl & sh & st1 & st2 & bet & p & d & log & -> & ->).
  unfold deal_dealer. cbn. destruct (draw sh) as [[c sh']|e]; cbn;
    [apply same_table_intro | reflexivity].
Qed.

Lemma ask_rel (k : QueryKind) (r1 r2 : Round) (cd : bool) :
  same_table r1 r2 ->
  fst (ask k r1 cd) = fst (ask k r2 cd)
  /\ same_table (snd (ask k r1 cd)) (snd (ask k r2 cd)).
Proof.
  intros Hs. apply same_table_inv in Hs
    as (rl & sh & st1 & st2 & bet & p & d & log & -> & ->).
  unfold ask. cbn.
  pose proof (decide_stateless st1 st2 (mkSituation p d rl cd)) as Hd.
  destruct (decide st1 _) as [d1 st1'], (decide st2 _) as [d2 st2'].
  cbn in *. subst d2. split; [reflexivity | apply same_table_intro].
Qed.

Lemma finish_rel (r1 r2 : Round) (oc : Outcome) :
  same_table r1 r2 ->
  res_rel (fun x y => fst x = fst y /\ same_table (snd x) (snd y))
          (finish r1 oc) (finish r2 oc).
Proof.
  intros Hs. pose proof Hs as Hs'. apply same_table_inv in Hs'
    as (rl & sh & st1 & st2 & bet & p & d & log & -> & ->).
  unfold finish, settle. cbn [rules_ bet_ player_ dealer_].
  destruct (match oc with PlayerBJ => _ | _ => _ end) as [pay|e];
    cbn; auto.
Qed.

Lemma player_turn_rel (fuel : nat) :
  forall (r1 r2 : Round) (cd : bool),
    same_table r1 r2 ->
    res_rel (fun x y => fst x = fst y /\ same_table (snd x) (snd y))
            (player_turn fuel r1 cd) (player_turn fuel r2 cd).
Proof.
  induction fuel as [|fuel IH]; intros r1 r2 cd Hs; [reflexivity|].
  cbn [player_turn].
  destruct Hs as (Hrl & Hsh & Hb & Hp & Hd & Hl).
  rewrite <- Hrl, <- Hp.
  assert (Hs : same_table r1 r2) by (repeat split; assumption).
  (* the offer of surrender *)
  assert (Hoffer :
    exists (g : bool) (a1 a2 : Round),
      (if surrender (rules_ r1) && (length (cards (player_ r1)) =? 2)%nat
       then let '(d0, r0) := ask SurrenderOffer r1 cd in
            (Decision_eqb d0 Surrender, r0)
       else (false, r1)) = (g, a1)
      /\ (if surrender (rules_ r1) && (length (cards (player_ r1)) =? 2)%nat
          then let '(d0, r0) := ask SurrenderOffer r2 cd in
               (Decision_eqb d0 Surrender, r0)
          else (false, r2)) = (g, a2)
      /\ same_table a1 a2).
  { destruct (surrender (rules_ r1) && _).
    - destruct (ask_rel SurrenderOffer r1 r2 cd Hs) as [Hd0 Hr0].
      destruct (ask SurrenderOffer r1 cd) as [d1 a1].
      destruct (ask SurrenderOffer r2 cd) as [d2 a2].
      cbn in Hd0, Hr0. subst d2.
      eexists _, _, _.
      split; [reflexivity|]. split; [reflexivity | exact Hr0].
    - exists false, r1, r2.
      split; [reflexivity|]. split; [reflexivity | exact Hs]. }
  destruct Hoffer as (g & a1 & a2 & -> & -> & Ha).
  destruct g.
  { cbn. split; [reflexivity|].
    destruct Ha as (? & ? & ? & ? & ? & ?).
    unfold with_hands. repeat split; cbn; congruence. }
  destruct (ask_rel Action a1 a2 cd Ha) as [Hd1 Hb1].
  destruct (ask Action a1 cd) as [d1 b1].
  destruct (ask Action a2 cd) as [d2 b2].
  cbn in Hd1, Hb1. subst d2.
  destruct (Decision_eqb d1 Double && cd).
  { apply res_rel_bind with (R := same_table).
    - apply deal_player_rel.
      destruct Hb1 as (? & ? & ? & ? & ? & ?).
      unfold with_hands. repeat split; cbn; congruence.
    - intros x y Hxy. cbn. auto. }
  destruct (Decision_eqb d1 Hit); [|cbn; auto].
  apply res_rel_bind with (R := same_table);
    [now apply deal_player_rel|].
  intros x y Hxy.
  replace (player_ y) with (player_ x) by apply Hxy.
  destruct (is_bust (player_ x)); [cbn; auto|].
  now apply IH.
Qed.

Lemma dealer_turn_rel (fuel : nat) :
  forall r1 r2 : Round,
    same_table r1 r2 ->
    res_rel same_table (dealer_turn fuel r1) (dealer_turn fuel r2).
Proof.
  induction fuel as [|fuel IH]; intros r1 r2 Hs; [reflexivity|].
  cbn [dealer_turn].
  replace (dealer_ r2) with (dealer_ r1) by apply Hs.
  replace (rules_ r2) with (rules_ r1) by apply Hs.
  destruct (hard_total (dealer_ r1) <? 17).
  { apply res_rel_bind with (R := same_table);
      [now apply deal_dealer_rel | exact IH]. }
  destruct (_ && _).
  { apply res_rel_bind with (R := same_table);
      [now apply deal_dealer_rel | exact IH]. }
  exact Hs.
Qed.

Lemma initial_deal_rel (r1 r2 : Round) :
  same_table r1 r2 ->
  res_rel same_table (initial_deal r1) (initial_deal r2).
Proof.
  intros Hs. unfold initial_deal.
  apply res_rel_bind with (R := same_table).
  { apply deal_player_rel. destruct Hs as (? & ? & ? & ? & ? & ?).
    unfold with_hands. repeat split; cbn; congruence. }
  intros a1 a2 Ha. apply res_rel_bind with (R := same_table);
    [now apply deal_dealer_rel|].
  intros b1 b2 Hb. apply res_rel_bind with (R := same_table);
    [now apply deal_player_rel|].
  intros c1 c2 Hc. now apply deal_dealer_rel.
Qed.

(** A round does not depend on the state of a stateless strategy. *)
Lemma play_rel (r1 r2 : Round) :
  same_table r1 r2 ->
  res_rel (fun x y => fst x = fst y /\ same_table (snd x) (snd y))
          (play r1) (play r2).
Proof.
  intros Hs. unfold play, play_within.
  apply res_rel_bind with (R := same_table);
    [now apply initial_deal_rel|].
  intros a1 a2 Ha.
  replace (rules_ a2) with (rules_ a1) by apply Ha.
  replace (dealer_ a2) with (dealer_ a1) by apply Ha.
  replace (player_ a2) with (player_ a1) by apply Ha.
  destruct (peek_for_blackjack (rules_ a1) && is_blackjack (dealer_ a1)).
  { destruct (is_blackjack (player_ a1)); now apply finish_rel. }
  destruct (is_blackjack (player_ a1)); [now apply finish_rel|].
  eapply res_rel_bind; [apply player_turn_rel; exact Ha|].
  intros [exit1 b1] [exit2 b2] [Hexit Hb]. cbn in Hexit, Hb. subst exit2.
  destruct exit1 as [|oc]; [|now apply finish_rel].
  apply res_rel_bind with (R := same_table);
    [now apply dealer_turn_rel|].
  intros c1 c2 Hc.
  replace (dealer_ c2) with (dealer_ c1) by apply Hc.
  replace (player_ c2) with (player_ c1) by apply Hc.
  destruct (is_bust (dealer_ c1)); [now apply finish_rel|].
  destruct (_ <? _); [now apply finish_rel|].
  destruct (_ <? _); now apply finish_rel.
Qed.

Lemma sim_loop_rel (k : nat) :
  forall (rl : Rules) (bet : Z) (sh : Shoe G) (st1 st2 : St)
         (stats : SimStats),
    res_rel (fun x y => fst (fst x) = fst (fst y)
                        /\ snd (fst x) = snd (fst y))
            (sim_loop k rl bet sh st1 stats)
            (sim_loop k rl bet sh st2 stats).
Proof.
  induction k as [|k IH]; intros rl bet sh st1 st2 stats; [cbn; auto|].
  cbn [sim_loop].
  eapply res_rel_bind;
    [apply play_rel; unfold new_Round; apply same_table_intro|].
  intros [rr1 a1] [rr2 a2] [Hrr Ha]. cbn in Hrr, Ha. subst rr2.
  replace (player_ a2) with (player_ a1) by apply Ha.
  replace (shoe_ a2) with (shoe_ a1) by apply Ha.
  destruct (tally stats rr1 (doubled (player_ a1)) bet) as [stats1|e];
    cbn [bind]; [apply IH | reflexivity].
Qed.

(** The statistics of [simulate] do not depend on the state in which a
    stateless strategy object is passed. *)
Lemma simulate_with_stateless (n : Z) (rl : Rules) (seed bet : Z)
      (st1 st2 : St) :
  stats_of (simulate_with n rl seed bet st1)
  = stats_of (simulate_with n rl seed bet st2).
Proof.
  unfold stats_of, simulate_with.
  destruct (new_Shoe (num_decks rl) seed) as [shoe|e]; [|reflexivity].
  cbn [bind].
  pose proof (sim_loop_rel (Z.to_nat n) rl bet shoe st1 st2 no_stats) as Hr.
  destruct (sim_loop _ _ _ _ st1 _) as [[[s1 sh1] t1]|e1],
           (sim_loop _ _ _ _ st2 _) as [[[s2 sh2] t2]|e2];
    cbn in Hr |- *; try contradiction; [|congruence].
  destruct Hr as [-> _]. reflexivity.
Qed.
End Stateless.

Section StatelessRounds.
Context {G : Type} `{ShuffleEngine G}.
Context {St : Type} `{Strategy St}.
Hypothesis decide_stateless : stateless St.

Lemma rounds_played_stateless (k : nat) :
  forall (rl : Rules) (bet : Z) (sh : Shoe G) (st1 st2 : St),
    rounds_played k rl bet sh st1 = rounds_played k rl bet sh st2.
Proof.
  induction k as [|k IH]; intros rl bet sh st1 st2; [reflexivity|].
  cbn [rounds_played].
  pose proof (play_rel decide_stateless
                (new_Round rl sh st1 bet) (new_Round rl sh st2 bet)
                (same_table_intro rl sh st1 st2 bet _ _ _)) as Hr.
  destruct (play (new_Round rl sh st1 bet)) as [[rr1 a1]|e1],
           (play (new_Round rl sh st2 bet)) as [[rr2 a2]|e2];
    cbn in Hr |- *; try contradiction; [|congruence].
  destruct Hr as [-> Ha].
  replace (player_ a2) with (player_ a1) by apply Ha.
  replace (shoe_ a2) with (shoe_ a1) by apply Ha.
  now rewrite (IH rl bet (shoe_ a1) (strat_ a1) (strat_ a2)).
Qed.
End StatelessRounds.

Lemma CountingStrategy_stateless : stateless (H := CountingStrategy) nat.
Proof. intros st st' s. reflexivity. Qed.




(** Without statelessness the state the object is passed in matters: the
    same two rounds come out differently for the two moods of [Moody]. *)
Remark moody_runs_differ :
  ~ stateless (H := Moody) bool
  /\ simulate (G := nat) 2 one_deck_rules 42 100
              (Some (mkStrategyObj bool Moody true))
     <> simulate (G := nat) 2 one_deck_rules 42 100
                 (Some (mkStrategyObj bool Moody false)).
Proof.
  split.
  - intros Hst.
    specialize (Hst true false
                    (mkSituation empty_hand empty_hand one_deck_rules true)).
    discriminate Hst.
  - vm_compute. discriminate.
Qed.

(** * Further properties of the engine *)

(** ** Card names *)

(** [short_str] indexes its rank table by the enumerator value, which
    starts at 2 where the table starts at 0.  It is undefined for a King
    or an Ace; for every other card it returns, and what it returns is the
    label of the card two ranks higher in the same suit: never the label
    of the card itself. *)
Theorem short_str_off_by_two (c : Card) :
  (short_str c = Err Undefined <-> rank c = King \/ rank c = Ace)
  /\ (forall s : String.string,
        short_str c = Ok s ->
        s <> card_label c
        /\ exists r' : Rank,
             rank_code r' = rank_code (rank c) + 2
             /\ s = card_label (mkCard r' (suit c)))
  /\ (rank c <> King -> rank c <> Ace -> exists s, short_str c = Ok s).
Proof.
  destruct c as [r s]. cbn [rank suit]. split; [|split].
  - split.
    + destruct r, s; vm_compute; intros Hs; try discriminate Hs; auto.
    + intros [-> | ->]; destruct s; reflexivity.
  - intros str Hstr. split.
    + destruct r, s; vm_compute in Hstr; try discriminate Hstr;
        injection Hstr as <-; vm_compute; discriminate.
    + destruct r; try (destruct s; discriminate Hstr).
      * exists Four. destruct s; vm_compute in Hstr |- *;
          injection Hstr as <-; auto.
      * exists Five. destruct s; vm_compute in Hstr |- *;
          injection Hstr as <-; auto.
      * exists Six. destruct s; vm_compute in Hstr |- *;
          injection Hstr as <-; auto.
      * exists Seven. destruct s; vm_compute in Hstr |- *;
          injection Hstr as <-; auto.
      * exists Eight. destruct s; vm_compute in Hstr |- *;
          injection Hstr as <-; auto.
      * exists Nine. destruct s; vm_compute in Hstr |- *;
          injection Hstr as <-; auto.
      * exists Ten. destruct s; vm_compute in Hstr |- *;
          injection Hstr as <-; auto.
      * exists Jack. destruct s; vm_compute in Hstr |- *;
          injection Hstr as <-; auto.
      * exists Queen. destruct s; vm_compute in Hstr |- *;
          injection Hstr as <-; auto.
      * exists King. destruct s; vm_compute in Hstr |- *;
          injection Hstr as <-; auto.
      * exists Ace. destruct s; vm_compute in Hstr |- *;
          injection Hstr as <-; auto.
  - intros HK HA. destruct r; try congruence; destruct s; eexists;
      reflexivity.
Qed.

Lemma short_str_off_by_two_witness :
  short_str (spade Two) = Ok "4S"%string
  /\ "4S"%string <> card_label (spade Two)
  /\ card_label (spade Two) = "2S"%string.
Proof.
  assert (Hs : short_str (spade Two) = Ok "4S"%string) by reflexivity.
  split; [exact Hs|].
  split; [|reflexivity].
  exact (proj1 (proj1 (proj2 (short_str_off_by_two (spade Two))) _ Hs)).
Defined.

(** ** Hand valuation *)

Lemma sum_values_perm (cs cs' : list Card) :
  Permutation cs cs' -> sum_values cs = sum_values cs'.
Proof.
  induction 1 as [|x l l' Hp IH|x y l|l l' l'' H1 IH1 H2 IH2];
    rewrite ?sum_values_cons; lia.
Qed.

Lemma count_aces_perm (cs cs' : list Card) :
  Permutation cs cs' -> count_aces cs = count_aces cs'.
Proof.
  induction 1 as [|x l l' Hp IH|x y l|l l' l'' H1 IH1 H2 IH2];
    rewrite ?count_aces_cons; lia.
Qed.

(** The total of a hand does not depend on the order in which its cards
    were dealt, nor on its flags. *)
Theorem hard_total_permutation (h h' : Hand) :
  Permutation (cards h) (cards h') ->
  hard_total h = hard_total h'
  /\ is_bust h = is_bust h'
  /\ min_total h = min_total h'.
Proof.
  intros Hp. unfold is_bust, hard_total, min_total.
  rewrite (sum_values_perm _ _ Hp), (count_aces_perm _ _ Hp). auto.
Qed.

Lemma hard_total_permutation_witness :
  hard_total (hand_of [spade Nine; spade Ace; heart Ace])
  = hard_total (mkHand [heart Ace; spade Nine; spade Ace] true false).
Proof.
  refine (proj1 (hard_total_permutation
                   (hand_of [spade Nine; spade Ace; heart Ace])
                   (mkHand [heart Ace; spade Nine; spade Ace] true false) _)).
  cbn [cards hand_of]. apply same_cards_perm. reflexivity.
Defined.

Lemma is_bust_min_total (h : Hand) :
  is_bust h = true <-> 21 < min_total h.
Proof.
  unfold is_bust. rewrite Z.ltb_lt.
  destruct (hard_total_reductions h) as (k & Hk & Heq & _ & Hend).
  pose proof (hard_total_ge_min h) as Hge. unfold min_total in *.
  split; [|lia].
  intros Hb. destruct Hend as [Hle | ->]; lia.
Qed.

Lemma card_value_not_ace (c : Card) :
  is_ace c = false -> card_value (rank c) <= 10.
Proof. unfold is_ace. destruct (rank c); cbn; intros; try lia; discriminate. Qed.

(** Adding a card leaves the total at 21 or less, or within ten of what
    it was. *)
Lemma hard_total_add_upper (h : Hand) (c : Card) :
  hard_total (add h c) <= Z.max 21 (hard_total h + 10).
Proof.
  destruct (Z_le_gt_dec (hard_total (add h c)) 21) as [Hle|Hgt]; [lia|].
  destruct (hard_total_reductions (add h c)) as (k & Hk & Heq & _ & Hend).
  destruct Hend as [Hend|Hend]; [lia|]. subst k.
  pose proof (hard_total_ge_min h) as Hge.
  unfold min_total in Hge.
  remember (hard_total (add h c)) as t eqn:Ht. clear Ht.
  unfold add in Heq. cbn [cards] in Heq.
  rewrite sum_values_app, count_aces_app, sum_values_cons,
    count_aces_cons in Heq.
  change (sum_values []) with 0 in Heq.
  change (count_aces []) with O in Heq.
  pose proof (card_value_not_ace c) as Hna.
  rewrite (card_value_ace c) in Heq.
  destruct (is_ace c); [lia|]. specialize (Hna eq_refl). lia.
Qed.

(** A hand is bust exactly when even its least valuation, every Ace at 1,
    exceeds 21; so a bust hand stays bust whatever card is added, and a
    card added to a hand that is not bust leaves it at 31 or less. *)
Theorem bust_is_absorbing (h : Hand) (c : Card) :
  (is_bust h = true <-> 21 < min_total h)
  /\ (is_bust h = true -> is_bust (add h c) = true)
  /\ (is_bust h = false -> hard_total (add h c) <= 31).
Proof.
  split; [apply is_bust_min_total|]. split.
  - intros Hb. apply is_bust_min_total. apply is_bust_min_total in Hb.
    pose proof (min_total_add h c). lia.
  - intros Hb. apply Z.ltb_ge in Hb.
    pose proof (hard_total_add_upper h c). lia.
Qed.

Lemma bust_is_absorbing_witness :
  is_bust (hand_of [spade Ten; heart Ten; spade Five]) = true
  /\ is_bust (add (hand_of [spade Ten; heart Ten; spade Five]) (spade Ace))
     = true.
Proof.
  assert (Hb : is_bust (hand_of [spade Ten; heart Ten; spade Five]) = true)
    by reflexivity.
  split; [exact Hb|].
  exact (proj1 (proj2 (bust_is_absorbing _ (spade Ace))) Hb).
Defined.

(** ** The composition of the shoe *)

Lemma count_card_app (c : Card) (xs ys : list Card) :
  count_card c (xs ++ ys) = (count_card c xs + count_card c ys)%nat.
Proof. unfold count_card. now rewrite filter_app, length_app. Qed.

Lemma count_card_perm (c : Card) (l l' : list Card) :
  Permutation l l' -> count_card c l = count_card c l'.
Proof.
  unfold count_card.
  induction 1 as [|x l l' Hp IH|x y l|l l' l'' H1 IH1 H2 IH2];
    cbn [filter]; [reflexivity| | |congruence].
  - destruct (Card_eqb c x); cbn [length]; congruence.
  - destruct (Card_eqb c x), (Card_eqb c y); reflexivity.
Qed.

Lemma count_card_one_deck (c : Card) : count_card c one_deck = 1%nat.
Proof. destruct c as [r s]. destruct r, s; reflexivity. Qed.

Lemma count_card_build_decks (c : Card) (d : nat) :
  count_card c (build_decks d) = d.
Proof.
  induction d as [|d IH]; [reflexivity|].
  cbn [build_decks]. rewrite count_card_app, count_card_one_deck, IH.
  reflexivity.
Qed.

Section ShoeComposition.
Context {G : Type} `{ShuffleEngine G}.

(** A shoe that [reset] or the constructor returns holds every card of
    the 52, each as many times as there are decks, with the cursor at the
    start; what the shoe held before is gone. *)
Theorem reset_deck_composition (sh sh' : Shoe G) (decks : Z) :
  reset sh decks = Ok sh' ->
  0 <= decks
  /\ next_ sh' = O
  /\ (forall c : Card, count_card c (cards_ sh') = Z.to_nat decks)
  /\ (forall seed sh0, new_Shoe decks seed = Ok sh0 ->
        forall c : Card, count_card c (cards_ sh0) = Z.to_nat decks).
Proof.
  intros Hr.
  assert (Hcount : forall s s0 : Shoe G, reset s decks = Ok s0 ->
            forall c, count_card c (cards_ s0) = Z.to_nat decks).
  { intros s s0 Hs c. destruct (reset_ok _ _ _ Hs) as (_ & Hp & _).
    rewrite <- (count_card_perm c _ _ Hp). apply count_card_build_decks. }
  destruct (reset_ok _ _ _ Hr) as (Hn & _ & Hl).
  split; [lia|]. split; [exact Hn|]. split; [exact (Hcount sh sh' Hr)|].
  intros seed sh0 Hnew. exact (Hcount _ sh0 Hnew).
Qed.

(** The ways [reset] ends, by the number of decks asked for: a product
    [decks * 52] outside [int] is undefined; a negative number makes
    [reserve] throw; zero leaves an empty shoe, from which a draw is
    undefined; any other number returns a shoe that can be drawn from. *)
Theorem reset_edge_cases (sh : Shoe G) (decks : Z) :
  (in_int (decks * 52) = false -> reset sh decks = Err Undefined)
  /\ (in_int (decks * 52) = true -> decks < 0 ->
      reset sh decks = Err LengthError)
  /\ (decks = 0 ->
      exists sh', reset sh decks = Ok sh' /\ cards_ sh' = []
                  /\ draw sh' = Err Undefined)
  /\ (in_int (decks * 52) = true -> 0 < decks ->
      exists sh' c sh'', reset sh decks = Ok sh' /\ draw sh' = Ok (c, sh'')).
Proof.
  repeat split.
  - intros Hi. unfold reset. now rewrite Hi.
  - intros Hi Hneg. unfold reset. rewrite Hi. cbn [negb].
    destruct (decks * 52 <? 0) eqn:E; [reflexivity|].
    apply Z.ltb_ge in E. lia.
  - intros ->. destruct (reset sh 0) as [sh'|e] eqn:E;
      [|vm_compute in E; discriminate].
    exists sh'. split; [reflexivity|].
    destruct (reset_ok _ _ _ E) as (_ & _ & Hl).
    assert (He : cards_ sh' = []).
    { destruct (cards_ sh'); [reflexivity | cbn [length] in Hl; lia]. }
    split; [exact He | now apply draw_empty].
  - intros Hi Hpos. destruct (reset sh decks) as [sh'|e] eqn:Hr.
    + destruct (reset_ok _ _ _ Hr) as (_ & _ & Hl).
      destruct (draw_total sh') as (c & sh'' & Hd & _).
      { intros He. rewrite He in Hl. cbn [length] in Hl. lia. }
      exists sh', c, sh''. split; [reflexivity | exact Hd].
    + exfalso. unfold reset in Hr. rewrite Hi in Hr. cbn [negb] in Hr.
      destruct (decks * 52 <? 0) eqn:E; [|discriminate].
      apply Z.ltb_lt in E. lia.
Qed.

Lemma draw_conserves (sh sh' : Shoe G) (c : Card) :
  draw sh = Ok (c, sh') ->
  Permutation (cards_ sh) (cards_ sh')
  /\ In c (cards_ sh)
  /\ exists n : nat, next_ sh' = S n /\ nth_error (cards_ sh') n = Some c.
Proof.
  unfold draw. intros Hd.
  set (sh1 := if (length (cards_ sh) <=? next_ sh)%nat then _ else sh) in Hd.
  assert (Hp : Permutation (cards_ sh) (cards_ sh1)).
  { unfold sh1. destruct (_ <=? _)%nat; [|reflexivity].
    cbn [cards_]. apply shuffle_perm. }
  destruct (nth_error (cards_ sh1) (next_ sh1)) as [c'|] eqn:En;
    [|discriminate].
  injection Hd as <- <-. cbn [cards_ next_].
  split; [exact Hp|]. split.
  { apply (Permutation_in _ (Permutation_sym Hp)).
    exact (nth_error_In _ _ En). }
  exists (next_ sh1). auto.
Qed.

(** A draw takes a card that the shoe holds and leaves the shoe holding
    the same cards, the card drawn among them just before the cursor:
    drawn cards stay in the shoe, and the shoe never changes size. *)
Theorem draw_conserves_cards (sh sh' : Shoe G) (c : Card) :
  draw sh = Ok (c, sh') ->
  Permutation (cards_ sh) (cards_ sh')
  /\ In c (cards_ sh)
  /\ (forall x : Card, count_card x (cards_ sh') = count_card x (cards_ sh))
  /\ length (cards_ sh') = length (cards_ sh)
  /\ exists n : nat, next_ sh' = S n /\ nth_error (cards_ sh') n = Some c.
Proof.
  intros Hd. destruct (draw_conserves sh sh' c Hd) as (Hp & Hin & Hn).
  split; [exact Hp|]. split; [exact Hin|].
  split; [intros x; symmetry; now apply count_card_perm|].
  split; [symmetry; now apply Permutation_length | exact Hn].
Qed.
End ShoeComposition.

Lemma reset_deck_composition_witness :
  exists sh' : Shoe nat,
    reset spent_shoe 2 = Ok sh'
    /\ count_card (spade Ace) (cards_ sh') = 2%nat
    /\ next_ sh' = O.
Proof.
  destruct (reset spent_shoe 2) as [sh'|e] eqn:E;
    [|vm_compute in E; discriminate].
  exists sh'. split; [reflexivity|].
  destruct (reset_deck_composition spent_shoe sh' 2 E) as (_ & Hn & Hc & _).
  split; [exact (Hc (spade Ace)) | exact Hn].
Defined.

Lemma reset_edge_cases_witness :
  in_int (-1 * 52) = true
  /\ reset spent_shoe (-1) = Err LengthError
  /\ exists sh', reset spent_shoe 0 = Ok sh' /\ draw sh' = Err Undefined.
Proof.
  destruct (reset_edge_cases spent_shoe (-1)) as (_ & Hneg & _ & _).
  destruct (reset_edge_cases spent_shoe 0) as (_ & _ & Hzero & _).
  split; [reflexivity|].
  split; [apply Hneg; [reflexivity | lia]|].
  destruct (Hzero eq_refl) as (sh' & Hr & _ & Hd).
  exists sh'. split; assumption.
Defined.

Lemma draw_conserves_cards_witness :
  exists c sh',
    draw spent_shoe = Ok (c, sh')
    /\ Permutation (cards_ spent_shoe) (cards_ sh')
    /\ In c (cards_ spent_shoe).
Proof.
  destruct (draw spent_shoe) as [[c sh']|e] eqn:E;
    [|vm_compute in E; discriminate].
  exists c, sh'. split; [reflexivity|].
  destruct (draw_conserves_cards spent_shoe sh' c E) as (Hp & Hin & _).
  split; assumption.
Defined.

(** ** Cards through the player loop *)

Section RunFacts.
Context {G : Type} `{ShuffleEngine G}.
Context {St : Type} `{Strategy St}.

Local Abbreviation Round := (Round G St).

Lemma deal_player_cards (r r' : Round) :
  deal_player r = Ok r' ->
  Permutation (cards_ (shoe_ r)) (cards_ (shoe_ r'))
  /\ rules_ r' = rules_ r /\ bet_ r' = bet_ r /\ strat_ r' = strat_ r
  /\ dealer_ r' = dealer_ r /\ asked_ r' = asked_ r
  /\ exists c, In c (cards_ (shoe_ r)) /\ player_ r' = add (player_ r) c.
Proof.
  intros Hd. apply deal_player_ok in Hd as (c & sh & Hdraw & ->).
  destruct (draw_conserves _ _ _ Hdraw) as (Hp & Hin & _).
  cbn. repeat split; auto. exists c. auto.
Qed.

Lemma deal_dealer_cards (r r' : Round) :
  deal_dealer r = Ok r' ->
  Permutation (cards_ (shoe_ r)) (cards_ (shoe_ r'))
  /\ rules_ r' = rules_ r /\ bet_ r' = bet_ r /\ strat_ r' = strat_ r
  /\ player_ r' = player_ r /\ asked_ r' = asked_ r
  /\ exists c, In c (cards_ (shoe_ r)) /\ dealer_ r' = add (dealer_ r) c.
Proof.
  intros Hd. apply deal_dealer_ok in Hd as (c & sh & Hdraw & ->).
  destruct (draw_conserves _ _ _ Hdraw) as (Hp & Hin & _).
  cbn. repeat split; auto. exists c. auto.
Qed.

Lemma ask_frame (k : QueryKind) (r r' : Round) (cd : bool) (d : Decision) :
  ask k r cd = (d, r') ->
  rules_ r' = rules_ r /\ shoe_ r' = shoe_ r /\ bet_ r' = bet_ r
  /\ player_ r' = player_ r /\ dealer_ r' = dealer_ r.
Proof.
  intros Ha. destruct (ask_inv _ _ _ _ _ Ha) as (st & _ & ->).
  cbn. auto.
Qed.

(** The player turn leaves the shoe with the cards it had, the dealer
    hand and the rules as they were, and the player hand with cards of
    the shoe appended. *)
Lemma turn_run_cards (r r' : Round) (cd : bool) (exit : LoopExit) :
  turn_run r cd exit r' ->
  Permutation (cards_ (shoe_ r)) (cards_ (shoe_ r'))
  /\ rules_ r' = rules_ r /\ bet_ r' = bet_ r /\ dealer_ r' = dealer_ r
  /\ exists drawn,
       cards (player_ r') = cards (player_ r) ++ drawn
       /\ Forall (fun c => In c (cards_ (shoe_ r))) drawn.
Proof.
  induction 1 as [r r0 cd Ho|r r0 r1 r2 Ho Ha Hd|r r0 r1 cd d Ho Ha Hn Hl
                  |r r0 r1 r2 cd Ho Ha Hd Hb
                  |r r0 r1 r2 r' cd exit Ho Ha Hd Hb Hrun IH].
  - destruct (offer_step_inv _ _ _ _ Ho) as (Hr & Hs & Hbt & Hp & Hdl & _).
    unfold with_hands. cbn. rewrite Hr, Hs, Hbt, Hp, Hdl.
    repeat split; auto. exists []. now rewrite app_nil_r.
  - destruct (offer_step_inv _ _ _ _ Ho) as (Hr & Hs & Hbt & Hp & Hdl & _).
    destruct (ask_frame _ _ _ _ _ Ha) as (Hr1 & Hs1 & Hb1 & Hp1 & Hd1).
    destruct (deal_player_cards _ _ Hd)
      as (Hperm & Hr2 & Hb2 & _ & Hd2 & _ & c & Hin & Hp2).
    unfold with_hands in *. cbn in *.
    rewrite Hs1, Hs in Hperm, Hin.
    repeat split; try congruence; auto.
    exists [c]. split; [|now constructor].
    rewrite Hp2. cbn. congruence.
  - destruct (offer_step_inv _ _ _ _ Ho) as (Hr & Hs & Hbt & Hp & Hdl & _).
    destruct (ask_frame _ _ _ _ _ Ha) as (Hr1 & Hs1 & Hb1 & Hp1 & Hd1).
    rewrite Hs1, Hs. repeat split; try congruence; auto.
    exists []. rewrite app_nil_r. split; [congruence | constructor].
  - destruct (offer_step_inv _ _ _ _ Ho) as (Hr & Hs & Hbt & Hp & Hdl & _).
    destruct (ask_frame _ _ _ _ _ Ha) as (Hr1 & Hs1 & Hb1 & Hp1 & Hd1).
    destruct (deal_player_cards _ _ Hd)
      as (Hperm & Hr2 & Hb2 & _ & Hd2 & _ & c & Hin & Hp2).
    rewrite Hs1, Hs in Hperm, Hin.
    repeat split; try congruence; auto.
    exists [c]. split; [|now constructor].
    rewrite Hp2. cbn. congruence.
  - destruct (offer_step_inv _ _ _ _ Ho) as (Hr & Hs & Hbt & Hp & Hdl & _).
    destruct (ask_frame _ _ _ _ _ Ha) as (Hr1 & Hs1 & Hb1 & Hp1 & Hd1).
    destruct (deal_player_cards _ _ Hd)
      as (Hperm & Hr2 & Hb2 & _ & Hd2 & _ & c & Hin & Hp2).
    rewrite Hs1, Hs in Hperm, Hin.
    destruct IH as (Hperm' & Hr' & Hb' & Hd' & drawn & Hcards & Hall).
    split; [now rewrite Hperm|].
    repeat split; try congruence.
    exists (c :: drawn). split.
    + rewrite Hcards, Hp2. cbn. rewrite <- app_assoc. cbn. congruence.
    + constructor; [exact Hin|].
      eapply Forall_impl; [|exact Hall]. intros x Hx.
      exact (Permutation_in _ (Permutation_sym Hperm) Hx).
Qed.

(** A turn ends in surrender only on the offer: under rules that allow
    surrender, on the two cards the turn started with, with nothing drawn;
    and the hand is flagged surrendered exactly then. *)
Lemma turn_run_surrender (r r' : Round) (cd : bool) (exit : LoopExit) :
  turn_run r cd exit r' ->
  (2 <= length (cards (player_ r)))%nat ->
  surrendered (player_ r) = false ->
  (exit = Return PlayerSurrender ->
     surrender (rules_ r) = true
     /\ cards (player_ r') = cards (player_ r)
     /\ length (cards (player_ r)) = 2%nat
     /\ shoe_ r' = shoe_ r)
  /\ (surrendered (player_ r') = true <-> exit = Return PlayerSurrender).
Proof.
  induction 1 as [r r0 cd Ho|r r0 r1 r2 Ho Ha Hd|r r0 r1 cd d Ho Ha Hn Hl
                  |r r0 r1 r2 cd Ho Ha Hd Hb
                  |r r0 r1 r2 r' cd exit Ho Ha Hd Hb Hrun IH];
    intros Hlen Hsur.
  - destruct (offer_step_inv _ _ _ _ Ho)
      as (Hr & Hs & Hbt & Hp & Hdl & [(_ & Hg & _)|(Hsr & Hl2 & _)]);
      [discriminate|].
    unfold with_hands. cbn. rewrite Hp, Hs. repeat split; auto.
  - destruct (offer_step_inv _ _ _ _ Ho) as (Hr & Hs & Hbt & Hp & Hdl & _).
    destruct (ask_frame _ _ _ _ _ Ha) as (Hr1 & Hs1 & Hb1 & Hp1 & Hd1).
    destruct (deal_player_cards _ _ Hd) as (_ & _ & _ & _ & _ & _ & c & _ & Hp2).
    split; [discriminate|]. rewrite Hp2. unfold with_hands. cbn.
    rewrite Hp1, Hp, Hsur. split; discriminate.
  - destruct (offer_step_inv _ _ _ _ Ho) as (Hr & Hs & Hbt & Hp & Hdl & _).
    destruct (ask_frame _ _ _ _ _ Ha) as (Hr1 & Hs1 & Hb1 & Hp1 & Hd1).
    split; [discriminate|]. rewrite Hp1, Hp, Hsur. split; discriminate.
  - destruct (offer_step_inv _ _ _ _ Ho) as (Hr & Hs & Hbt & Hp & Hdl & _).
    destruct (ask_frame _ _ _ _ _ Ha) as (Hr1 & Hs1 & Hb1 & Hp1 & Hd1).
    destruct (deal_player_cards _ _ Hd) as (_ & _ & _ & _ & _ & _ & c & _ & Hp2).
    split; [discriminate|]. rewrite Hp2. cbn.
    rewrite Hp1, Hp, Hsur. split; discriminate.
  - destruct (offer_step_inv _ _ _ _ Ho) as (Hr & Hs & Hbt & Hp & Hdl & _).
    destruct (ask_frame _ _ _ _ _ Ha) as (Hr1 & Hs1 & Hb1 & Hp1 & Hd1).
    destruct (deal_player_cards _ _ Hd) as (_ & _ & _ & _ & _ & _ & c & _ & Hp2).
    assert (Hlen2 : (3 <= length (cards (player_ r2)))%nat).
    { rewrite Hp2. cbn. rewrite length_app. cbn. rewrite Hp1, Hp. lia. }
    assert (Hsur2 : surrendered (player_ r2) = false).
    { rewrite Hp2. cbn. congruence. }
    destruct (IH ltac:(lia) Hsur2) as [IHs IHf].
    split; [|exact IHf].
    intros He. destruct (IHs He) as (_ & _ & Hl2 & _). lia.
Qed.
End RunFacts.

(** ** Cards and totals through a round *)

Lemma hard_total_cards (h h' : Hand) :
  cards h = cards h' -> hard_total h = hard_total h'.
Proof. unfold hard_total. now intros ->. Qed.

Lemma min_total_upper (h : Hand) :
  min_total h <= 10 * Z.of_nat (length (cards h)).
Proof.
  unfold min_total. induction (cards h) as [|c cs IH]; [cbn; lia|].
  rewrite sum_values_cons, count_aces_cons, (card_value_ace c).
  pose proof (card_value_not_ace c) as Hna. cbn [length].
  destruct (is_ace c); [lia|]. specialize (Hna eq_refl). lia.
Qed.

Lemma min_total_lower (h : Hand) :
  Z.of_nat (length (cards h)) <= min_total h.
Proof.
  unfold min_total. induction (cards h) as [|c cs IH]; [cbn; lia|].
  rewrite sum_values_cons, count_aces_cons, (card_value_ace c).
  pose proof (card_value_range (rank c)). cbn [length].
  destruct (is_ace c); lia.
Qed.

(** Two cards never bust. *)
Lemma two_cards_not_bust (h : Hand) :
  length (cards h) = 2%nat -> is_bust h = false.
Proof.
  intros Hl. destruct (is_bust h) eqn:E; [|reflexivity].
  apply is_bust_min_total in E. pose proof (min_total_upper h). lia.
Qed.

(** A hand that is not bust holds at most 21 cards. *)
Lemma not_bust_size (h : Hand) :
  is_bust h = false -> (length (cards h) <= 21)%nat.
Proof.
  intros Hb. pose proof (min_total_lower h) as Hl.
  pose proof (hard_total_ge_min h) as Hge.
  apply Z.ltb_ge in Hb. lia.
Qed.

Section CardsThroughRound.
Context {G : Type} `{ShuffleEngine G}.
Context {St : Type} `{Strategy St}.

Local Abbreviation Round := (Round G St).

Lemma draw_many_conserves (k : nat) :
  forall (sh sh' : Shoe G) (cs : list Card),
    draw_many k sh = Ok (cs, sh') ->
    Permutation (cards_ sh) (cards_ sh')
    /\ length cs = k
    /\ Forall (fun c => In c (cards_ sh)) cs.
Proof.
  induction k as [|k IH]; intros sh sh' cs Hd.
  - injection Hd as <- <-.
    split; [reflexivity|]. split; [reflexivity | constructor].
  - cbn [draw_many] in Hd.
    apply bind_ok in Hd as ([c sh1] & Hd1 & Hd).
    apply bind_ok in Hd as ([cs' sh2] & Hd2 & [= <- <-]).
    destruct (draw_conserves _ _ _ Hd1) as (Hp1 & Hin & _).
    destruct (IH _ _ _ Hd2) as (Hp2 & Hl & Hall).
    split; [now rewrite Hp1|]. split; [cbn; now rewrite Hl|].
    constructor; [exact Hin|].
    eapply Forall_impl; [|exact Hall]. intros x Hx. cbn beta in Hx |- *.
    exact (Permutation_in _ (Permutation_sym Hp1) Hx).
Qed.

(** The dealer turn: the cards drawn are appended to the dealer hand, each
    drawn on a hard total below 17; a hand that starts at 17 or more, soft
    or hard, is left as it is; the shoe keeps its cards; and the total
    ends at 26 or less. *)
Lemma dealer_turn_trace (fuel : nat) :
  forall r r' : Round,
    dealer_turn fuel r = Ok r' ->
    Permutation (cards_ (shoe_ r)) (cards_ (shoe_ r'))
    /\ (17 <= hard_total (dealer_ r) -> r' = r)
    /\ (hard_total (dealer_ r) <= 26 -> hard_total (dealer_ r') <= 26)
    /\ exists drawn,
         cards (dealer_ r') = cards (dealer_ r) ++ drawn
         /\ Forall (fun c => In c (cards_ (shoe_ r))) drawn
         /\ forall j : nat,
              (j < length drawn)%nat ->
              hard_total (hand_of (cards (dealer_ r) ++ firstn j drawn)) < 17.
Proof.
  induction fuel as [|fuel IH]; intros r r' Hrun; [discriminate|].
  cbn [dealer_turn] in Hrun. rewrite is_soft_never, andb_false_r in Hrun.
  destruct (hard_total (dealer_ r) <? 17) eqn:E.
  - apply Z.ltb_lt in E.
    apply bind_ok in Hrun as (r1 & Hdeal & Hrun).
    destruct (deal_dealer_cards _ _ Hdeal)
      as (Hp1 & _ & _ & _ & _ & _ & c & Hin & Hd1).
    destruct (IH _ _ Hrun) as (Hp & _ & Hle & drawn & Hcards & Hall & Hlow).
    split; [now rewrite Hp1|]. split; [lia|]. split.
    { intros _. apply Hle. rewrite Hd1.
      pose proof (hard_total_add_upper (dealer_ r) c). lia. }
    exists (c :: drawn). split.
    { rewrite Hcards, Hd1. cbn. now rewrite <- app_assoc. }
    split.
    { constructor; [exact Hin|].
      eapply Forall_impl; [|exact Hall]. intros x Hx. cbn beta in Hx |- *.
      exact (Permutation_in _ (Permutation_sym Hp1) Hx). }
    intros [|j] Hj.
    + cbn [firstn]. rewrite app_nil_r.
      rewrite (hard_total_cards _ (dealer_ r)) by reflexivity. exact E.
    + cbn [firstn length] in *. specialize (Hlow j ltac:(lia)).
      rewrite Hd1 in Hlow. cbn [cards add] in Hlow.
      rewrite <- app_assoc in Hlow. exact Hlow.
  - injection Hrun as <-. apply Z.ltb_ge in E.
    split; [reflexivity|]. split; [reflexivity|]. split; [auto|].
    exists []. rewrite app_nil_r. split; [reflexivity|].
    split; [constructor|]. intros j Hj. cbn in Hj. lia.
Qed.

Lemma turn_run_return (r r' : Round) (cd : bool) (oc : Outcome) :
  turn_run r cd (Return oc) r' ->
  oc = PlayerSurrender \/ (oc = PlayerBust /\ is_bust (player_ r') = true).
Proof.
  remember (Return oc) as exit eqn:He.
  induction 1 as [r r0 cd Ho|r r0 r1 r2 Ho Ha Hd|r r0 r1 cd d Ho Ha Hn Hl
                  |r r0 r1 r2 cd Ho Ha Hd Hb
                  |r r0 r1 r2 r' cd exit Ho Ha Hd Hb Hrun IH];
    try discriminate.
  - injection He as <-. auto.
  - injection He as <-. auto.
  - auto.
Qed.

(** The hand a player turn leaves is the hand it started with, or a hand
    that was not bust with one card added; one left by [break] without a
    double is not bust. *)
Lemma turn_run_last_card (r r' : Round) (cd : bool) (exit : LoopExit) :
  turn_run r cd exit r' ->
  is_bust (player_ r) = false ->
  (cards (player_ r') = cards (player_ r)
   \/ exists (p : Hand) (c : Card),
        is_bust p = false /\ cards (player_ r') = cards p ++ [c])
  /\ (exit = Break -> doubled (player_ r') = doubled (player_ r) ->
      doubled (player_ r) = false ->
      is_bust (player_ r') = false).
Proof.
  induction 1 as [r r0 cd Ho|r r0 r1 r2 Ho Ha Hd|r r0 r1 cd d Ho Ha Hn Hl
                  |r r0 r1 r2 cd Ho Ha Hd Hb
                  |r r0 r1 r2 r' cd exit Ho Ha Hd Hb Hrun IH];
    intros Hnb.
  - destruct (offer_step_inv _ _ _ _ Ho) as (_ & _ & _ & Hp & _).
    unfold with_hands. cbn. rewrite Hp. split; [now left | discriminate].
  - destruct (offer_step_inv _ _ _ _ Ho) as (_ & _ & _ & Hp & _).
    destruct (ask_frame _ _ _ _ _ Ha) as (_ & _ & _ & Hp1 & _).
    destruct (deal_player_cards _ _ Hd) as (_ & _ & _ & _ & _ & _ & c & _ & Hp2).
    unfold with_hands in Hp2. cbn in Hp2. split.
    + right. exists (player_ r), c. split; [exact Hnb|].
      rewrite Hp2. cbn. congruence.
    + intros _ Hdd Hd0. rewrite Hp2 in Hdd. cbn in Hdd. congruence.
  - destruct (offer_step_inv _ _ _ _ Ho) as (_ & _ & _ & Hp & _).
    destruct (ask_frame _ _ _ _ _ Ha) as (_ & _ & _ & Hp1 & _).
    rewrite Hp1, Hp. split; [now left | auto].
  - destruct (offer_step_inv _ _ _ _ Ho) as (_ & _ & _ & Hp & _).
    destruct (ask_frame _ _ _ _ _ Ha) as (_ & _ & _ & Hp1 & _).
    destruct (deal_player_cards _ _ Hd) as (_ & _ & _ & _ & _ & _ & c & _ & Hp2).
    split; [|discriminate].
    right. exists (player_ r), c. split; [exact Hnb|].
    rewrite Hp2. cbn. congruence.
  - destruct (offer_step_inv _ _ _ _ Ho) as (_ & _ & _ & Hp & _).
    destruct (ask_frame _ _ _ _ _ Ha) as (_ & _ & _ & Hp1 & _).
    destruct (deal_player_cards _ _ Hd) as (_ & _ & _ & _ & _ & _ & c & _ & Hp2).
    destruct (IH Hb) as [IHc IHb]. split.
    + destruct IHc as [Hsame|Hadd]; [|right; exact Hadd].
      right. exists (player_ r), c. split; [exact Hnb|].
      rewrite Hsame, Hp2. cbn. congruence.
    + intros He Hdd Hd0.
      assert (Hd2 : doubled (player_ r2) = doubled (player_ r)).
      { rewrite Hp2. cbn. congruence. }
      apply IHb; congruence.
Qed.
End CardsThroughRound.

Lemma Forall_In_perm (l l' cs : list Card) :
  Permutation l l' ->
  Forall (fun c => In c l') cs -> Forall (fun c => In c l) cs.
Proof.
  intros Hp Hall. eapply Forall_impl; [|exact Hall].
  intros x Hx. cbn beta in Hx |- *.
  exact (Permutation_in _ (Permutation_sym Hp) Hx).
Qed.

Section RoundProperties.
Context {G : Type} `{ShuffleEngine G}.
Context {St : Type} `{Strategy St}.

Local Abbreviation Round := (Round G St).

(** The stages of a round that returned: the deal, and then either an
    immediate settlement on the two-card hands, or the player turn,
    followed by a settlement or by the dealer turn and the comparison. *)
Lemma play_stages (r r' : Round) (rr : RoundResult) :
  play r = Ok (rr, r') ->
  exists (c1 c2 c3 c4 : Card) (sh4 : Shoe G) (r4 : Round),
    draw_many 4 (shoe_ r) = Ok ([c1; c2; c3; c4], sh4)
    /\ r4 = mkRound (rules_ r) sh4 (strat_ r) (bet_ r)
                    (hand_of [c1; c3]) (hand_of [c2; c4]) (asked_ r)
    /\ ((r' = r4
         /\ ((peek_for_blackjack (rules_ r) = true
              /\ is_blackjack (dealer_ r4) = true
              /\ outcome rr
                 = (if is_blackjack (player_ r4) then Push else DealerBJ))
             \/ ((peek_for_blackjack (rules_ r) = false
                  \/ is_blackjack (dealer_ r4) = false)
                 /\ is_blackjack (player_ r4) = true
                 /\ outcome rr = PlayerBJ)))
        \/ (is_blackjack (player_ r4) = false
            /\ exists (exit : LoopExit) (r5 : Round),
                 turn_run r4 (double_allowed (rules_ r)) exit r5
                 /\ player_turn loop_fuel r4 (double_allowed (rules_ r))
                    = Ok (exit, r5)
                 /\ ((r' = r5 /\ exit = Return (outcome rr))
                     \/ (exit = Break
                         /\ dealer_turn loop_fuel r5 = Ok r'
                         /\ outcome rr
                            = compare_totals (player_ r') (dealer_ r')))))
    /\ settle r' (outcome rr) = Ok rr.
Proof.
  intros Hplay.
  destruct (play_cases r r' rr Hplay) as (r4 & Hdeal & Hcases).
  destruct (initial_deal_ok r r4 Hdeal)
    as (c1 & c2 & c3 & c4 & sh & Hdraws & Hr4).
  exists c1, c2, c3, c4, sh, r4. split; [exact Hdraws|].
  split; [exact Hr4|].
  assert (Hrl : rules_ r4 = rules_ r) by (subst r4; reflexivity).
  rewrite Hrl in Hcases.
  destruct Hcases as [(Hpk & -> & Hs)|[(Hpk & Hbj & -> & Hs)|Hturn]].
  - apply andb_true_iff in Hpk as [Hpeek Hdbj].
    destruct (settle_outcome _ _ _ Hs) as (Hoc & _).
    split; [|now rewrite Hoc].
    left. split; [reflexivity|]. left. auto.
  - destruct (settle_outcome _ _ _ Hs) as (Hoc & _).
    split; [|now rewrite Hoc].
    left. split; [reflexivity|]. right.
    apply andb_false_iff in Hpk. auto.
  - destruct Hturn as (_ & Hnbj & exit & r5 & Hpt & Hend).
    pose proof (player_turn_run _ _ _ _ _ Hpt) as Hrun.
    destruct Hend as [(oc & -> & -> & Hs)|(-> & Hdt & Hs)];
      destruct (settle_outcome _ _ _ Hs) as (Hoc & _);
      (split; [|now rewrite Hoc]); right; (split; [exact Hnbj|]);
      eexists; exists r5; (split; [exact Hrun|]); (split; [exact Hpt|]).
    + left. now rewrite Hoc.
    + right. auto.
Qed.

(** A round leaves the shoe holding the cards it held, each as often as
    before, and every card of the two hands is a card of the shoe: the
    cards dealt are not taken out of the shoe. *)
Theorem play_conserves_shoe (r r' : Round) (rr : RoundResult) :
  play r = Ok (rr, r') ->
  Permutation (cards_ (shoe_ r)) (cards_ (shoe_ r'))
  /\ (forall x : Card,
        count_card x (cards_ (shoe_ r')) = count_card x (cards_ (shoe_ r)))
  /\ Forall (fun c => In c (cards_ (shoe_ r)))
            (cards (player_ r') ++ cards (dealer_ r')).
Proof.
  intros Hplay.
  assert (Hmain :
    Permutation (cards_ (shoe_ r)) (cards_ (shoe_ r'))
    /\ Forall (fun c => In c (cards_ (shoe_ r)))
              (cards (player_ r') ++ cards (dealer_ r'))).
  { destruct (play_stages r r' rr Hplay)
      as (c1 & c2 & c3 & c4 & sh4 & r4 & Hdraws & Hr4 & Hpath & _).
    destruct (draw_many_conserves 4 _ _ _ Hdraws) as (Hp4 & _ & Hall4).
    assert (Hin : forall c, In c [c1; c2; c3; c4] ->
                            In c (cards_ (shoe_ r))).
    { intros c Hc. rewrite Forall_forall in Hall4. auto. }
    assert (Hp4' : Permutation (cards_ (shoe_ r)) (cards_ (shoe_ r4)))
      by (subst r4; exact Hp4).
    assert (Hh4 : Forall (fun c => In c (cards_ (shoe_ r)))
                         (cards (player_ r4))
                  /\ Forall (fun c => In c (cards_ (shoe_ r)))
                            (cards (dealer_ r4))).
    { subst r4. cbn. split; repeat constructor; apply Hin; cbn; auto. }
    destruct Hh4 as [Hpl4 Hdl4].
    destruct Hpath as [(-> & _)|(_ & exit & r5 & Hrun & _ & Hend)].
    { split; [exact Hp4'|]. apply Forall_app. auto. }
    destruct (turn_run_cards _ _ _ _ Hrun)
      as (Hp5 & _ & _ & Hd5 & drawn & Hc5 & Hall5).
    apply (Forall_In_perm _ _ _ Hp4') in Hall5.
    assert (Hpl5 : Forall (fun c => In c (cards_ (shoe_ r)))
                          (cards (player_ r5))).
    { rewrite Hc5. apply Forall_app. auto. }
    destruct Hend as [(-> & _)|(_ & Hdt & _)].
    { split; [now rewrite Hp4'|]. apply Forall_app. rewrite Hd5. auto. }
    destruct (dealer_turn_trace _ _ _ Hdt)
      as (Hp6 & _ & _ & drawn' & Hc6 & Hall6 & _).
    destruct (dealer_turn_ok _ _ _ Hdt) as (_ & _ & _ & Hpl6 & _).
    apply (Forall_In_perm _ _ _ Hp5) in Hall6.
    apply (Forall_In_perm _ _ _ Hp4') in Hall6.
    split; [now rewrite Hp4', Hp5|].
    apply Forall_app. rewrite Hpl6, Hc6, Hd5. split; [exact Hpl5|].
    apply Forall_app. auto. }
  destruct Hmain as [Hp Hall]. split; [exact Hp|]. split; [|exact Hall].
  intros x. symmetry. now apply count_card_perm.
Qed.

(** What the outcome reported says of the hands the round ended with.  The
    totals reported are the hard totals of the final hands.  A blackjack
    outcome is a two-card 21; DealerBJ is reported under the peek only;
    PlayerBust is a player total above 21 on a hand not doubled;
    DealerBust is a dealer total above 21; PlayerWin and DealerWin compare
    the totals against a dealer total between 17 and 21; Push is equal
    totals; PlayerSurrender is a hand flagged surrendered. *)
Theorem outcome_sound (r r' : Round) (rr : RoundResult) :
  play r = Ok (rr, r') ->
  player_total rr = hard_total (player_ r')
  /\ dealer_total rr = hard_total (dealer_ r')
  /\ match outcome rr with
     | PlayerBJ =>
         is_blackjack (player_ r') = true
         /\ (peek_for_blackjack (rules_ r) = false
             \/ is_blackjack (dealer_ r') = false)
     | DealerBJ =>
         peek_for_blackjack (rules_ r) = true
         /\ is_blackjack (dealer_ r') = true
         /\ is_blackjack (player_ r') = false
     | PlayerBust =>
         21 < player_total rr /\ doubled (player_ r') = false
     | DealerBust => 21 < dealer_total rr
     | PlayerWin =>
         dealer_total rr < player_total rr /\ 17 <= dealer_total rr <= 21
     | DealerWin =>
         player_total rr < dealer_total rr /\ 17 <= dealer_total rr <= 21
     | Push => player_total rr = dealer_total rr
     | PlayerSurrender => surrendered (player_ r') = true
     end.
Proof.
  intros Hplay.
  destruct (play_stages r r' rr Hplay)
    as (c1 & c2 & c3 & c4 & sh4 & r4 & Hdraws & Hr4 & Hpath & Hs).
  destruct (settle_outcome _ _ _ Hs) as (_ & Hpt & Hdt).
  split; [exact Hpt|]. split; [exact Hdt|]. rewrite Hpt, Hdt.
  assert (Hflags : doubled (player_ r4) = false
                   /\ surrendered (player_ r4) = false
                   /\ length (cards (player_ r4)) = 2%nat)
    by (subst r4; auto).
  destruct Hflags as (Hd4 & Hs4 & Hl4).
  destruct Hpath as [(-> & Hearly)|(Hnbj & exit & r5 & Hrun & Hpturn & Hend)].
  - destruct Hearly as [(Hpeek & Hdbj & ->)|(Hno & Hpbj & ->)].
    + destruct (is_blackjack (player_ r4)) eqn:Hpbj; [|auto].
      unfold is_blackjack in Hpbj, Hdbj.
      apply andb_true_iff in Hpbj as [_ Hp21].
      apply andb_true_iff in Hdbj as [_ Hd21].
      apply Z.eqb_eq in Hp21, Hd21. congruence.
    + auto.
  - destruct Hend as [(-> & ->)|(-> & Hdturn & ->)].
    + destruct (turn_run_return _ _ _ _ Hrun) as [Hoc|[Hoc Hbust]];
        rewrite Hoc in *.
      * apply (turn_run_surrender _ _ _ _ Hrun); [lia | exact Hs4 | auto].
      * split; [now apply Z.ltb_lt|].
        destruct (doubled (player_ r5)) eqn:Edbl; [|reflexivity].
        destruct (player_turn_log _ _ _ _ _ Hpturn)
          as (_ & _ & _ & new & _ & Htl).
        destruct (turn_log_doubled _ _ _ _ _ Htl Hd4 Edbl) as [He _].
        discriminate.
    + destruct (dealer_turn_ok _ _ _ Hdturn) as (_ & _ & _ & _ & _ & H17).
      unfold compare_totals, is_bust.
      destruct (21 <? hard_total (dealer_ r')) eqn:E1;
        [now apply Z.ltb_lt|].
      apply Z.ltb_ge in E1.
      destruct (hard_total (dealer_ r') <? hard_total (player_ r')) eqn:E2;
        [apply Z.ltb_lt in E2; lia|].
      apply Z.ltb_ge in E2.
      destruct (hard_total (player_ r') <? hard_total (dealer_ r')) eqn:E3;
        [apply Z.ltb_lt in E3; lia|].
      apply Z.ltb_ge in E3. lia.
Qed.
End RoundProperties.

Lemma play_conserves_shoe_witness :
  exists rr r',
    play (H0 := AlwaysDouble) doubled_bust_both = Ok (rr, r')
    /\ Permutation (cards_ (shoe_ doubled_bust_both)) (cards_ (shoe_ r'))
    /\ count_card (diamond Ten) (cards_ (shoe_ r')) = 1%nat.
Proof.
  destruct (play (H0 := AlwaysDouble) doubled_bust_both)
    as [[rr r']|e] eqn:E; [|vm_compute in E; discriminate].
  exists rr, r'. split; [reflexivity|].
  destruct (play_conserves_shoe (H0 := AlwaysDouble) _ _ _ E)
    as (Hp & Hc & _).
  split; [exact Hp|]. rewrite Hc. reflexivity.
Defined.

Lemma outcome_sound_witness :
  exists rr r',
    play (H0 := AlwaysDouble) doubled_bust_win = Ok (rr, r')
    /\ outcome rr = PlayerWin
    /\ dealer_total rr < player_total rr
    /\ 17 <= dealer_total rr <= 21.
Proof.
  destruct (play (H0 := AlwaysDouble) doubled_bust_win)
    as [[rr r']|e] eqn:E; [|vm_compute in E; discriminate].
  exists rr, r'. split; [reflexivity|].
  assert (Hoc : outcome rr = PlayerWin)
    by (vm_compute in E; injection E as <- <-; reflexivity).
  destruct (outcome_sound (H0 := AlwaysDouble) _ _ _ E) as (_ & _ & Hm).
  rewrite Hoc in Hm. split; [exact Hoc | exact Hm].
Defined.

Lemma turn_log_size (cd : bool) (p : Hand) (acts : list Query)
      (exit : LoopExit) (p' : Hand) :
  turn_log cd p acts exit p' ->
  doubled p = false ->
  length (cards p')
  = (length (cards p) + count_hits acts
     + (if doubled p' then 1 else 0))%nat.
Proof.
  unfold count_hits.
  induction 1 as [cd p|p s c Hp Hc|cd p s d Hp Hc Hn Hd|cd p s c Hp Hc Hb
                  |cd p s c rest exit p' Hp Hc Hb Htl IH];
    intros Hd0; cbn - [Nat.add].
  - rewrite Hd0. lia.
  - rewrite length_app. cbn. lia.
  - rewrite Hd0. destruct d; try congruence; cbn; lia.
  - rewrite length_app, Hd0. cbn. lia.
  - rewrite IH by exact Hd0. cbn. rewrite length_app. cbn. lia.
Qed.

(** An action answered with anything but Hit or a legal Double ends the
    turn there, by [break], on the hand the query showed. *)
Lemma turn_log_stand_like (cd : bool) (p : Hand) (acts : list Query)
      (exit : LoopExit) (p' : Hand) :
  turn_log cd p acts exit p' ->
  forall (i : nat) (q : Query),
    nth_error acts i = Some q ->
    q_answer q <> Hit ->
    (q_answer q = Double -> can_double (q_situation q) = false) ->
    S i = length acts /\ exit = Break /\ p' = player (q_situation q).
Proof.
  induction 1 as [cd p|p s c Hp Hc|cd p s d Hp Hc Hn Hd|cd p s c Hp Hc Hb
                  |cd p s c rest exit p' Hp Hc Hb Htl IH];
    intros i q Hq Hans Hleg.
  - destruct i; discriminate.
  - destruct i as [|[|i]]; try discriminate. injection Hq as <-.
    cbn in Hleg. specialize (Hleg eq_refl). congruence.
  - destruct i as [|[|i]]; try discriminate. injection Hq as <-.
    cbn. auto.
  - destruct i as [|[|i]]; try discriminate. injection Hq as <-.
    cbn in Hans. congruence.
  - destruct i as [|i].
    + injection Hq as <-. cbn in Hans. congruence.
    + cbn in Hq. destruct (IH i q Hq Hans Hleg) as (Hl & He & Hp').
      cbn. auto.
Qed.

Section RoundShape.
Context {G : Type} `{ShuffleEngine G}.
Context {St : Type} `{Strategy St}.

Local Abbreviation Round := (Round G St).

(** The dealer hand at the end of a round is the two cards of the deal
    followed by the cards drawn, each drawn on a hard total below 17 of
    the cards before it; so the dealer stands on every 17, soft or hard.
    When the round is settled before the dealer turn, by a blackjack, a
    player bust or a surrender, the dealer has drawn nothing; otherwise
    the dealer total is 17 or more. *)
Theorem dealer_draws_below_17 (r r' : Round) (rr : RoundResult) :
  play r = Ok (rr, r') ->
  exists d0 drawn : list Card,
    cards (dealer_ r') = d0 ++ drawn
    /\ length d0 = 2%nat
    /\ (forall j : nat,
          (j < length drawn)%nat ->
          hard_total (hand_of (d0 ++ firstn j drawn)) < 17)
    /\ match outcome rr with
       | PlayerBJ | DealerBJ | PlayerBust | PlayerSurrender => drawn = []
       | DealerBust | PlayerWin | DealerWin | Push =>
           17 <= hard_total (dealer_ r')
       end.
Proof.
  intros Hplay.
  destruct (play_stages r r' rr Hplay)
    as (c1 & c2 & c3 & c4 & sh4 & r4 & Hdraws & Hr4 & Hpath & Hs).
  assert (Hd4 : cards (dealer_ r4) = [c2; c4]) by (subst r4; reflexivity).
  assert (Hnone : forall j : nat, (j < @length Card [])%nat ->
            hard_total (hand_of ([c2; c4] ++ firstn j [])) < 17)
    by (intros j Hj; cbn in Hj; lia).
  destruct Hpath as [(-> & Hearly)|(Hnbj & exit & r5 & Hrun & Hpturn & Hend)].
  - exists [c2; c4], []. rewrite app_nil_r.
    split; [exact Hd4|]. split; [reflexivity|]. split; [exact Hnone|].
    destruct Hearly as [(Hpeek & Hdbj & ->)|(Hno & Hpbj & ->)];
      [|reflexivity].
    destruct (is_blackjack (player_ r4)); [|reflexivity].
    unfold is_blackjack in Hdbj. apply andb_true_iff in Hdbj as [_ Hd21].
    apply Z.eqb_eq in Hd21. lia.
  - destruct (turn_run_cards _ _ _ _ Hrun) as (_ & _ & _ & Hd5 & _).
    destruct Hend as [(-> & He)|(-> & Hdturn & Hoc)].
    + exists [c2; c4], []. rewrite app_nil_r.
      split; [congruence|]. split; [reflexivity|]. split; [exact Hnone|].
      rewrite He in Hrun.
      destruct (turn_run_return _ _ _ _ Hrun) as [->|[-> _]]; reflexivity.
    + destruct (dealer_turn_trace _ _ _ Hdturn)
        as (_ & _ & _ & drawn & Hc6 & _ & Hlow).
      destruct (dealer_turn_ok _ _ _ Hdturn) as (_ & _ & _ & _ & _ & H17).
      exists [c2; c4], drawn. rewrite Hd5, Hd4 in Hc6, Hlow.
      split; [exact Hc6|]. split; [reflexivity|]. split; [exact Hlow|].
      rewrite Hoc. unfold compare_totals.
      destruct (is_bust _); [exact H17|].
      destruct (_ <? _); [exact H17|].
      destruct (_ <? _); exact H17.
Qed.

(** The totals and the sizes of the hands of a round are bounded: the
    player total by 31 and the dealer total by 26, the player hand by 22
    cards and the dealer hand by 17. *)
Theorem round_totals_bounded (r r' : Round) (rr : RoundResult) :
  play r = Ok (rr, r') ->
  0 <= player_total rr <= 31
  /\ 0 <= dealer_total rr <= 26
  /\ (2 <= length (cards (player_ r')) <= 22)%nat
  /\ (2 <= length (cards (dealer_ r')) <= 17)%nat.
Proof.
  intros Hplay.
  destruct (play_stages r r' rr Hplay)
    as (c1 & c2 & c3 & c4 & sh4 & r4 & Hdraws & Hr4 & Hpath & Hs).
  destruct (settle_outcome _ _ _ Hs) as (_ & -> & ->).
  pose proof (min_total_nonneg (player_ r')) as Hp0.
  pose proof (hard_total_ge_min (player_ r')) as Hp1.
  pose proof (min_total_nonneg (dealer_ r')) as Hd0.
  pose proof (hard_total_ge_min (dealer_ r')) as Hd1.
  assert (Hpl4 : length (cards (player_ r4)) = 2%nat)
    by (subst r4; reflexivity).
  assert (Hdl4 : length (cards (dealer_ r4)) = 2%nat)
    by (subst r4; reflexivity).
  pose proof (two_cards_not_bust _ Hpl4) as Hpb4.
  pose proof (two_cards_not_bust _ Hdl4) as Hdb4.
  assert (Hp4 : hard_total (player_ r4) <= 21) by now apply Z.ltb_ge.
  assert (Hd4 : hard_total (dealer_ r4) <= 21) by now apply Z.ltb_ge.
  destruct Hpath as [(-> & _)|(Hnbj & exit & r5 & Hrun & Hpturn & Hend)].
  { repeat split; lia. }
  destruct (turn_run_cards _ _ _ _ Hrun)
    as (_ & _ & _ & Hd5 & drawn & Hc5 & _).
  destruct (turn_run_last_card _ _ _ _ Hrun Hpb4) as [Hlast _].
  assert (Hplayer : hard_total (player_ r5) <= 31
                    /\ (2 <= length (cards (player_ r5)) <= 22)%nat).
  { destruct Hlast as [Hsame|(p & c & Hpnb & Hadd)].
    - rewrite (hard_total_cards _ (player_ r4)) by exact Hsame.
      rewrite Hsame. lia.
    - split.
      + rewrite (hard_total_cards _ (add p c)) by exact Hadd.
        pose proof (hard_total_add_upper p c). apply Z.ltb_ge in Hpnb. lia.
      + pose proof (not_bust_size p Hpnb).
        rewrite Hc5, length_app, Hpl4. split; [lia|].
        rewrite <- Hpl4, <- length_app, <- Hc5, Hadd, length_app. cbn. lia. }
  destruct Hend as [(-> & _)|(_ & Hdturn & _)].
  { rewrite Hd5 in *. repeat split; lia. }
  destruct (dealer_turn_trace _ _ _ Hdturn)
    as (_ & _ & H26 & drawn' & Hc6 & _ & Hlow).
  destruct (dealer_turn_ok _ _ _ Hdturn) as (_ & _ & _ & Hpl6 & _).
  rewrite Hpl6 in *. rewrite Hd5 in H26, Hc6, Hlow.
  specialize (H26 ltac:(lia)).
  assert (Hsize : (2 <= length (cards (dealer_ r')) <= 17)%nat).
  { rewrite Hc6, length_app, Hdl4. split; [lia|].
    destruct (Nat.eq_dec (length drawn') 0) as [Hz|Hnz]; [lia|].
    specialize (Hlow (length drawn' - 1)%nat ltac:(lia)).
    set (h := hand_of (cards (dealer_ r4) ++ firstn (length drawn' - 1) drawn'))
      in Hlow.
    pose proof (min_total_lower h) as Hml.
    pose proof (hard_total_ge_min h) as Hmg.
    unfold h in Hml at 1. cbn [cards hand_of] in Hml.
    rewrite length_app, Hdl4, length_firstn in Hml. lia. }
  repeat split; lia.
Qed.

(** The player hand at the end of a round holds the two cards of the deal,
    one card for each Hit answered, and one more when it is doubled. *)
Theorem player_hand_size (r r' : Round) (rr : RoundResult) :
  play r = Ok (rr, r') ->
  exists new : list Query,
    asked_ r' = asked_ r ++ new
    /\ length (cards (player_ r'))
       = (2 + count_hits (actions new)
          + (if doubled (player_ r') then 1 else 0))%nat.
Proof.
  intros Hplay.
  destruct (play_stages r r' rr Hplay)
    as (c1 & c2 & c3 & c4 & sh4 & r4 & Hdraws & Hr4 & Hpath & Hs).
  assert (Hl4 : length (cards (player_ r4)) = 2%nat
                /\ doubled (player_ r4) = false /\ asked_ r4 = asked_ r)
    by (subst r4; auto).
  destruct Hl4 as (Hl4 & Hd4 & Ha4).
  destruct Hpath as [(-> & _)|(Hnbj & exit & r5 & Hrun & Hpturn & Hend)].
  { exists []. rewrite app_nil_r, Hl4, Hd4. auto. }
  destruct (player_turn_log _ _ _ _ _ Hpturn)
    as (_ & _ & _ & new & Hlog & Htl).
  pose proof (turn_log_size _ _ _ _ _ Htl Hd4) as Hsize.
  rewrite Hl4 in Hsize. rewrite Ha4 in Hlog.
  destruct Hend as [(-> & _)|(_ & Hdturn & _)].
  { exists new. auto. }
  destruct (dealer_turn_ok _ _ _ Hdturn) as (_ & _ & _ & Hp6 & Hl6 & _).
  exists new. rewrite Hp6, Hl6. auto.
Qed.
End RoundShape.

Lemma dealer_draws_below_17_witness :
  exists rr r' drawn,
    play (H0 := AlwaysDouble) doubled_bust_both = Ok (rr, r')
    /\ cards (dealer_ r') = [heart Ten; spade Six] ++ drawn
    /\ 17 <= hard_total (dealer_ r').
Proof.
  destruct (play (H0 := AlwaysDouble) doubled_bust_both)
    as [[rr r']|e] eqn:E; [|vm_compute in E; discriminate].
  destruct (dealer_draws_below_17 (H0 := AlwaysDouble) _ _ _ E)
    as (d0 & drawn & Hc & Hl & _ & Hm).
  assert (Hoc : outcome rr = DealerBust)
    by (vm_compute in E; injection E as <- <-; reflexivity).
  rewrite Hoc in Hm.
  exists rr, r', (skipn 2 (cards (dealer_ r'))).
  split; [reflexivity|]. split; [|exact Hm].
  vm_compute in E. injection E as <- <-. reflexivity.
Defined.

Lemma round_totals_bounded_witness :
  exists rr r',
    play (H0 := AlwaysDouble) doubled_bust_win = Ok (rr, r')
    /\ 0 <= player_total rr <= 31
    /\ 0 <= dealer_total rr <= 26.
Proof.
  destruct (play (H0 := AlwaysDouble) doubled_bust_win)
    as [[rr r']|e] eqn:E; [|vm_compute in E; discriminate].
  exists rr, r'. split; [reflexivity|].
  destruct (round_totals_bounded (H0 := AlwaysDouble) _ _ _ E)
    as (Hp & Hd & _).
  split; assumption.
Defined.

Lemma player_hand_size_witness :
  exists rr r' new,
    play (H0 := HitThenDouble) late_double = Ok (rr, r')
    /\ asked_ r' = asked_ late_double ++ new
    /\ length (cards (player_ r'))
       = (2 + count_hits (actions new)
          + (if doubled (player_ r') then 1 else 0))%nat.
Proof.
  destruct (play (H0 := HitThenDouble) late_double)
    as [[rr r']|e] eqn:E; [|vm_compute in E; discriminate].
  destruct (player_hand_size (H0 := HitThenDouble) _ _ _ E)
    as (new & Hlog & Hsize).
  exists rr, r', new. split; [reflexivity|]. split; assumption.
Defined.

(** ** Surrender *)

Section Surrender.
Context {G : Type} `{ShuffleEngine G}.
Context {St : Type} `{Strategy St}.

Local Abbreviation Round := (Round G St).

(** A turn that ends in surrender, from a hand of two cards or more, has
    made one query: the offer, answered Surrender. *)
Lemma turn_run_surrender_log (r r' : Round) (cd : bool) (exit : LoopExit) :
  turn_run r cd exit r' ->
  (2 <= length (cards (player_ r)))%nat ->
  exit = Return PlayerSurrender ->
  length (cards (player_ r)) = 2%nat
  /\ asked_ r'
     = asked_ r ++ [mkQuery SurrenderOffer
                      (mkSituation (player_ r) (dealer_ r) (rules_ r) cd)
                      Surrender]
  /\ dealer_ r' = dealer_ r /\ doubled (player_ r') = doubled (player_ r).
Proof.
  induction 1 as [r r0 cd Ho|r r0 r1 r2 Ho Ha Hd|r r0 r1 cd d Ho Ha Hn Hl
                  |r r0 r1 r2 cd Ho Ha Hd Hb
                  |r r0 r1 r2 r' cd exit Ho Ha Hd Hb Hrun IH];
    intros Hlen He; try discriminate.
  - destruct (offer_step_inv _ _ _ _ Ho)
      as (_ & _ & _ & Hp & Hdl
          & [(_ & Hg & _)|(_ & Hl2 & d0 & st & _ & Hg & _ & Hlog)]);
      [discriminate|].
    symmetry in Hg. apply Decision_eqb_eq in Hg. subst d0.
    unfold with_hands. cbn. rewrite Hp. auto.
  - destruct (offer_step_inv _ _ _ _ Ho) as (_ & _ & _ & Hp & _).
    destruct (ask_frame _ _ _ _ _ Ha) as (Hr1 & _ & _ & Hp1 & _).
    destruct (deal_player_cards _ _ Hd)
      as (_ & Hr2 & _ & _ & _ & _ & c & _ & Hp2).
    assert (Hlen2 : (3 <= length (cards (player_ r2)))%nat).
    { rewrite Hp2. cbn. rewrite length_app. cbn. rewrite Hp1, Hp. lia. }
    destruct (IH ltac:(lia) He) as (Hl2 & _). lia.
Qed.

(** The outcome is PlayerSurrender exactly when the hand ends flagged
    surrendered.  That happens only under rules that allow surrender and
    only on the offer: both hands hold their two cards, the hand is not
    doubled, and the offer answered Surrender is the one query of the
    round.  A Surrender returned as the action is not a surrender: it ends
    the turn on the hand as it is, as Stand does, and the round is settled
    on the totals. *)
Theorem surrender_only_on_offer (r r' : Round) (rr : RoundResult) :
  play r = Ok (rr, r') ->
  (outcome rr = PlayerSurrender <-> surrendered (player_ r') = true)
  /\ (outcome rr = PlayerSurrender ->
      surrender (rules_ r) = true
      /\ length (cards (player_ r')) = 2%nat
      /\ length (cards (dealer_ r')) = 2%nat
      /\ doubled (player_ r') = false
      /\ exists s : Situation,
           asked_ r' = asked_ r ++ [mkQuery SurrenderOffer s Surrender])
  /\ exists new : list Query,
       asked_ r' = asked_ r ++ new
       /\ forall (i : nat) (q : Query),
            nth_error (actions new) i = Some q ->
            q_answer q = Surrender ->
            S i = length (actions new)
            /\ player_ r' = player (q_situation q)
            /\ outcome rr = compare_totals (player_ r') (dealer_ r').
Proof.
  intros Hplay.
  destruct (play_stages r r' rr Hplay)
    as (c1 & c2 & c3 & c4 & sh4 & r4 & Hdraws & Hr4 & Hpath & Hs).
  assert (H4 : length (cards (player_ r4)) = 2%nat
               /\ length (cards (dealer_ r4)) = 2%nat
               /\ doubled (player_ r4) = false
               /\ surrendered (player_ r4) = false
               /\ asked_ r4 = asked_ r /\ rules_ r4 = rules_ r)
    by (subst r4; cbn; auto 10).
  destruct H4 as (Hpl4 & Hdl4 & Hd4 & Hs4 & Ha4 & Hrl4).
  destruct Hpath as [(-> & Hearly)|(Hnbj & exit & r5 & Hrun & Hpturn & Hend)].
  { assert (Hne : outcome rr <> PlayerSurrender).
    { destruct Hearly as [(_ & _ & ->)|(_ & _ & ->)];
        [destruct (is_blackjack _)|]; discriminate. }
    split; [split; [congruence | rewrite Hs4; discriminate]|].
    split; [congruence|].
    exists []. rewrite app_nil_r. split; [exact Ha4|].
    intros [|i] q Hq; discriminate. }
  destruct (turn_run_surrender _ _ _ _ Hrun ltac:(lia) Hs4) as [Hsur Hflag].
  destruct (player_turn_log _ _ _ _ _ Hpturn)
    as (_ & _ & _ & new & Hlog & Htl).
  rewrite Ha4 in Hlog.
  destruct Hend as [(-> & He)|(-> & Hdturn & Hoc)].
  - split.
    { rewrite Hflag, He. split; [intros ->; reflexivity | congruence]. }
    split.
    { intros Hout. rewrite Hout in He.
      destruct (Hsur He) as (Hrs & Hcs & _ & _).
      destruct (turn_run_surrender_log _ _ _ _ Hrun ltac:(lia) He)
        as (_ & Hl & Hd5 & Hdb).
      rewrite <- Hrl4. split; [exact Hrs|].
      split; [now rewrite Hcs|]. split; [now rewrite Hd5|].
      split; [congruence|]. eexists. rewrite Hl, Ha4. reflexivity. }
    exists new. split; [exact Hlog|].
    intros i q Hq Hans.
    destruct (turn_log_stand_like _ _ _ _ _ Htl i q Hq)
      as (_ & Hbreak & _); [congruence | congruence | congruence].
  - destruct (dealer_turn_ok _ _ _ Hdturn) as (_ & _ & _ & Hp6 & Hl6 & _).
    assert (Hne : outcome rr <> PlayerSurrender).
    { rewrite Hoc. unfold compare_totals.
      destruct (is_bust _); [discriminate|].
      destruct (_ <? _); [discriminate|].
      destruct (_ <? _); discriminate. }
    assert (Hnf : surrendered (player_ r5) <> true).
    { intros Hf. apply Hflag in Hf. discriminate. }
    split; [rewrite Hp6; split; congruence|].
    split; [congruence|].
    exists new. split; [now rewrite Hl6|].
    intros i q Hq Hans.
    destruct (turn_log_stand_like _ _ _ _ _ Htl i q Hq)
      as (Hlen & _ & Hpq); [congruence | congruence|].
    split; [exact Hlen|]. split; [congruence | exact Hoc].
Qed.
End Surrender.

Lemma surrender_only_on_offer_witness :
  exists rr r',
    play (H0 := LateSurrender) surrender_round = Ok (rr, r')
    /\ map (fun q => (q_kind q, q_answer q)) (asked_ r')
       = [(SurrenderOffer, Stand); (Action, Surrender)]
    /\ outcome rr <> PlayerSurrender
    /\ surrendered (player_ r') = false.
Proof.
  destruct (play (H0 := LateSurrender) surrender_round)
    as [[rr r']|e] eqn:E; [|vm_compute in E; discriminate].
  exists rr, r'. split; [reflexivity|].
  destruct (surrender_only_on_offer (H0 := LateSurrender) _ _ _ E)
    as (Hiff & _).
  assert (Hf : surrendered (player_ r') = false)
    by (vm_compute in E; injection E as <- <-; reflexivity).
  split; [vm_compute in E; injection E as <- <-; reflexivity|].
  split; [|exact Hf].
  intros Hout. apply Hiff in Hout. congruence.
Defined.

(** ** The built-in strategy *)

Lemma AlwaysHitUnder17_cases (s : Situation) :
  match AlwaysHitUnder17_decide s with
  | Double =>
      double_allowed (rules s) = true /\ can_double s = true
      /\ length (cards (player s)) = 2%nat
      /\ 9 <= hard_total (player s) <= 11
  | Hit => hard_total (player s) < 17
  | Stand => 17 <= hard_total (player s)
  | Surrender => False
  end.
Proof.
  unfold AlwaysHitUnder17_decide.
  destruct (double_allowed (rules s) && can_double s
            && (length (cards (player s)) =? 2)%nat
            && (9 <=? hard_total (player s))
            && (hard_total (player s) <=? 11)) eqn:E.
  - repeat (apply andb_true_iff in E as [E ?]).
    rewrite Nat.eqb_eq in *. rewrite Z.leb_le in *. auto.
  - destruct (hard_total (player s) <? 17) eqn:E17.
    + now apply Z.ltb_lt.
    + now apply Z.ltb_ge.
Qed.

Section DefaultStrategy.
Context {G : Type} `{ShuffleEngine G}.

Local Abbreviation Round := (Round G unit).

Lemma default_turn (r r' : Round) (cd : bool) (exit : LoopExit) :
  turn_run (H0 := AlwaysHitUnder17) r cd exit r' ->
  is_bust (player_ r) = false ->
  doubled (player_ r) = false ->
  exit <> Return PlayerSurrender
  /\ (doubled (player_ r') = true ->
      length (cards (player_ r')) = 3%nat
      /\ double_allowed (rules_ r) = true
      /\ exit = Break)
  /\ (exit = Break ->
      is_bust (player_ r') = false
      /\ (doubled (player_ r') = false -> 17 <= hard_total (player_ r'))).
Proof.
  induction 1 as [r r0 cd Ho|r r0 r1 r2 Ho Ha Hd|r r0 r1 cd d Ho Ha Hn Hl
                  |r r0 r1 r2 cd Ho Ha Hd Hb
                  |r r0 r1 r2 r' cd exit Ho Ha Hd Hb Hrun IH];
    intros Hnb Hd0.
  - exfalso.
    destruct (offer_step_inv _ _ _ _ Ho)
      as (_ & _ & _ & _ & _
          & [(_ & Hg & _)|(_ & _ & d0 & st & Hdec & Hg & _)]);
      [discriminate|].
    symmetry in Hg. apply Decision_eqb_eq in Hg. subst d0.
    cbn in Hdec. injection Hdec as Hdec _.
    pose proof (AlwaysHitUnder17_cases
                  (mkSituation (player_ r) (dealer_ r) (rules_ r) cd)) as Hc.
    rewrite Hdec in Hc. exact Hc.
  - destruct (offer_step_inv _ _ _ _ Ho) as (Hr0 & _ & _ & Hp & _).
    destruct (ask_inv _ _ _ _ _ Ha) as (st & Hdec & Hr1).
    cbn in Hdec. injection Hdec as Hdec _.
    pose proof (AlwaysHitUnder17_cases
                  (mkSituation (player_ r0) (dealer_ r0) (rules_ r0) true))
      as Hc.
    rewrite Hdec in Hc. cbn in Hc. destruct Hc as (Hda & _ & Hl2 & H9 & H11).
    destruct (deal_player_cards _ _ Hd)
      as (_ & _ & _ & _ & _ & _ & c & _ & Hp2).
    subst r1. unfold with_hands in Hp2. cbn in Hp2.
    assert (Hle : hard_total (player_ r2) <= 21).
    { rewrite Hp2.
      pose proof (hard_total_add_upper (set_doubled (player_ r0)) c) as Hu.
      change (hard_total (set_doubled (player_ r0)))
        with (hard_total (player_ r0)) in Hu. lia. }
    split; [discriminate|]. split.
    + intros _. rewrite Hp2. cbn. rewrite length_app, Hl2.
      split; [reflexivity|]. split; [congruence | reflexivity].
    + intros _. split; [now apply Z.ltb_ge|].
      rewrite Hp2. cbn. discriminate.
  - destruct (offer_step_inv _ _ _ _ Ho) as (Hr0 & _ & _ & Hp & _).
    destruct (ask_inv _ _ _ _ _ Ha) as (st & Hdec & Hr1).
    cbn in Hdec. injection Hdec as Hdec _.
    pose proof (AlwaysHitUnder17_cases
                  (mkSituation (player_ r0) (dealer_ r0) (rules_ r0) cd))
      as Hc.
    rewrite Hdec in Hc. cbn in Hc. subst r1. cbn.
    rewrite Hp in *.
    split; [discriminate|]. split; [congruence|].
    intros _. split; [exact Hnb|]. intros _.
    destruct d; try contradiction; try congruence.
    destruct Hc as (_ & Hcd & _). specialize (Hl eq_refl). congruence.
  - destruct (offer_step_inv _ _ _ _ Ho) as (Hr0 & _ & _ & Hp & _).
    destruct (ask_frame _ _ _ _ _ Ha) as (_ & _ & _ & Hp1 & _).
    destruct (deal_player_cards _ _ Hd)
      as (_ & _ & _ & _ & _ & _ & c & _ & Hp2).
    split; [discriminate|]. split; [|discriminate].
    rewrite Hp2. cbn. congruence.
  - destruct (offer_step_inv _ _ _ _ Ho) as (Hr0 & _ & _ & Hp & _).
    destruct (ask_frame _ _ _ _ _ Ha) as (Hr1 & _ & _ & Hp1 & _).
    destruct (deal_player_cards _ _ Hd)
      as (_ & Hr2 & _ & _ & _ & _ & c & _ & Hp2).
    assert (Hd2 : doubled (player_ r2) = false).
    { rewrite Hp2. cbn. congruence. }
    destruct (IH Hb Hd2) as (IH1 & IH2 & IH3).
    split; [exact IH1|]. split; [|exact IH3].
    intros Hdd. destruct (IH2 Hdd) as (Hl3 & Hda & He).
    split; [exact Hl3|]. split; [congruence | exact He].
Qed.

(** The built-in strategy never ends a round in surrender. *)
Lemma default_no_surrender (r r' : Round) (rr : RoundResult) :
  play (H0 := AlwaysHitUnder17) r = Ok (rr, r') ->
  outcome rr <> PlayerSurrender.
Proof.
  intros Hplay.
  destruct (play_stages r r' rr Hplay)
    as (c1 & c2 & c3 & c4 & sh4 & r4 & _ & Hr4 & Hpath & _).
  assert (H4 : length (cards (player_ r4)) = 2%nat
               /\ doubled (player_ r4) = false)
    by (subst r4; auto).
  destruct H4 as (Hl4 & Hd4).
  pose proof (two_cards_not_bust _ Hl4) as Hnb4.
  destruct Hpath as [(_ & Hearly)|(_ & exit & r5 & Hrun & _ & Hend)].
  - destruct Hearly as [(_ & _ & Ho)|(_ & _ & Ho)]; rewrite Ho;
      [destruct (is_blackjack (player_ r4))|]; discriminate.
  - destruct (default_turn _ _ _ _ Hrun Hnb4 Hd4) as (Hns & _).
    destruct Hend as [(_ & He)|(_ & _ & Ho)]; [congruence|].
    rewrite Ho. unfold compare_totals.
    destruct (is_bust (dealer_ r')); [discriminate|].
    destruct (hard_total (dealer_ r') <? _); [discriminate|].
    destruct (_ <? hard_total (dealer_ r')); discriminate.
Qed.

(** With the built-in strategy the player never surrenders; the total of
    the player hand is above 21 exactly when the outcome is PlayerBust; a
    doubled hand holds three cards, under rules that allow doubling, and
    is not bust; and a hand neither doubled nor bust nor up against a
    dealer blackjack stands on a total from 17 to 21. *)
Theorem default_strategy_rounds (r r' : Round) (rr : RoundResult) :
  play (H0 := AlwaysHitUnder17) r = Ok (rr, r') ->
  outcome rr <> PlayerSurrender
  /\ (21 < player_total rr <-> outcome rr = PlayerBust)
  /\ (doubled (player_ r') = true ->
      length (cards (player_ r')) = 3%nat
      /\ double_allowed (rules_ r) = true
      /\ player_total rr <= 21)
  /\ (outcome rr <> DealerBJ -> outcome rr <> PlayerBust ->
      doubled (player_ r') = false ->
      17 <= player_total rr <= 21).
Proof.
  intros Hplay.
  destruct (play_stages r r' rr Hplay)
    as (c1 & c2 & c3 & c4 & sh4 & r4 & Hdraws & Hr4 & Hpath & Hs).
  destruct (settle_outcome _ _ _ Hs) as (_ & Hpt & _). rewrite Hpt.
  assert (H4 : length (cards (player_ r4)) = 2%nat
               /\ doubled (player_ r4) = false /\ rules_ r4 = rules_ r)
    by (subst r4; auto).
  destruct H4 as (Hl4 & Hd4 & Hrl4).
  pose proof (two_cards_not_bust _ Hl4) as Hnb4.
  assert (Hle4 : hard_total (player_ r4) <= 21) by now apply Z.ltb_ge.
  destruct Hpath as [(-> & Hearly)|(Hnbj & exit & r5 & Hrun & Hpturn & Hend)].
  { assert (Hcase : outcome rr = Push /\ is_blackjack (player_ r4) = true
                    \/ outcome rr = DealerBJ \/ 
                    outcome rr = PlayerBJ /\ is_blackjack (player_ r4) = true).
    { destruct Hearly as [(_ & _ & Ho)|(_ & Hbj & Ho)]; [|auto].
      destruct (is_blackjack (player_ r4)); auto. }
    assert (Hbj21 : is_blackjack (player_ r4) = true ->
                    hard_total (player_ r4) = 21).
    { unfold is_blackjack. intros Hb. apply andb_true_iff in Hb as [_ Hb].
      now apply Z.eqb_eq. }
    split; [destruct Hcase as [[-> _]|[->|[-> _]]]; discriminate|].
    split.
    { split; [lia|].
      intros Ho. destruct Hcase as [[Hc _]|[Hc|[Hc _]]]; congruence. }
    split; [congruence|].
    intros Hn1 _ _.
    destruct Hcase as [[_ Hb]|[Hc|[_ Hb]]]; try congruence;
      specialize (Hbj21 Hb); lia. }
  rewrite <- Hrl4 in Hrun.
  destruct (default_turn _ _ _ _ Hrun Hnb4 Hd4) as (Hns & Hdbl & Hbrk).
  rewrite Hrl4 in Hdbl.
  destruct Hend as [(-> & He)|(-> & Hdturn & Hoc)].
  - rewrite He in Hrun, Hns.
    destruct (turn_run_return _ _ _ _ Hrun) as [Hc|[Hc Hbust]];
      [congruence|].
    apply Z.ltb_lt in Hbust.
    split; [congruence|]. split; [tauto|].
    split; [intros Hdd; destruct (Hdbl Hdd) as (_ & _ & Hc'); congruence|].
    congruence.
  - destruct (dealer_turn_ok _ _ _ Hdturn) as (_ & _ & _ & Hp6 & _).
    rewrite Hp6 in *.
    destruct (Hbrk eq_refl) as (Hnb5 & H17). apply Z.ltb_ge in Hnb5.
    assert (Hne : outcome rr <> PlayerBust /\ outcome rr <> PlayerSurrender).
    { rewrite Hoc. unfold compare_totals.
      destruct (is_bust (dealer_ r')); [split; discriminate|].
      destruct (hard_total (dealer_ r') <? _); [split; discriminate|].
      destruct (_ <? hard_total (dealer_ r')); split; discriminate. }
    destruct Hne as [Hne1 Hne2].
    split; [exact Hne2|]. split; [split; [lia | congruence]|].
    split.
    { intros Hdd. destruct (Hdbl Hdd) as (Hl3 & Hda & _).
      split; [exact Hl3|]. split; [exact Hda | lia]. }
    intros _ _ Hdd. specialize (H17 Hdd). lia.
Qed.
End DefaultStrategy.

Lemma default_strategy_rounds_witness :
  exists rr r',
    play (H0 := AlwaysHitUnder17) default_double = Ok (rr, r')
    /\ doubled (player_ r') = true
    /\ length (cards (player_ r')) = 3%nat
    /\ outcome rr <> PlayerSurrender.
Proof.
  destruct (play (H0 := AlwaysHitUnder17) default_double)
    as [[rr r']|e] eqn:E; [|vm_compute in E; discriminate].
  exists rr, r'. split; [reflexivity|].
  destruct (default_strategy_rounds _ _ _ E) as (Hns & _ & Hd & _).
  assert (Hdd : doubled (player_ r') = true)
    by (vm_compute in E; injection E as <- <-; reflexivity).
  split; [exact Hdd|]. split; [exact (proj1 (Hd Hdd)) | exact Hns].
Defined.

(** ** The counters of the simulation harness *)

Lemma tally_consistent (stats stats' : SimStats) (rr : RoundResult)
      (dbl : bool) (bet : Z) :
  stats_consistent stats ->
  tally stats rr dbl bet = Ok stats' ->
  stats_consistent stats'.
Proof.
  unfold stats_consistent. intros Hc Ht.
  destruct (tally_inv _ _ _ _ _ Ht)
    as (Hr & _ & Hpbj & Hdbj & Hpw & Hdw & Hbu & Hpu & Hsu).
  rewrite Hr, Hpbj, Hdbj, Hpw, Hdw, Hbu, Hpu, Hsu.
  destruct (outcome rr); cbn [Outcome_eqb Z.b2z]; lia.
Qed.

Section Counters.
Context {G : Type} `{ShuffleEngine G}.
Context {St : Type} `{Strategy St}.

Local Abbreviation Round := (Round G St).

Lemma sim_loop_consistent (k : nat) :
  forall (rl : Rules) (bet : Z) (sh sh' : Shoe G) (st st' : St)
         (stats stats' : SimStats),
    stats_consistent stats ->
    sim_loop k rl bet sh st stats = Ok (stats', sh', st') ->
    stats_consistent stats' /\ rounds stats' = rounds stats + Z.of_nat k.
Proof.
  induction k as [|k IH]; intros rl bet sh sh' st st' stats stats' Hc Hrun.
  { injection Hrun as <- <- <-. split; [exact Hc | cbn; lia]. }
  cbn [sim_loop] in Hrun.
  apply bind_ok in Hrun as ([rr r1] & Hplay & Hrun).
  apply bind_ok in Hrun as (stats1 & Htally & Hrun).
  pose proof (tally_consistent _ _ _ _ _ Hc Htally) as Hc1.
  destruct (tally_inv _ _ _ _ _ Htally) as (Hr1 & _).
  destruct (IH _ _ _ _ _ _ _ _ Hc1 Hrun) as (Hc' & Hr').
  split; [exact Hc' | lia].
Qed.

(** The two outcomes that a rule switches on. *)
Lemma play_outcome_gates (r r' : Round) (rr : RoundResult) :
  play r = Ok (rr, r') ->
  (outcome rr = DealerBJ -> peek_for_blackjack (rules_ r) = true)
  /\ (outcome rr = PlayerSurrender -> surrender (rules_ r) = true).
Proof.
  intros Hplay.
  destruct (play_stages r r' rr Hplay)
    as (c1 & c2 & c3 & c4 & sh4 & r4 & _ & Hr4 & Hpath & _).
  assert (H4 : (2 <= length (cards (player_ r4)))%nat
               /\ surrendered (player_ r4) = false /\ rules_ r4 = rules_ r)
    by (subst r4; cbn; auto).
  destruct H4 as (Hl4 & Hs4 & Hrl4).
  destruct Hpath as [(_ & Hearly)|(_ & exit & r5 & Hrun & _ & Hend)].
  - destruct Hearly as [(Hpeek & _ & Ho)|(_ & _ & Ho)]; rewrite Ho.
    + split; [auto|]. destruct (is_blackjack (player_ r4)); discriminate.
    + split; discriminate.
  - destruct Hend as [(_ & He)|(_ & _ & Ho)].
    + rewrite He in Hrun.
      destruct (turn_run_return _ _ _ _ Hrun) as [Hc|[Hc _]]; rewrite Hc.
      * split; [discriminate|]. intros _.
        destruct (turn_run_surrender _ _ _ _ Hrun Hl4 Hs4) as (Hs & _).
        rewrite Hc in Hs. destruct (Hs eq_refl) as (Hsr & _). congruence.
      * split; discriminate.
    + rewrite Ho. unfold compare_totals.
      destruct (is_bust (dealer_ r')); [split; discriminate|].
      destruct (hard_total (dealer_ r') <? _); [split; discriminate|].
      destruct (_ <? hard_total (dealer_ r')); split; discriminate.
Qed.

(** A counter stays where it is over a run of rounds none of which ends
    in its outcome. *)
Lemma sim_loop_never (oc : Outcome) (rl : Rules) (bet : Z) :
  (forall sh st rr r',
      play (new_Round rl sh st bet) = Ok (rr, r') -> outcome rr <> oc) ->
  forall (k : nat) (sh sh' : Shoe G) (st st' : St)
         (stats stats' : SimStats),
    sim_loop k rl bet sh st stats = Ok (stats', sh', st') ->
    (oc = DealerBJ -> dealer_bj stats' = dealer_bj stats)
    /\ (oc = PlayerSurrender -> surrenders stats' = surrenders stats).
Proof.
  intros Hnever.
  induction k as [|k IH]; intros sh sh' st st' stats stats' Hrun.
  { injection Hrun as <- <- <-. auto. }
  cbn [sim_loop] in Hrun.
  apply bind_ok in Hrun as ([rr r1] & Hplay & Hrun).
  apply bind_ok in Hrun as (stats1 & Htally & Hrun).
  destruct (tally_inv _ _ _ _ _ Htally)
    as (_ & _ & _ & Hdbj & _ & _ & _ & _ & Hsu).
  destruct (IH _ _ _ _ _ _ Hrun) as (IHd & IHs).
  pose proof (Hnever _ _ _ _ Hplay) as Hne.
  split; intros ->.
  - rewrite (IHd eq_refl), Hdbj.
    destruct (outcome rr); cbn [Outcome_eqb Z.b2z]; try lia. congruence.
  - rewrite (IHs eq_refl), Hsu.
    destruct (outcome rr); cbn [Outcome_eqb Z.b2z]; try lia. congruence.
Qed.

(** A round on a shoe without cards stops at the first card dealt. *)
Lemma play_empty_shoe (r : Round) :
  cards_ (shoe_ r) = [] -> play r = Err Undefined.
Proof.
  intros He. unfold play, play_within, initial_deal, deal_player.
  cbn [with_hands shoe_]. rewrite (draw_empty _ He). reflexivity.
Qed.
End Counters.

Section Simulation.
Context {G : Type} `{ShuffleEngine G}.

(** The counters of [simulate] account for every round once: the wins of
    the two sides, the pushes and the surrenders add up to the rounds
    played, which are [n], or none for a negative [n]; the blackjacks of a
    side are among its wins; and the busts are among the wins that are not
    blackjacks. *)
Theorem simulate_counters_consistent (n : Z) (rl : Rules) (seed bet : Z)
        (strategy : option StrategyObj) (stats : SimStats) :
  simulate n rl seed bet strategy = Ok stats ->
  stats_consistent stats /\ rounds stats = Z.max 0 n.
Proof.
  intros Hsim. unfold simulate, simulate_with in Hsim.
  apply bind_ok in Hsim as ([stats0 st0] & Hrun & [= <-]).
  apply bind_ok in Hrun as (shoe & Hshoe & Hrun).
  apply bind_ok in Hrun as ([[stats1 sh1] st1] & Hloop & [= <- <-]).
  apply sim_loop_consistent in Hloop as (Hc & Hr).
  - split; [exact Hc|]. rewrite Hr. cbn [rounds no_stats]. lia.
  - unfold stats_consistent. cbn. lia.
Qed.

(** Two counters can stay at zero for a whole simulation: [dealer_bj]
    when the rules do not peek for a dealer blackjack, and [surrenders]
    when the rules do not offer surrender or when no strategy is passed,
    so that the built-in one plays. *)
Theorem simulate_dead_counters (n : Z) (rl : Rules) (seed bet : Z)
        (strategy : option StrategyObj) (stats : SimStats) :
  simulate n rl seed bet strategy = Ok stats ->
  (peek_for_blackjack rl = false -> dealer_bj stats = 0)
  /\ (surrender rl = false -> surrenders stats = 0)
  /\ (strategy = None -> surrenders stats = 0).
Proof.
  intros Hsim.
  split; [|split].
  - intros Hpeek. unfold simulate, simulate_with in Hsim.
    apply bind_ok in Hsim as ([stats0 st0] & Hrun & [= <-]).
    apply bind_ok in Hrun as (shoe & Hshoe & Hrun).
    apply bind_ok in Hrun as ([[stats1 sh1] st1] & Hloop & [= <- <-]).
    apply (sim_loop_never DealerBJ) in Hloop as (Hd & _).
    + now rewrite (Hd eq_refl).
    + intros sh st rr r' Hplay Ho.
      destruct (play_outcome_gates _ _ _ Hplay) as (Hg & _).
      specialize (Hg Ho). cbn in Hg. congruence.
  - intros Hsur. unfold simulate, simulate_with in Hsim.
    apply bind_ok in Hsim as ([stats0 st0] & Hrun & [= <-]).
    apply bind_ok in Hrun as (shoe & Hshoe & Hrun).
    apply bind_ok in Hrun as ([[stats1 sh1] st1] & Hloop & [= <- <-]).
    apply (sim_loop_never PlayerSurrender) in Hloop as (_ & Hs).
    + now rewrite (Hs eq_refl).
    + intros sh st rr r' Hplay Ho.
      destruct (play_outcome_gates _ _ _ Hplay) as (_ & Hg).
      specialize (Hg Ho). cbn in Hg. congruence.
  - intros ->. unfold simulate, simulate_with in Hsim.
    cbn [default_strat obj_class obj_value] in Hsim.
    apply bind_ok in Hsim as ([stats0 st0] & Hrun & [= <-]).
    apply bind_ok in Hrun as (shoe & Hshoe & Hrun).
    apply bind_ok in Hrun as ([[stats1 sh1] st1] & Hloop & [= <- <-]).
    apply (sim_loop_never PlayerSurrender) in Hloop as (_ & Hs).
    + now rewrite (Hs eq_refl).
    + intros sh st rr r' Hplay.
      exact (default_no_surrender _ _ _ Hplay).
Qed.

(** The ways [simulate] goes at the edges of its arguments.  A count of
    rounds that is not positive plays nothing and gives statistics that
    are all zero, also on a shoe of no decks.  A positive count on a shoe
    of no decks is undefined, at the first card dealt.  A negative number
    of decks makes the construction of the shoe throw, and a number whose
    product with 52 is outside [int] is undefined, whatever the count. *)
Theorem simulate_edge_cases (n : Z) (rl : Rules) (seed bet : Z)
        (strategy : option StrategyObj) :
  (n <= 0 -> 0 <= num_decks rl -> in_int (num_decks rl * 52) = true ->
   simulate n rl seed bet strategy = Ok no_stats)
  /\ (0 < n -> num_decks rl = 0 ->
      simulate n rl seed bet strategy = Err Undefined)
  /\ (num_decks rl < 0 -> in_int (num_decks rl * 52) = true ->
      simulate n rl seed bet strategy = Err LengthError)
  /\ (in_int (num_decks rl * 52) = false ->
      simulate n rl seed bet strategy = Err Undefined).
Proof.
  unfold simulate, simulate_with, new_Shoe.
  split; [|split; [|split]].
  - intros Hn Hd Hi. unfold reset. rewrite Hi. cbn [negb].
    replace (num_decks rl * 52 <? 0) with false
      by (symmetry; apply Z.ltb_ge; lia).
    cbn [bind]. replace (Z.to_nat n) with O by lia. reflexivity.
  - intros Hn Hd. rewrite Hd.
    destruct (reset (mkShoe [] O (seed_engine seed)) 0) as [sh|e] eqn:E;
      [|vm_compute in E; discriminate].
    destruct (reset_ok _ _ _ E) as (_ & _ & Hl).
    assert (He : cards_ sh = []).
    { destruct (cards_ sh); [reflexivity | cbn [length] in Hl; lia]. }
    cbn [bind]. destruct (Z.to_nat n) as [|k] eqn:Ek; [lia|].
    cbn [sim_loop]. rewrite play_empty_shoe by exact He. reflexivity.
  - intros Hd Hi. unfold reset. rewrite Hi. cbn [negb].
    replace (num_decks rl * 52 <? 0) with true
      by (symmetry; apply Z.ltb_lt; lia).
    reflexivity.
  - intros Hi. unfold reset. rewrite Hi. reflexivity.
Qed.
End Simulation.

Lemma simulate_counters_consistent_witness :
  exists stats : SimStats,
    simulate (G := nat) 5 one_deck_rules 42 100 None = Ok stats
    /\ stats_consistent stats /\ rounds stats = 5.
Proof.
  destruct (simulate (G := nat) 5 one_deck_rules 42 100 None)
    as [stats|e] eqn:E; [|vm_compute in E; discriminate].
  exists stats. split; [reflexivity|].
  exact (simulate_counters_consistent (G := nat) 5 one_deck_rules 42 100
           None stats E).
Defined.

Lemma simulate_dead_counters_witness :
  exists stats : SimStats,
    simulate (G := nat) 5 no_peek_rules 42 100 None = Ok stats
    /\ dealer_bj stats = 0 /\ surrenders stats = 0.
Proof.
  destruct (simulate (G := nat) 5 no_peek_rules 42 100 None)
    as [stats|e] eqn:E; [|vm_compute in E; discriminate].
  exists stats. split; [reflexivity|].
  destruct (simulate_dead_counters (G := nat) 5 no_peek_rules 42 100 None
              stats E) as (Hd & _ & Hs).
  split; [exact (Hd eq_refl) | exact (Hs eq_refl)].
Defined.

Lemma simulate_edge_cases_witness :
  simulate (G := nat) (-3) no_deck_rules 42 100 None = Ok no_stats
  /\ simulate (G := nat) 5 no_deck_rules 42 100 None = Err Undefined
  /\ simulate (G := nat) 5 (mkRules (-1) true true true false true 3 2)
              42 100 None = Err LengthError
  /\ simulate (G := nat) 5 (mkRules 50000000 true true true false true 3 2)
              42 100 None = Err Undefined.
Proof.
  split; [|split; [|split]].
  - destruct (simulate_edge_cases (G := nat) (-3) no_deck_rules 42 100 None)
      as (Hnone & _).
    apply Hnone; [lia | cbn; lia | reflexivity].
  - destruct (simulate_edge_cases (G := nat) 5 no_deck_rules 42 100 None)
      as (_ & Hempty & _).
    apply Hempty; [lia | reflexivity].
  - destruct (simulate_edge_cases (G := nat) 5
                (mkRules (-1) true true true false true 3 2) 42 100 None)
      as (_ & _ & Hneg & _).
    apply Hneg; [cbn; lia | reflexivity].
  - destruct (simulate_edge_cases (G := nat) 5
                (mkRules 50000000 true true true false true 3 2) 42 100 None)
      as (_ & _ & _ & Hbig).
    apply Hbig. reflexivity.
Defined.

